(** * py_near JSON-RPC provider: a shallow embedding and its properties

    The development follows [sdk/py_near/providers.py] (class [JsonProvider])
    and [sdk/py_near/models.py] (class [TransactionResult]).

    - Python values decoded by [json.loads] are trees of type [json]; a
      dict is the list of its items in insertion order.
    - Exceptions are values of type [exn]; a Python class that lives in a
      module outside the embedded files is named by its identifier.
    - Coroutines become functions in a state-and-error monad over a [world]
      that holds the provider object, the position in the scripted network
      and the trace of effects (requests, log records, sleeps, spawned
      tasks).
    - Timestamps ([datetime.timestamp()], a float of seconds) are rationals. *)

From Stdlib Require Import ZArith QArith Lqa Floats String List.
From stdpp Require Import base option list gmap strings sorting.

#[local] Set Warnings "-register-all,-notation-for-abbreviation".
Local Open Scope string_scope.
Local Open Scope list_scope.
Local Open Scope Z_scope.

(** ** Python values *)

Module Py.

(** What [json.loads] returns.  [JNull] is Python's [None]. *)
Inductive json : Type :=
| JNull
| JBool (b : bool)
| JInt (z : Z)
| JFloat (f : float)
| JStr (s : string)
| JArr (elems : list json)
| JObj (items : list (string * json)).

(** A class is named by its identifier. *)
Definition pyclass : Type := string.

(** The exceptions that travel through the provider.  [RpcError] stands for
    the instances of the classes of [sdk.py_near.exceptions.provider], built
    as [cls(body, error_json=...)]; [ConnectionError] for the builtin and its
    subclasses; [PyException] for every other [Exception] ([KeyError],
    [TypeError], [JSONDecodeError], [asyncio.TimeoutError], ...). *)
Inductive exn : Type :=
| RpcNotAvailableError (msg : string)
| RpcError (cls : pyclass) (body : json) (error_json : json)
| ClientResponseError (status : Z)
| ClientConnectorError (msg : string)
| ServerDisconnectedError (msg : string)
| ConnectionError (msg : string)
| PyException (cls : pyclass) (arg : string).

Inductive result (A : Type) : Type :=
| Ok (a : A)
| Raise (e : exn).
Arguments Ok {A} a.
Arguments Raise {A} e.

#[export] Instance result_ret : MRet result := fun A a => Ok a.
#[export] Instance result_bind : MBind result := fun A B f m =>
  match m with
  | Ok a => f a
  | Raise e => Raise e
  end.

(** [bool(v)]. *)
Definition truthy (v : json) : bool :=
  match v with
  | JNull => false
  | JBool b => b
  | JInt z => negb (z =? 0)
  | JFloat f => negb (PrimFloat.eqb f 0%float)
  | JStr s => negb (String.eqb s "")
  | JArr [] => false
  | JArr (_ :: _) => true
  | JObj [] => false
  | JObj (_ :: _) => true
  end.

(** [d.get(key)] on the items of a dict. *)
Fixpoint dict_get (items : list (string * json)) (key : string) : option json :=
  match items with
  | [] => None
  | (k, v) :: rest => if String.eqb k key then Some v else dict_get rest key
  end.

(** [v[key]] for a string [key]. *)
Definition getitem (v : json) (key : string) : result json :=
  match v with
  | JObj items =>
      match dict_get items key with
      | Some x => Ok x
      | None => Raise (PyException "KeyError" key)
      end
  | _ => Raise (PyException "TypeError" key)
  end.

(** [v.get(key, dflt)]: only a dict has the method. *)
Definition get_method (v : json) (key : string) (dflt : json) : result json :=
  match v with
  | JObj items => Ok (default dflt (dict_get items key))
  | _ => Raise (PyException "AttributeError" "get")
  end.

Definition is_substring (needle hay : string) : bool :=
  match String.index 0 needle hay with
  | Some _ => true
  | None => false
  end.

Definition is_str (key : string) (v : json) : bool :=
  match v with
  | JStr s => String.eqb s key
  | _ => false
  end.

(** [key in v] for a string [key]: key membership in a dict, element
    membership in a list, substring test in a str, [TypeError] otherwise. *)
Definition contains (v : json) (key : string) : result bool :=
  match v with
  | JObj items => Ok (bool_decide (is_Some (dict_get items key)))
  | JArr elems => Ok (existsb (is_str key) elems)
  | JStr s => Ok (is_substring key s)
  | _ => Raise (PyException "TypeError" "in")
  end.

End Py.
Export Py.

(** ** Error classification ([providers.py], lines 30-43 and 127-147) *)

Definition UnknownBlockError : pyclass := "UnknownBlockError".
Definition InvalidAccount : pyclass := "InvalidAccount".
Definition UnknownAccount : pyclass := "UnknownAccount".
Definition NoContractCodeError : pyclass := "NoContractCodeError".
Definition TooLargeContractStateError : pyclass := "TooLargeContractStateError".
Definition UnavailableShardError : pyclass := "UnavailableShardError".
Definition NoSyncedBlocksError : pyclass := "NoSyncedBlocksError".
Definition InternalError : pyclass := "InternalError".
Definition NoSyncedYetError : pyclass := "NoSyncedYetError".
Definition InvalidTransactionError : pyclass := "InvalidTransactionError".
Definition RPCTimeoutError : pyclass := "RPCTimeoutError".
Definition UnknownAccessKeyError : pyclass := "UnknownAccessKeyError".

Definition PROVIDER_CODE_TO_EXCEPTION : gmap string pyclass :=
  list_to_map [
    ("UNKNOWN_BLOCK", UnknownBlockError);
    ("INVALID_ACCOUNT", InvalidAccount);
    ("UNKNOWN_ACCOUNT", UnknownAccount);
    ("NO_CONTRACT_CODE", NoContractCodeError);
    ("TOO_LARGE_CONTRACT_STATE", TooLargeContractStateError);
    ("UNAVAILABLE_SHARD", UnavailableShardError);
    ("NO_SYNCED_BLOCKS", NoSyncedBlocksError);
    ("INTERNAL_ERROR", InternalError);
    ("NOT_SYNCED_YET", NoSyncedYetError);
    ("INVALID_TRANSACTION", InvalidTransactionError);
    ("TIMEOUT_ERROR", RPCTimeoutError);
    ("UNKNOWN_ACCESS_KEY", UnknownAccessKeyError)
  ].

(** [PROVIDER_CODE_TO_EXCEPTION.get(error_code, InternalError)]: a list or a
    dict is unhashable; any other value that is not one of the keys gives the
    default. *)
Definition provider_class (error_code : json) : result pyclass :=
  match error_code with
  | JStr s => Ok (default InternalError (PROVIDER_CODE_TO_EXCEPTION !! s))
  | JArr _ | JObj _ => Raise (PyException "TypeError" "unhashable")
  | _ => Ok InternalError
  end.

Section Classification.

(** The table of action-level classes is imported from
    [sdk.py_near.exceptions.provider], which is not among the embedded
    files: it is a parameter. *)
Variable ERROR_CODE_TO_EXCEPTION : gmap string pyclass.

(** The [while True] loop of [get_error_from_response]: [body] is the value
    still to be walked, [error] the exception built so far. *)
Fixpoint refine_error (error_json body : json) (error : exn) : exn :=
  match body with
  | JObj ((key, body') :: _) =>
      match ERROR_CODE_TO_EXCEPTION !! key with
      | Some cls => refine_error error_json body' (RpcError cls body' error_json)
      | None => error
      end
  | _ => error
  end.

Definition get_error_from_response (content : json) : result (option exn) :=
  has_error ← contains content "error";
  if has_error : bool then
    error_json ← getitem content "error";
    cause ← get_method error_json "cause" (JObj []);
    error_code ← get_method cause "name" (JStr "");
    body ← getitem error_json "data";
    cls ← provider_class error_code;
    mret (Some (refine_error error_json body (RpcError cls body error_json)))
  else mret None.

End Classification.

(** ** The provider object, the network and the trace of effects *)

(** The fields [__init__] sets on a [JsonProvider]. *)
Record JsonProvider : Type := {
  _rpc_addresses : list string;
  _available_rpcs : list string;
  _last_rpc_addr_check : Q
}.

(** The argument of the constructor: a (host, port) pair, a list of
    addresses, or one address. *)
Inductive rpc_addr_arg : Type :=
| AddrTuple (host port : string)
| AddrList (addrs : list string)
| AddrStr (addr : string).

Definition JsonProvider_init (rpc_addr : rpc_addr_arg) : JsonProvider :=
  let addresses :=
    match rpc_addr with
    | AddrTuple host port => [("http://" ++ host ++ ":" ++ port)%string]
    | AddrList addrs => addrs
    | AddrStr addr => [addr]
    end in
  {| _rpc_addresses := addresses;
     _available_rpcs := addresses;
     _last_rpc_addr_check := 0%Q |}.

(** What a request gives back: [r.status], and the value (or the exception)
    of [json.loads(await r.text())]. *)
Record response : Type := {
  status : Z;
  body : result json
}.

(** The request raised, or it returned a response. *)
Inductive reply : Type :=
| Raises (e : exn)
| Responds (r : response).

(** The environment of a run: the reply to the n-th GET, the reply to the
    n-th POST, and the n-th reading of the clock. *)
Record network : Type := {
  get_reply : nat -> reply;
  post_reply : nat -> reply;
  clock : nat -> Q
}.

(** The records written through [logger]. *)
Inductive log_record : Type :=
| Remove_async_RPC (rpc_addr : string)
| Remove_rpc_because_of_error (status : Z) (rpc_addr : string)
| Remove_rpc (e : exn)
| No_RPC_available_rechecking
| Rpc_error (e : exn).

Inductive event : Type :=
| HttpGet (url : string) (timeout : Z)
| HttpPost (rpc_addr : string) (j : json) (timeout : Z)
| Logged (r : log_record)
| CreateTask_check_available_rpcs
| Sleep (seconds : Z).

Record world : Type := {
  self : JsonProvider;
  gets : nat;
  posts : nat;
  ticks : nat;
  trace : list event
}.

Definition with_self (p : JsonProvider) (w : world) : world :=
  {| self := p; gets := gets w; posts := posts w; ticks := ticks w; trace := trace w |}.

Definition with_event (e : event) (w : world) : world :=
  {| self := self w; gets := gets w; posts := posts w; ticks := ticks w;
     trace := trace w ++ [e] |}.

(** A coroutine of the provider: it runs to its end in a world and either
    returns or raises. *)
Definition M (A : Type) : Type := world -> result A * world.

#[export] Instance M_ret : MRet M := fun A a w => (Ok a, w).
#[export] Instance M_bind : MBind M := fun A B f m w =>
  match m w with
  | (Ok a, w') => f a w'
  | (Raise e, w') => (Raise e, w')
  end.

Definition raise {A : Type} (e : exn) : M A := fun w => (Raise e, w).

(** [try: m] with the outcome handed to the handler. *)
Definition try_ {A : Type} (m : M A) : M (result A) := fun w =>
  let (r, w') := m w in (Ok r, w').

Definition lift {A : Type} (r : result A) : M A := fun w => (r, w).

Definition get_self : M JsonProvider := fun w => (Ok (self w), w).

Definition emit (e : event) : M unit := fun w => (Ok tt, with_event e w).

Definition logger (r : log_record) : M unit := emit (Logged r).

Definition set_available_rpcs (rpcs : list string) : M unit := fun w =>
  (Ok tt, with_self {| _rpc_addresses := _rpc_addresses (self w);
                       _available_rpcs := rpcs;
                       _last_rpc_addr_check := _last_rpc_addr_check (self w) |} w).

Definition set_last_rpc_addr_check (t : Q) : M unit := fun w =>
  (Ok tt, with_self {| _rpc_addresses := _rpc_addresses (self w);
                       _available_rpcs := _available_rpcs (self w);
                       _last_rpc_addr_check := t |} w).

(** [a < b] on timestamps. *)
Definition Qltb (a b : Q) : bool := negb (Qle_bool b a).

(** [sorted(l, key=key)]: the stable sort. *)
Fixpoint insert_sorted {A : Type} (key : A -> Q) (x : A) (l : list A) : list A :=
  match l with
  | [] => [x]
  | y :: l' => if Qltb (key y) (key x) then y :: insert_sorted key x l' else x :: y :: l'
  end.

Definition sorted {A : Type} (key : A -> Q) (l : list A) : list A :=
  foldr (insert_sorted key) [] l.

(** ** The coroutines of [JsonProvider] *)

Section Provider.

Variable net : network.

(** [constants.TIMEOUT_WAIT_RPC]; the module [sdk.py_near.constants] is not
    among the embedded files. *)
Variable TIMEOUT_WAIT_RPC : Z.

Variable ERROR_CODE_TO_EXCEPTION : gmap string pyclass.

(** [issubclass] on the classes of [sdk.py_near.exceptions.provider]. *)
Variable issubclass : pyclass -> pyclass -> bool.

(** The object the constructor call of [get_tx] builds from the result, or the
    exception the constructor raises on a result of another shape. *)
Variable TransactionResult : Type.
Variable TransactionResult_init : json -> result TransactionResult.

(** [datetime.datetime.now().timestamp()] and
    [datetime.datetime.utcnow().timestamp()]: the next reading of the clock. *)
Definition now : M Q := fun w =>
  (Ok (clock net (ticks w)),
   {| self := self w; gets := gets w; posts := posts w; ticks := S (ticks w);
      trace := trace w |}).

(** [await session.get(url, timeout=timeout)]. *)
Definition session_get (url : string) (timeout : Z) : M response := fun w =>
  let w' := {| self := self w; gets := S (gets w); posts := posts w; ticks := ticks w;
               trace := trace w ++ [HttpGet url timeout] |} in
  match get_reply net (gets w) with
  | Raises e => (Raise e, w')
  | Responds r => (Ok r, w')
  end.

(** [await session.post(rpc_addr, json=j, timeout=timeout)]. *)
Definition session_post (rpc_addr : string) (j : json) (timeout : Z) : M response := fun w =>
  let w' := {| self := self w; gets := gets w; posts := S (posts w); ticks := ticks w;
               trace := trace w ++ [HttpPost rpc_addr j timeout] |} in
  match post_reply net (posts w) with
  | Raises e => (Raise e, w')
  | Responds r => (Ok r, w')
  end.

(** [r.raise_for_status()]: aiohttp raises [ClientResponseError] when the
    status is 400 or more. *)
Definition raise_for_status (r : response) : M unit :=
  if 400 <=? status r then raise (ClientResponseError (status r)) else mret tt.

(** [json.loads(await r.text())]. *)
Definition response_json (r : response) : M json := lift (body r).

(** The first half of the handlers of [check_available_rpcs], lines 77-83. *)
Definition log_removed (rpc_addr : string) (r : response) : M unit :=
  p ← get_self;
  if bool_decide (rpc_addr ∈ _available_rpcs p) then
    if status r =? 200 then logger (Remove_async_RPC rpc_addr)
    else logger (Remove_rpc_because_of_error (status r) rpc_addr)
  else mret tt.

(** The body of the [try] of one iteration, lines 61-83: [Some] of the pair
    appended to [available_rpcs], or [None] when nothing is appended. *)
Definition probe_try (rpc_addr : string) : M (option (string * Q)) :=
  timestamp_start ← now;
  r ← session_get (rpc_addr ++ "/status")%string TIMEOUT_WAIT_RPC;
  if status r =? 200 then
    data ← response_json r;
    sync_info ← lift (getitem data "sync_info");
    syncing ← lift (getitem sync_info "syncing");
    if negb (truthy syncing) then
      timestamp_end ← now;
      mret (Some (rpc_addr, (timestamp_end - timestamp_start)%Q))
    else
      log_removed rpc_addr r;; mret None
  else
    log_removed rpc_addr r;; mret None.

(** One iteration of the loop of [check_available_rpcs], lines 59-86. *)
Definition probe (rpc_addr : string) (available_rpcs : list (string * Q))
  : M (list (string * Q)) :=
  attempt ← try_ (probe_try rpc_addr);
  match attempt with
  | Ok (Some entry) => mret (available_rpcs ++ [entry])
  | Ok None => mret available_rpcs
  | Raise e =>
      p ← get_self;
      (if bool_decide (rpc_addr ∈ _available_rpcs p) then logger (Remove_rpc e)
       else mret tt);;
      mret available_rpcs
  end.

Fixpoint probe_all (addrs : list string) (available_rpcs : list (string * Q))
  : M (list (string * Q)) :=
  match addrs with
  | [] => mret available_rpcs
  | rpc_addr :: rest =>
      available_rpcs' ← probe rpc_addr available_rpcs;
      probe_all rest available_rpcs'
  end.

(** The list assigned at lines 87-89. *)
Definition ranked (available_rpcs : list (string * Q)) : list string :=
  (sorted snd available_rpcs).*1.

Definition check_available_rpcs : M unit :=
  p ← get_self;
  available_rpcs ← probe_all (_rpc_addresses p) [];
  set_available_rpcs (ranked available_rpcs).

Definition isinstance (e : exn) (cls : pyclass) : bool :=
  match e with
  | RpcError c _ _ => issubclass c cls
  | _ => false
  end.

(** The [except] clause of the request loop, lines 116-122. *)
Definition request_loop_catches (e : exn) : bool :=
  match e with
  | RpcError _ _ _ => isinstance e RPCTimeoutError
  | ClientResponseError _ => true
  | ClientConnectorError _ => true
  | ServerDisconnectedError _ => true
  | ConnectionError _ => true
  | RpcNotAvailableError _ => false
  | PyException _ _ => false
  end.

(** The body of the [try] of the request loop, lines 111-114. *)
Definition post_try (rpc_addr : string) (j : json) (timeout : Z) : M json :=
  r ← session_post rpc_addr j timeout;
  raise_for_status r;;
  response_json r.

(** The request loop, lines 108-125: [rpcs] is what is left of the list the
    [for] statement iterates, and [JNull] is the initial [content = None]. *)
Fixpoint request_loop (rpcs : list string) (j : json) (timeout : Z) : M json :=
  match rpcs with
  | [] => mret JNull
  | rpc_addr :: rest =>
      attempt ← try_ (post_try rpc_addr j timeout);
      match attempt with
      | Ok content => mret content
      | Raise e =>
          if request_loop_catches e then
            logger (Rpc_error e);; request_loop rest j timeout
          else raise e
      end
  end.

Definition is_empty (l : list string) : bool :=
  match l with
  | [] => true
  | _ :: _ => false
  end.

(** The condition of lines 92-95. *)
Definition refresh_due (p : JsonProvider) (t : Q) : bool :=
  Qltb (_last_rpc_addr_check p) (t - 30)%Q || is_empty (_available_rpcs p).

(** Lines 92-101. *)
Definition freshness_check : M unit :=
  t ← now;
  p ← get_self;
  if refresh_due p t then
    t' ← now;
    set_last_rpc_addr_check t';;
    if negb (is_empty (_available_rpcs p)) then
      emit CreateTask_check_available_rpcs
    else
      logger No_RPC_available_rechecking;;
      check_available_rpcs
  else mret tt.

Definition envelope (method : string) (params : json) : json :=
  JObj [("method", JStr method); ("params", params);
        ("id", JStr "dontcare"); ("jsonrpc", JStr "2.0")].

Definition call_rpc_request (method : string) (params : json) (timeout : Z) : M json :=
  freshness_check;;
  p ← get_self;
  if is_empty (_available_rpcs p) then raise (RpcNotAvailableError "No RPC available")
  else request_loop (_available_rpcs p) (envelope method params) timeout.

(** Lines 151-157, on the value [call_rpc_request] returned.  An exception
    object is true, so [if error] is the test that one was built. *)
Definition json_rpc_result (content : json) : result json :=
  if negb (truthy content) then Raise (RpcNotAvailableError "RPC not available")
  else
    error ← get_error_from_response ERROR_CODE_TO_EXCEPTION content;
    match error with
    | Some e => Raise e
    | None => getitem content "result"
    end.

Definition json_rpc (method : string) (params : json) (timeout : Z) : M json :=
  content ← call_rpc_request method params timeout;
  lift (json_rpc_result content).

Definition send_tx (signed_tx : string) (timeout : Z) : M json :=
  json_rpc "broadcast_tx_async" (JArr [JStr signed_tx]) timeout.

Definition get_tx (tx_hash tx_recipient_id : string) : M TransactionResult :=
  result ← json_rpc "tx" (JArr [JStr tx_hash; JStr tx_recipient_id]) TIMEOUT_WAIT_RPC;
  lift (TransactionResult_init result).

(** [bool(s)] for an [Optional[str]]. *)
Definition supplied (s : option string) : bool :=
  match s with
  | Some s => negb (String.eqb s "")
  | None => false
  end.

(** The polling loop of [send_tx_and_wait], lines 189-199, with [n]
    iterations left.  A [TransactionResult] defines neither [__bool__] nor
    [__len__], so [if result] holds for every object [get_tx] returns. *)
Fixpoint poll (n : nat) (trx_hash receiver_id : string) : M (option TransactionResult) :=
  match n with
  | O => mret None
  | S n' =>
      emit (Sleep 3);;
      attempt ← try_ (get_tx trx_hash receiver_id);
      match attempt with
      | Ok result => mret (Some result)
      | Raise e =>
          if isinstance e InternalError then poll n' trx_hash receiver_id
          else poll n' trx_hash receiver_id
      end
  end.

(** [range(constants.TIMEOUT_WAIT_RPC // 3)]. *)
Definition max_polls : nat := Z.to_nat (TIMEOUT_WAIT_RPC / 3).

(** The coroutine returns the result of the broadcast, or the
    [TransactionResult] a poll found. *)
Definition send_tx_and_wait (signed_tx : string) (timeout : Z)
    (trx_hash receiver_id : option string) : M (json + TransactionResult) :=
  attempt ← try_ (json_rpc "broadcast_tx_commit" (JArr [JStr signed_tx]) timeout);
  match attempt with
  | Ok r => mret (inl r)
  | Raise e =>
      if isinstance e RPCTimeoutError then
        if supplied receiver_id && supplied trx_hash then
          found ← poll max_polls (default "" trx_hash) (default "" receiver_id);
          match found with
          | Some result => mret (inr result)
          | None => raise e
          end
        else raise e
      else raise e
  end.

End Provider.

(** * Properties *)

(** Runs the primitive steps of a coroutine. *)
Ltac run_M :=
  repeat (progress (unfold mbind, M_bind, result_bind, try_, now, session_get, session_post,
                      response_json, lift, log_removed, get_self, logger, emit, raise,
                      set_available_rpcs, set_last_rpc_addr_check, with_event, with_self,
                      mret, M_ret, result_ret; cbn)).

(** ** Error classification *)

Section ClassificationSpec.

Variable ERROR_CODE_TO_EXCEPTION : gmap string pyclass.

(** The walk as the specification words it: while the body is a non-empty
    mapping, take its (first) key; when the key is in the action-level table
    the classification becomes that class, built on the value under the key,
    and the walk goes on from there; otherwise it stops. *)
Inductive single_key_walk (error_json : json) : json -> exn -> exn -> Prop :=
| walk_refine key body rest cls error error' :
    ERROR_CODE_TO_EXCEPTION !! key = Some cls ->
    single_key_walk error_json body (RpcError cls body error_json) error' ->
    single_key_walk error_json (JObj ((key, body) :: rest)) error error'
| walk_unmapped key body rest error :
    ERROR_CODE_TO_EXCEPTION !! key = None ->
    single_key_walk error_json (JObj ((key, body) :: rest)) error error
| walk_empty error :
    single_key_walk error_json (JObj []) error error
| walk_not_mapping body error :
    (forall items, body <> JObj items) ->
    single_key_walk error_json body error error.

(** [error.cause.name] of an error envelope: [None] when the cause or its
    name is absent. *)
Inductive cause_name (error_items : list (string * json)) : option string -> Prop :=
| cause_absent :
    dict_get error_items "cause" = None ->
    cause_name error_items None
| name_absent cause :
    dict_get error_items "cause" = Some (JObj cause) ->
    dict_get cause "name" = None ->
    cause_name error_items None
| name_present cause name :
    dict_get error_items "cause" = Some (JObj cause) ->
    dict_get cause "name" = Some (JStr name) ->
    cause_name error_items (Some name).

(** The provider-level class of a cause name; [InternalError] when the name
    is absent or not a key of the table. *)
Definition provider_kind (name : option string) : pyclass :=
  default InternalError (name ≫= (PROVIDER_CODE_TO_EXCEPTION !!.)).

Lemma refine_error_walk error_json :
  forall body error,
    single_key_walk error_json body error
      (refine_error ERROR_CODE_TO_EXCEPTION error_json body error).
Proof.
  fix IH 1.
  intros body error.
  destruct body as [ | b | z | f | s | elems | items ];
    try (apply walk_not_mapping; intros items' Heq; discriminate Heq).
  destruct items as [ | [key body'] rest ]; simpl.
  - apply walk_empty.
  - destruct (ERROR_CODE_TO_EXCEPTION !! key) as [cls|] eqn:Hkey.
    + eapply walk_refine; [exact Hkey | apply IH].
    + apply walk_unmapped. exact Hkey.
Qed.

Lemma single_key_walk_functional error_json body error e1 e2 :
  single_key_walk error_json body error e1 ->
  single_key_walk error_json body error e2 ->
  e1 = e2.
Proof.
  intros H1. revert e2.
  induction H1 as [key body rest cls error error' Hkey H1 IH
                  | key body rest error Hkey | error | body error Hnot];
    intros e2 H2.
  - inversion H2; subst.
    + assert (cls0 = cls) by congruence. subst. apply IH. assumption.
    + congruence.
    + exfalso. eapply H. reflexivity.
  - inversion H2; subst; try reflexivity. congruence.
  - inversion H2; subst; reflexivity.
  - inversion H2; subst; try reflexivity.
    exfalso. eapply Hnot. reflexivity.
Qed.

Lemma result_bind_Ok {A B : Type} (a : A) (f : A -> result B) :
  (Ok a ≫= f) = f a.
Proof. reflexivity. Qed.

Lemma dict_get_contains items key v :
  dict_get items key = Some v -> contains (JObj items) key = Ok true.
Proof.
  intros H. simpl. f_equal. apply bool_decide_eq_true. rewrite H. eauto.
Qed.

Lemma dict_get_getitem items key v :
  dict_get items key = Some v -> getitem (JObj items) key = Ok v.
Proof. intros H. simpl. rewrite H. reflexivity. Qed.

Lemma cause_name_code error_items name :
  cause_name error_items name ->
  exists cause error_code,
    get_method (JObj error_items) "cause" (JObj []) = Ok cause /\
    get_method cause "name" (JStr "") = Ok error_code /\
    provider_class error_code = Ok (provider_kind name).
Proof.
  intros [Hc | cause Hc Hn | cause s Hc Hn].
  - exists (JObj []), (JStr ""). simpl. rewrite Hc. repeat split.
  - exists (JObj cause), (JStr ""). simpl. rewrite Hc, Hn. repeat split.
  - exists (JObj cause), (JStr s). simpl. rewrite Hc, Hn. repeat split.
Qed.

(** C5.  On a response whose ["error"] entry is a mapping with a ["data"]
    entry [body] and cause name [name] (absent, or a string),
    [get_error_from_response] returns an exception [error]; [error] is what
    the single-key walk of the specification reaches from the provider-level
    class of [name] ([InternalError] when the name is absent or unmapped), and
    the walk reaches nothing else: the classification is a function of the
    cause name and the body. *)
Theorem get_error_from_response_classifies
    (items error_items : list (string * json)) (body : json) (name : option string) :
  dict_get items "error" = Some (JObj error_items) ->
  dict_get error_items "data" = Some body ->
  cause_name error_items name ->
  exists error,
    get_error_from_response ERROR_CODE_TO_EXCEPTION (JObj items) = Ok (Some error) /\
    single_key_walk (JObj error_items) body
      (RpcError (provider_kind name) body (JObj error_items)) error /\
    forall error',
      single_key_walk (JObj error_items) body
        (RpcError (provider_kind name) body (JObj error_items)) error' ->
      error' = error.
Proof.
  intros Herr Hdata Hname.
  destruct (cause_name_code _ _ Hname) as (cause & error_code & Hcause & Hcode & Hcls).
  exists (refine_error ERROR_CODE_TO_EXCEPTION (JObj error_items) body
            (RpcError (provider_kind name) body (JObj error_items))).
  split; [|split].
  - unfold get_error_from_response.
    rewrite (dict_get_contains _ _ _ Herr), result_bind_Ok.
    rewrite (dict_get_getitem _ _ _ Herr), result_bind_Ok.
    rewrite Hcause, result_bind_Ok, Hcode, result_bind_Ok.
    rewrite (dict_get_getitem _ _ _ Hdata), result_bind_Ok.
    rewrite Hcls, result_bind_Ok. reflexivity.
  - apply refine_error_walk.
  - intros error' Hwalk.
    eapply single_key_walk_functional; [exact Hwalk | apply refine_error_walk].
Qed.

End ClassificationSpec.

(** ** The request loop *)

Section RequestLoop.

Local Open Scope nat_scope.

Variable net : network.
Variable issubclass : pyclass -> pyclass -> bool.

Local Notation request_loop_catches := (request_loop_catches issubclass).
Local Notation request_loop := (request_loop net issubclass).
Local Notation post_try := (post_try net).

(** What one attempt makes of the reply to its POST: the decoded body, or
    the exception that leaves the [try]. *)
Definition post_outcome (r : reply) : result json :=
  match r with
  | Raises e => Raise e
  | Responds r => if (400 <=? status r)%Z then Raise (ClientResponseError (status r)) else body r
  end.

(** The attempt succeeds with [content]: no exception, a status below 400
    and a body that [json.loads] decodes to [content]. *)
Definition post_succeeds (r : reply) (content : json) : Prop :=
  post_outcome r = Ok content.

(** The attempt fails with an exception of the [except] clause of the loop. *)
Definition post_fails_transport (r : reply) : Prop :=
  exists e, post_outcome r = Raise e /\ request_loop_catches e = true.

(** The exceptions the [except] clause of lines 116-122 names, class by
    class: an instance of [RPCTimeoutError] (a class of the provider
    exceptions, which [get_error_from_response] builds), aiohttp's
    [ClientResponseError] (raised by [raise_for_status] on a status of 400 or
    more), [ClientConnectorError] and [ServerDisconnectedError], and the
    builtin [ConnectionError].  What a request raises when its timeout
    expires, [asyncio.TimeoutError], is none of them. *)
Inductive in_except_clause : exn -> Prop :=
| except_RPCTimeoutError cls body error_json :
    issubclass cls RPCTimeoutError = true ->
    in_except_clause (RpcError cls body error_json)
| except_ClientResponseError status : in_except_clause (ClientResponseError status)
| except_ClientConnectorError msg : in_except_clause (ClientConnectorError msg)
| except_ServerDisconnectedError msg : in_except_clause (ServerDisconnectedError msg)
| except_ConnectionError msg : in_except_clause (ConnectionError msg).

(** The attempt fails with one of these exceptions. *)
Definition post_fails_caught (r : reply) : Prop :=
  exists e, post_outcome r = Raise e /\ in_except_clause e.

(** The addresses POSTed to, in the order of the trace. *)
Fixpoint post_requests (tr : list event) : list string :=
  match tr with
  | [] => []
  | HttpPost rpc_addr _ _ :: tr' => rpc_addr :: post_requests tr'
  | _ :: tr' => post_requests tr'
  end.

(** The URLs of the GET requests, in the order of the trace. *)
Fixpoint get_requests (tr : list event) : list string :=
  match tr with
  | [] => []
  | HttpGet url _ :: tr' => url :: get_requests tr'
  | _ :: tr' => get_requests tr'
  end.

(** The events of consecutive failed attempts on [rpcs], the first of which
    reads the [k]-th reply: a POST, then the record of its error. *)
Fixpoint failed_attempts (j : json) (timeout : Z) (k : nat) (rpcs : list string) : list event :=
  match rpcs with
  | [] => []
  | rpc_addr :: rest =>
      HttpPost rpc_addr j timeout ::
      match post_outcome (post_reply net k) with
      | Raise e => [Logged (Rpc_error e)]
      | Ok _ => []
      end ++ failed_attempts j timeout (S k) rest
  end.

(** The world after the attempts on [rpcs] have all failed. *)
Definition after_failures (j : json) (timeout : Z) (rpcs : list string) (w : world) : world :=
  {| self := self w; gets := gets w; posts := posts w + length rpcs; ticks := ticks w;
     trace := trace w ++ failed_attempts j timeout (posts w) rpcs |}.

Lemma post_requests_app tr1 tr2 :
  post_requests (tr1 ++ tr2) = post_requests tr1 ++ post_requests tr2.
Proof.
  induction tr1 as [ | ev tr1 IH ]; simpl; [reflexivity|].
  destruct ev; simpl; rewrite IH; reflexivity.
Qed.

Lemma get_requests_app tr1 tr2 :
  get_requests (tr1 ++ tr2) = get_requests tr1 ++ get_requests tr2.
Proof.
  induction tr1 as [ | ev tr1 IH ]; simpl; [reflexivity|].
  destruct ev; simpl; rewrite IH; reflexivity.
Qed.

Lemma post_requests_failed_attempts j timeout k rpcs :
  post_requests (failed_attempts j timeout k rpcs) = rpcs.
Proof.
  revert k. induction rpcs as [ | a rest IH ]; intros k; simpl; [reflexivity|].
  rewrite post_requests_app, IH.
  destruct (post_outcome (post_reply net k)); reflexivity.
Qed.

Lemma get_requests_failed_attempts j timeout k rpcs :
  get_requests (failed_attempts j timeout k rpcs) = [].
Proof.
  revert k. induction rpcs as [ | a rest IH ]; intros k; simpl; [reflexivity|].
  rewrite get_requests_app, IH.
  destruct (post_outcome (post_reply net k)); reflexivity.
Qed.

(** One attempt: the POST is recorded, the reply consumed. *)
Lemma post_try_run rpc_addr j timeout w :
  post_try rpc_addr j timeout w =
  (post_outcome (post_reply net (posts w)),
   {| self := self w; gets := gets w; posts := S (posts w); ticks := ticks w;
      trace := trace w ++ [HttpPost rpc_addr j timeout] |}).
Proof.
  unfold post_try, post_outcome, mbind, M_bind, session_post.
  destruct (post_reply net (posts w)) as [e | r]; [reflexivity|].
  unfold raise_for_status. destruct (400 <=? status r)%Z; reflexivity.
Qed.

Lemma request_loop_cons rpc_addr rest j timeout w :
  request_loop (rpc_addr :: rest) j timeout w =
  let w1 := {| self := self w; gets := gets w; posts := S (posts w); ticks := ticks w;
               trace := trace w ++ [HttpPost rpc_addr j timeout] |} in
  match post_outcome (post_reply net (posts w)) with
  | Ok content => (Ok content, w1)
  | Raise e =>
      if request_loop_catches e then
        request_loop rest j timeout (with_event (Logged (Rpc_error e)) w1)
      else (Raise e, w1)
  end.
Proof.
  simpl. unfold mbind at 1. unfold M_bind at 1. unfold try_.
  rewrite post_try_run.
  destruct (post_outcome (post_reply net (posts w))) as [content | e]; [reflexivity|].
  destruct (request_loop_catches e); reflexivity.
Qed.

(** The loop catches the exceptions of its [except] clause and no other. *)
Lemma in_except_clause_catches e : in_except_clause e <-> request_loop_catches e = true.
Proof.
  split.
  - intros [cls body error_json Hsub | status | msg | msg | msg]; cbn; [exact Hsub | reflexivity..].
  - destruct e as [msg | cls body error_json | status | msg | msg | msg | cls arg]; cbn;
      intros H; try discriminate H; constructor. exact H.
Qed.

Lemma post_fails_caught_transport r : post_fails_caught r <-> post_fails_transport r.
Proof.
  unfold post_fails_caught, post_fails_transport.
  split; intros (e & He & Hcatch); exists e; (split; [exact He|]);
    apply in_except_clause_catches; exact Hcatch.
Qed.

(** While the attempts fail with a caught exception the loop logs the error
    and goes on with the next address. *)
Lemma request_loop_failures failed rest j timeout w :
  (forall i, i < length failed -> post_fails_transport (post_reply net (posts w + i))) ->
  request_loop (failed ++ rest) j timeout w =
  request_loop rest j timeout (after_failures j timeout failed w).
Proof.
  revert w. induction failed as [ | a failed IH ]; intros w Hfail.
  - simpl. f_equal. unfold after_failures. destruct w; simpl.
    rewrite Nat.add_0_r, app_nil_r. reflexivity.
  - change ((a :: failed) ++ rest) with (a :: (failed ++ rest)).
    rewrite request_loop_cons. cbv zeta.
    destruct (Hfail 0 ltac:(simpl; lia)) as (e & He & Hcatch).
    rewrite Nat.add_0_r in He. rewrite He, Hcatch.
    rewrite IH.
    + f_equal. unfold after_failures, with_event. simpl. rewrite He.
      f_equal; [lia|]. rewrite <- !app_assoc. reflexivity.
    + intros i Hi. unfold with_event. cbn [posts].
      replace (S (posts w) + i) with (posts w + S i) by lia.
      apply Hfail. simpl. lia.
Qed.

End RequestLoop.

(** ** The refresh of the available endpoints *)

Section Refresh.

Local Open Scope nat_scope.

Variable net : network.
Variable TIMEOUT_WAIT_RPC : Z.

Local Notation probe := (probe net TIMEOUT_WAIT_RPC).
Local Notation probe_all := (probe_all net TIMEOUT_WAIT_RPC).
Local Notation check_available_rpcs := (check_available_rpcs net TIMEOUT_WAIT_RPC).

(** [data["sync_info"]["syncing"]]. *)
Definition syncing_of (data : json) : result json :=
  sync_info ← getitem data "sync_info";
  getitem sync_info "syncing".

(** The probe is accepted, in the words of the specification: the status is
    200 and the decoded body reports [sync_info.syncing] false. *)
Definition accepted (r : reply) : bool :=
  match r with
  | Raises _ => false
  | Responds r =>
      (status r =? 200)%Z &&
      match body r ≫= syncing_of with
      | Ok syncing => negb (truthy syncing)
      | Raise _ => false
      end
  end.

(** The record a rejected probe may leave in the log: the exception of a
    probe that raised, the status of a response other than 200, or the
    address of a node that is still syncing. *)
Definition rejection (rpc_addr : string) (r : reply) : option log_record :=
  match r with
  | Raises e => Some (Remove_rpc e)
  | Responds r =>
      if (status r =? 200)%Z then
        match body r ≫= syncing_of with
        | Raise e => Some (Remove_rpc e)
        | Ok syncing =>
            if truthy syncing then Some (Remove_async_RPC rpc_addr) else None
        end
      else Some (Remove_rpc_because_of_error (status r) rpc_addr)
  end.

(** What a rejected probe writes: its record when the address is in the
    list [available] the provider holds at that moment, nothing otherwise. *)
Definition removal_log (available : list string) (rpc_addr : string) (r : reply) : list event :=
  match rejection rpc_addr r with
  | Some record => if bool_decide (rpc_addr ∈ available) then [Logged record] else []
  | None => []
  end.

Definition status_url (rpc_addr : string) : string := (rpc_addr ++ "/status")%string.

(** The pairs of the accepted candidates of [addrs], in the order of the
    probes: the first probe reads the [g]-th reply and the [t]-th clock. *)
Fixpoint measured (g t : nat) (addrs : list string) : list (string * Q) :=
  match addrs with
  | [] => []
  | rpc_addr :: rest =>
      if accepted (get_reply net g) then
        (rpc_addr, (clock net (S t) - clock net t)%Q) :: measured (S g) (S (S t)) rest
      else measured (S g) (S t) rest
  end.

(** The candidates of [addrs] whose probe is accepted. *)
Fixpoint accepted_candidates (g : nat) (addrs : list string) : list string :=
  match addrs with
  | [] => []
  | rpc_addr :: rest =>
      if accepted (get_reply net g) then rpc_addr :: accepted_candidates (S g) rest
      else accepted_candidates (S g) rest
  end.

(** The readings of the clock the probes of [addrs] take. *)
Fixpoint probe_ticks (g : nat) (addrs : list string) : nat :=
  match addrs with
  | [] => 0
  | _ :: rest => (if accepted (get_reply net g) then 2 else 1) + probe_ticks (S g) rest
  end.

(** The events of the probes of [addrs]. *)
Fixpoint probe_events (available : list string) (g : nat) (addrs : list string) : list event :=
  match addrs with
  | [] => []
  | rpc_addr :: rest =>
      HttpGet (status_url rpc_addr) TIMEOUT_WAIT_RPC ::
      removal_log available rpc_addr (get_reply net g) ++ probe_events available (S g) rest
  end.

(** The records of the trace. *)
Fixpoint logged (tr : list event) : list log_record :=
  match tr with
  | [] => []
  | Logged r :: tr' => r :: logged tr'
  | _ :: tr' => logged tr'
  end.

Lemma accepted_rejection rpc_addr r :
  accepted r = true <-> rejection rpc_addr r = None.
Proof.
  destruct r as [e | r]; simpl; [split; discriminate|].
  destruct (status r =? 200)%Z; simpl; [|split; discriminate].
  destruct (body r ≫= syncing_of) as [syncing | e]; [|split; discriminate].
  destruct (truthy syncing); simpl; split; congruence.
Qed.

(** One iteration of the loop never raises; it appends a pair exactly when
    the probe is accepted. *)
Lemma probe_run rpc_addr available_rpcs w :
  probe rpc_addr available_rpcs w =
  if accepted (get_reply net (gets w)) then
    (Ok (available_rpcs ++ [(rpc_addr, (clock net (S (ticks w)) - clock net (ticks w))%Q)]),
     {| self := self w; gets := S (gets w); posts := posts w; ticks := S (S (ticks w));
        trace := trace w ++ [HttpGet (status_url rpc_addr) TIMEOUT_WAIT_RPC] |})
  else
    (Ok available_rpcs,
     {| self := self w; gets := S (gets w); posts := posts w; ticks := S (ticks w);
        trace := trace w ++ HttpGet (status_url rpc_addr) TIMEOUT_WAIT_RPC ::
                 removal_log (_available_rpcs (self w)) rpc_addr (get_reply net (gets w)) |}).
Proof.
  unfold probe, probe_try, removal_log, accepted, rejection, syncing_of.
  destruct (get_reply net (gets w)) as [e | r] eqn:Hreply.
  - run_M. rewrite Hreply. run_M.
    destruct (bool_decide (rpc_addr ∈ _available_rpcs (self w))); run_M;
      rewrite <- ?app_assoc; reflexivity.
  - run_M. rewrite Hreply. run_M.
    destruct (status r =? 200)%Z eqn:Hstatus; run_M.
    + destruct (body r) as [data | e]; run_M.
      * destruct (getitem data "sync_info") as [sync_info | e]; run_M.
        -- destruct (getitem sync_info "syncing") as [syncing | e]; run_M.
           ++ destruct (truthy syncing); run_M; [|reflexivity].
              rewrite ?Hstatus.
              destruct (bool_decide (rpc_addr ∈ _available_rpcs (self w))); run_M;
                rewrite <- ?app_assoc; reflexivity.
           ++ destruct (bool_decide (rpc_addr ∈ _available_rpcs (self w))); run_M;
                rewrite <- ?app_assoc; reflexivity.
        -- destruct (bool_decide (rpc_addr ∈ _available_rpcs (self w))); run_M;
             rewrite <- ?app_assoc; reflexivity.
      * destruct (bool_decide (rpc_addr ∈ _available_rpcs (self w))); run_M;
          rewrite <- ?app_assoc; reflexivity.
    + rewrite ?Hstatus.
      destruct (bool_decide (rpc_addr ∈ _available_rpcs (self w))); run_M;
        rewrite <- ?app_assoc; reflexivity.
Qed.

Lemma probe_all_run addrs available_rpcs w :
  probe_all addrs available_rpcs w =
  (Ok (available_rpcs ++ measured (gets w) (ticks w) addrs),
   {| self := self w; gets := gets w + length addrs; posts := posts w;
      ticks := ticks w + probe_ticks (gets w) addrs;
      trace := trace w ++ probe_events (_available_rpcs (self w)) (gets w) addrs |}).
Proof.
  revert available_rpcs w.
  induction addrs as [ | rpc_addr rest IH ]; intros available_rpcs w.
  - destruct w. simpl. unfold mret, M_ret. rewrite !app_nil_r, !Nat.add_0_r. reflexivity.
  - cbn [probe_all measured probe_ticks probe_events length].
    unfold mbind, M_bind. rewrite probe_run.
    destruct (accepted (get_reply net (gets w))) eqn:Hacc; rewrite IH;
      cbn [self gets posts ticks trace].
    + unfold removal_log.
      rewrite (proj1 (accepted_rejection rpc_addr _) Hacc).
      rewrite <- !app_assoc. f_equal; try reflexivity.
      f_equal; first [lia | reflexivity].
    + rewrite <- !app_assoc. f_equal; try reflexivity.
      f_equal; first [lia | reflexivity].
Qed.

(** The refresh never raises; it leaves the candidates and the cooldown
    stamp alone and assigns the ranking of the accepted candidates. *)
Lemma check_available_rpcs_run w :
  check_available_rpcs w =
  (Ok tt,
   {| self := {| _rpc_addresses := _rpc_addresses (self w);
                 _available_rpcs :=
                   ranked (measured (gets w) (ticks w) (_rpc_addresses (self w)));
                 _last_rpc_addr_check := _last_rpc_addr_check (self w) |};
      gets := gets w + length (_rpc_addresses (self w)); posts := posts w;
      ticks := ticks w + probe_ticks (gets w) (_rpc_addresses (self w));
      trace := trace w ++
               probe_events (_available_rpcs (self w)) (gets w) (_rpc_addresses (self w)) |}).
Proof.
  unfold check_available_rpcs.
  unfold mbind, M_bind, get_self. rewrite probe_all_run.
  unfold set_available_rpcs, with_self. reflexivity.
Qed.




Lemma post_requests_probe_events available g addrs :
  post_requests (probe_events available g addrs) = [].
Proof.
  revert g. induction addrs as [ | a rest IH ]; intros g; simpl; [reflexivity|].
  rewrite post_requests_app, IH, app_nil_r. unfold removal_log.
  destruct (rejection a (get_reply net g)); [|reflexivity].
  destruct (bool_decide (a ∈ available)); reflexivity.
Qed.

Lemma get_requests_probe_events available g addrs :
  get_requests (probe_events available g addrs) = status_url <$> addrs.
Proof.
  revert g. induction addrs as [ | a rest IH ]; intros g; simpl; [reflexivity|].
  rewrite get_requests_app, IH. f_equal. unfold removal_log.
  destruct (rejection a (get_reply net g)); [|reflexivity].
  destruct (bool_decide (a ∈ available)); reflexivity.
Qed.

Lemma measured_fst g t addrs :
  (measured g t addrs).*1 = accepted_candidates g addrs.
Proof.
  revert g t. induction addrs as [ | a rest IH ]; intros g t; simpl; [reflexivity|].
  destruct (accepted (get_reply net g)); simpl; rewrite IH; reflexivity.
Qed.

Lemma measured_latency g t addrs :
  Forall (fun entry => exists t', entry.2 = (clock net (S t') - clock net t')%Q)
    (measured g t addrs).
Proof.
  revert g t. induction addrs as [ | a rest IH ]; intros g t; simpl; [constructor|].
  destruct (accepted (get_reply net g)); [|apply IH].
  constructor; [exists t; reflexivity | apply IH].
Qed.


End Refresh.

(** ** The ranking *)

Section Ranking.

Context {A : Type} (key : A -> Q).

Lemma Qltb_lt (a b : Q) : Qltb a b = true <-> (a < b)%Q.
Proof.
  unfold Qltb. rewrite negb_true_iff. split; intros H.
  - destruct (Qlt_le_dec a b) as [Hlt | Hle]; [exact Hlt|].
    apply Qle_bool_iff in Hle. congruence.
  - destruct (Qle_bool b a) eqn:Hle; [|reflexivity].
    apply Qle_bool_iff in Hle. lra.
Qed.


Lemma insert_sorted_perm (x : A) (l : list A) : insert_sorted key x l ≡ₚ x :: l.
Proof.
  induction l as [ | y l IH ]; simpl; [reflexivity|].
  destruct (Qltb (key y) (key x)); [|reflexivity].
  rewrite IH. apply Permutation_swap.
Qed.

Lemma sorted_perm (l : list A) : sorted key l ≡ₚ l.
Proof.
  induction l as [ | x l IH ]; simpl; [reflexivity|].
  unfold sorted in IH. rewrite insert_sorted_perm, IH. reflexivity.
Qed.




End Ranking.

(** ** Claims on the refresh *)

Section RefreshClaims.

Local Open Scope nat_scope.

Variable net : network.
Variable TIMEOUT_WAIT_RPC : Z.

Local Notation check_available_rpcs := (check_available_rpcs net TIMEOUT_WAIT_RPC).


End RefreshClaims.

(** A provider that lost the endpoint ["A"] at an earlier refresh, and a
    network on which ["A"] refuses the connection again while ["B"] answers
    and is in sync. *)
Definition in_sync : reply :=
  Responds {| status := 200;
              body := Ok (JObj [("sync_info", JObj [("syncing", JBool false)])]) |}.

Definition net_A_down : network :=
  {| get_reply := fun n => match n with
                           | O => Raises (ClientConnectorError "connection refused")
                           | _ => in_sync
                           end;
     post_reply := fun _ => Raises (ClientConnectorError "connection refused");
     clock := fun n => inject_Z (Z.of_nat n) |}.



(** ** The freshness check and the dispatch *)

Section Dispatch.

Local Open Scope nat_scope.

Variable net : network.
Variable TIMEOUT_WAIT_RPC : Z.
Variable ERROR_CODE_TO_EXCEPTION : gmap string pyclass.
Variable issubclass : pyclass -> pyclass -> bool.

Local Notation check_available_rpcs := (check_available_rpcs net TIMEOUT_WAIT_RPC).
Local Notation freshness_check := (freshness_check net TIMEOUT_WAIT_RPC).
Local Notation request_loop := (request_loop net issubclass).
Local Notation call_rpc_request := (call_rpc_request net TIMEOUT_WAIT_RPC issubclass).
Local Notation json_rpc := (json_rpc net TIMEOUT_WAIT_RPC ERROR_CODE_TO_EXCEPTION issubclass).
Local Notation post_fails_transport := (post_fails_transport issubclass).
Local Notation in_except_clause := (in_except_clause issubclass).
Local Notation post_fails_caught := (post_fails_caught issubclass).

(** The world after a call that found the list fresh: one reading of the
    clock. *)
Definition ticked (w : world) : world :=
  {| self := self w; gets := gets w; posts := posts w; ticks := S (ticks w);
     trace := trace w |}.

(** The world after lines 96-100: two readings of the clock, the second one
    stored as the stamp, and the event [ev] (the task created, or the
    warning logged). *)
Definition stamped (ev : event) (w : world) : world :=
  {| self := {| _rpc_addresses := _rpc_addresses (self w);
                _available_rpcs := _available_rpcs (self w);
                _last_rpc_addr_check := clock net (S (ticks w)) |};
     gets := gets w; posts := posts w; ticks := S (S (ticks w));
     trace := trace w ++ [ev] |}.

Lemma freshness_check_run w :
  freshness_check w =
  if refresh_due (self w) (clock net (ticks w)) then
    if is_empty (_available_rpcs (self w)) then
      check_available_rpcs (stamped (Logged No_RPC_available_rechecking) w)
    else (Ok tt, stamped CreateTask_check_available_rpcs w)
  else (Ok tt, ticked w).
Proof.
  unfold freshness_check.
  unfold mbind at 1. unfold M_bind at 1. unfold now at 1.
  unfold mbind at 1. unfold M_bind at 1. unfold get_self at 1. cbn [self].
  destruct (refresh_due (self w) (clock net (ticks w))); [|reflexivity].
  destruct (is_empty (_available_rpcs (self w))) eqn:Hempty; cbn [negb]; run_M; reflexivity.
Qed.

(** The freshness check never raises, posts nothing, and leaves a list that
    is not empty as it is. *)
Lemma freshness_check_Ok w : (freshness_check w).1 = Ok tt.
Proof.
  rewrite freshness_check_run.
  destruct (refresh_due _ _); [|reflexivity].
  destruct (is_empty _); [|reflexivity].
  rewrite check_available_rpcs_run. reflexivity.
Qed.

Lemma freshness_check_posts w :
  posts (freshness_check w).2 = posts w /\
  post_requests (trace (freshness_check w).2) = post_requests (trace w).
Proof.
  rewrite freshness_check_run.
  destruct (refresh_due _ _); [|split; reflexivity].
  destruct (is_empty _).
  - rewrite check_available_rpcs_run. cbn. split; [reflexivity|].
    rewrite !post_requests_app, post_requests_probe_events. cbn.
    rewrite !app_nil_r. reflexivity.
  - cbn. split; [reflexivity|]. rewrite post_requests_app. cbn.
    rewrite app_nil_r. reflexivity.
Qed.

Lemma freshness_check_nonempty w :
  _available_rpcs (self w) <> [] ->
  _available_rpcs (self (freshness_check w).2) = _available_rpcs (self w).
Proof.
  intros Hne. rewrite freshness_check_run.
  destruct (refresh_due _ _); [|reflexivity].
  destruct (_available_rpcs (self w)) eqn:Hl; [congruence|]. cbn. exact Hl.
Qed.

Lemma call_rpc_request_run method params timeout w :
  call_rpc_request method params timeout w =
  let w1 := (freshness_check w).2 in
  if is_empty (_available_rpcs (self w1)) then
    (Raise (RpcNotAvailableError "No RPC available"), w1)
  else request_loop (_available_rpcs (self w1)) (envelope method params) timeout w1.
Proof.
  unfold call_rpc_request.
  unfold mbind at 1. unfold M_bind at 1.
  pose proof (freshness_check_Ok w) as Hok.
  destruct (freshness_check w) as [r w1]. cbn in Hok. subst r. cbn [snd].
  unfold mbind, M_bind, get_self.
  destruct (is_empty (_available_rpcs (self w1))); reflexivity.
Qed.

(** The loop only appends to the trace; what it appends holds no GET, and
    its POSTs go to a prefix of the list, in the order of the list. *)
Lemma request_loop_trace rpcs j timeout w :
  exists k tail,
    trace (request_loop rpcs j timeout w).2 = trace w ++ tail /\
    post_requests tail = take k rpcs /\
    get_requests tail = [].
Proof.
  revert w. induction rpcs as [ | a rest IH ]; intros w.
  - exists 0, []. cbn. rewrite app_nil_r. repeat split.
  - rewrite request_loop_cons. cbv zeta.
    destruct (post_outcome (post_reply net (posts w))) as [content | e].
    + exists 1, [HttpPost a j timeout]. cbn. rewrite take_0. repeat split.
    + destruct (request_loop_catches issubclass e).
      * match goal with |- context [request_loop rest j timeout ?w'] =>
          destruct (IH w') as (k & tail & Htrace & Hposts & Hgets) end.
        exists (S k), (HttpPost a j timeout :: Logged (Rpc_error e) :: tail).
        rewrite Htrace. cbn. rewrite <- !app_assoc, Hposts, Hgets. repeat split.
      * exists 1, [HttpPost a j timeout]. cbn. rewrite take_0. repeat split.
Qed.

Lemma request_loop_first_success failed rpc_addr rest j timeout content w :
  (forall i, i < length failed -> post_fails_transport (post_reply net (posts w + i))) ->
  post_succeeds (post_reply net (posts w + length failed)) content ->
  request_loop (failed ++ rpc_addr :: rest) j timeout w =
  (Ok content,
   {| self := self w; gets := gets w; posts := S (posts w + length failed); ticks := ticks w;
      trace := (trace w ++ failed_attempts net j timeout (posts w) failed) ++
               [HttpPost rpc_addr j timeout] |}).
Proof.
  intros Hfail Hok.
  rewrite request_loop_failures by exact Hfail.
  rewrite request_loop_cons. cbv zeta. cbn [after_failures posts self gets ticks trace].
  unfold post_succeeds in Hok. rewrite Hok. reflexivity.
Qed.

Lemma call_rpc_request_until_success method params timeout (w : world) n rpc_addr content :
  _available_rpcs (self w) !! n = Some rpc_addr ->
  (forall i, i < n -> post_fails_transport (post_reply net (posts w + i))) ->
  post_succeeds (post_reply net (posts w + n)) content ->
  let w1 := (freshness_check w).2 in
  let j := envelope method params in
  call_rpc_request method params timeout w =
  (Ok content,
   {| self := self w1; gets := gets w1; posts := S (posts w + n); ticks := ticks w1;
      trace := (trace w1 ++
                failed_attempts net j timeout (posts w) (take n (_available_rpcs (self w)))) ++
               [HttpPost rpc_addr j timeout] |}).
Proof.
  intros Ha Hfail Hok. cbv zeta.
  assert (Hne : _available_rpcs (self w) <> []).
  { intros Hnil. rewrite Hnil in Ha. discriminate Ha. }
  rewrite call_rpc_request_run. cbv zeta.
  pose proof (freshness_check_nonempty w Hne) as Havail.
  destruct (freshness_check_posts w) as [Hposts _].
  set (w1 := (freshness_check w).2) in *. rewrite Havail.
  assert (Hn : n < length (_available_rpcs (self w))) by (eapply lookup_lt_Some; exact Ha).
  assert (Hlen : length (take n (_available_rpcs (self w))) = n)
    by (rewrite length_take; lia).
  destruct (_available_rpcs (self w)) as [ | a0 rpcs0 ] eqn:Hrpcs; [congruence|].
  cbn [is_empty].
  rewrite <- (take_drop_middle _ _ _ Ha) at 1.
  rewrite request_loop_first_success with (content := content).
  - rewrite Hlen, Hposts. reflexivity.
  - rewrite Hlen, Hposts. exact Hfail.
  - rewrite Hlen, Hposts. exact Hok.
Qed.

(** An exception the loop does not catch leaves the loop, and the call, at
    once. *)
Lemma request_loop_uncaught failed rpc_addr rest j timeout e w :
  (forall i, i < length failed -> post_fails_transport (post_reply net (posts w + i))) ->
  post_outcome (post_reply net (posts w + length failed)) = Raise e ->
  request_loop_catches issubclass e = false ->
  request_loop (failed ++ rpc_addr :: rest) j timeout w =
  (Raise e,
   {| self := self w; gets := gets w; posts := S (posts w + length failed); ticks := ticks w;
      trace := (trace w ++ failed_attempts net j timeout (posts w) failed) ++
               [HttpPost rpc_addr j timeout] |}).
Proof.
  intros Hfail He Hcatch.
  rewrite request_loop_failures by exact Hfail.
  rewrite request_loop_cons. cbv zeta. cbn [after_failures posts self gets ticks trace].
  rewrite He, Hcatch. reflexivity.
Qed.

Lemma call_rpc_request_until_uncaught method params timeout (w : world) n rpc_addr e :
  _available_rpcs (self w) !! n = Some rpc_addr ->
  (forall i, i < n -> post_fails_transport (post_reply net (posts w + i))) ->
  post_outcome (post_reply net (posts w + n)) = Raise e ->
  request_loop_catches issubclass e = false ->
  let w1 := (freshness_check w).2 in
  let j := envelope method params in
  call_rpc_request method params timeout w =
  (Raise e,
   {| self := self w1; gets := gets w1; posts := S (posts w + n); ticks := ticks w1;
      trace := (trace w1 ++
                failed_attempts net j timeout (posts w) (take n (_available_rpcs (self w)))) ++
               [HttpPost rpc_addr j timeout] |}).
Proof.
  intros Ha Hfail He Hcatch. cbv zeta.
  assert (Hne : _available_rpcs (self w) <> []).
  { intros Hnil. rewrite Hnil in Ha. discriminate Ha. }
  rewrite call_rpc_request_run. cbv zeta.
  pose proof (freshness_check_nonempty w Hne) as Havail.
  destruct (freshness_check_posts w) as [Hposts _].
  set (w1 := (freshness_check w).2) in *. rewrite Havail.
  assert (Hn : n < length (_available_rpcs (self w))) by (eapply lookup_lt_Some; exact Ha).
  assert (Hlen : length (take n (_available_rpcs (self w))) = n)
    by (rewrite length_take; lia).
  destruct (_available_rpcs (self w)) as [ | a0 rpcs0 ] eqn:Hrpcs; [congruence|].
  cbn [is_empty].
  rewrite <- (take_drop_middle _ _ _ Ha) at 1.
  rewrite request_loop_uncaught with (e := e).
  - rewrite Hlen, Hposts. reflexivity.
  - rewrite Hlen, Hposts. exact Hfail.
  - rewrite Hlen, Hposts. exact He.
  - exact Hcatch.
Qed.

(** C1, amended.  A call that finds a list [rpcs] that is not empty POSTs
    to a prefix of [rpcs], in the order of the list.  When the attempts on the
    first [n] addresses fail with an exception the [except] clause names
    ([ClientResponseError], which a status of 400 or more raises,
    [ClientConnectorError], [ServerDisconnectedError], [ConnectionError], or
    an instance of [RPCTimeoutError]) and the attempt on the next address
    succeeds with [content], the call returns [content] and has POSTed to
    these [n + 1] addresses and to no other.  When the attempt on the next
    address raises any other exception instead, such as the
    [asyncio.TimeoutError] of a request whose timeout expired, the call
    raises that exception after these [n + 1] POSTs: the addresses left in the
    list are not tried. *)
Theorem call_rpc_request_first_success method params timeout (w : world) :
  _available_rpcs (self w) <> [] ->
  let rpcs := _available_rpcs (self w) in
  let out := call_rpc_request method params timeout w in
  (exists k, post_requests (trace out.2) = post_requests (trace w) ++ take k rpcs) /\
  (forall n content,
    n < length rpcs ->
    (forall i, i < n -> post_fails_caught (post_reply net (posts w + i))) ->
    post_succeeds (post_reply net (posts w + n)) content ->
    out.1 = Ok content /\
    post_requests (trace out.2) = post_requests (trace w) ++ take (S n) rpcs /\
    posts out.2 = posts w + S n) /\
  (forall n e,
    n < length rpcs ->
    (forall i, i < n -> post_fails_caught (post_reply net (posts w + i))) ->
    post_outcome (post_reply net (posts w + n)) = Raise e ->
    ~ in_except_clause e ->
    out.1 = Raise e /\
    post_requests (trace out.2) = post_requests (trace w) ++ take (S n) rpcs /\
    posts out.2 = posts w + S n).
Proof.
  intros Hne. cbv zeta.
  destruct (freshness_check_posts w) as [Hposts Hreqs].
  split; [|split].
  - rewrite call_rpc_request_run. cbv zeta.
    pose proof (freshness_check_nonempty w Hne) as Havail.
    set (w1 := (freshness_check w).2) in *. rewrite Havail.
    destruct (_available_rpcs (self w)) as [ | a0 rpcs0 ] eqn:Hrpcs; [congruence|].
    cbn [is_empty].
    destruct (request_loop_trace (a0 :: rpcs0) (envelope method params) timeout w1)
      as (k & tail & Htrace & Hp & _).
    exists k. rewrite Htrace, post_requests_app, Hreqs, Hp. reflexivity.
  - intros n content Hn Hfail Hok.
    destruct (lookup_lt_is_Some_2 _ n Hn) as [a Ha].
    rewrite (call_rpc_request_until_success method params timeout w n a content Ha)
      by (first [exact Hok | intros i Hi; apply post_fails_caught_transport, Hfail; exact Hi]).
    cbn [fst snd trace posts].
    split; [reflexivity|]. split; [|lia].
    rewrite !post_requests_app, post_requests_failed_attempts, Hreqs.
    cbn [post_requests]. rewrite <- app_assoc. f_equal.
    rewrite (take_S_r _ _ _ Ha). reflexivity.
  - intros n e Hn Hfail He Hnot.
    destruct (lookup_lt_is_Some_2 _ n Hn) as [a Ha].
    assert (Hcatch : request_loop_catches issubclass e = false).
    { destruct (request_loop_catches issubclass e) eqn:Hc; [|reflexivity].
      exfalso. apply Hnot, in_except_clause_catches. exact Hc. }
    rewrite (call_rpc_request_until_uncaught method params timeout w n a e Ha)
      by (first [exact He | exact Hcatch
                | intros i Hi; apply post_fails_caught_transport, Hfail; exact Hi]).
    cbn [fst snd trace posts].
    split; [reflexivity|]. split; [|lia].
    rewrite !post_requests_app, post_requests_failed_attempts, Hreqs.
    cbn [post_requests]. rewrite <- app_assoc. f_equal.
    rewrite (take_S_r _ _ _ Ha). reflexivity.
Qed.

(** A call that finds the list empty sends one GET per candidate, and no
    other. *)
Lemma call_rpc_request_empty_gets method params timeout (w : world) :
  _available_rpcs (self w) = [] ->
  get_requests (trace (call_rpc_request method params timeout w).2) =
  get_requests (trace w) ++ (status_url <$> _rpc_addresses (self w)).
Proof.
  intros Hempty. rewrite call_rpc_request_run. cbv zeta.
  rewrite freshness_check_run.
  unfold refresh_due. rewrite Hempty. cbn [is_empty]. rewrite orb_true_r.
  rewrite check_available_rpcs_run. cbn [snd self _available_rpcs].
  match goal with |- context [if is_empty ?l then _ else _] => destruct (is_empty l) end.
  - cbn. rewrite !get_requests_app, get_requests_probe_events. cbn.
    rewrite app_nil_r. reflexivity.
  - match goal with |- context [request_loop ?l ?j ?t ?w'] =>
      destruct (request_loop_trace l j t w') as (k & tail & Htrace & _ & Hgets) end.
    rewrite Htrace. cbn. rewrite !get_requests_app, get_requests_probe_events, Hgets. cbn.
    rewrite !app_nil_r. reflexivity.
Qed.

(** C3.  A call issued while the list is empty logs the warning and runs
    the refresh to its end first: the world [refreshed] the refresh leaves has
    one more GET per candidate and no more POST than the world of the call.
    The call then goes on from [refreshed]: everything it adds to the trace
    after the refresh holds no GET; and when the list is still empty the call
    raises [RpcNotAvailableError] in [refreshed] itself, with no POST sent. *)
Theorem call_rpc_request_empty_snapshot method params timeout (w : world) :
  _available_rpcs (self w) = [] ->
  let refreshed :=
    (check_available_rpcs (stamped (Logged No_RPC_available_rechecking) w)).2 in
  let out := call_rpc_request method params timeout w in
  get_requests (trace refreshed) =
    get_requests (trace w) ++ (status_url <$> _rpc_addresses (self w)) /\
  post_requests (trace refreshed) = post_requests (trace w) /\
  (exists tail, trace out.2 = trace refreshed ++ tail /\ get_requests tail = []) /\
  out = (if is_empty (_available_rpcs (self refreshed))
         then (Raise (RpcNotAvailableError "No RPC available"), refreshed)
         else request_loop (_available_rpcs (self refreshed))
                (envelope method params) timeout refreshed) /\
  (_available_rpcs (self refreshed) = [] ->
   out = (Raise (RpcNotAvailableError "No RPC available"), refreshed)).
Proof.
  intros Hempty. cbv zeta. rewrite call_rpc_request_run. cbv zeta.
  rewrite freshness_check_run.
  unfold refresh_due. rewrite Hempty. cbn [is_empty]. rewrite orb_true_r.
  set (refreshed := (check_available_rpcs (stamped (Logged No_RPC_available_rechecking) w)).2).
  assert (Hget : get_requests (trace refreshed) =
                 get_requests (trace w) ++ (status_url <$> _rpc_addresses (self w))).
  { unfold refreshed. rewrite check_available_rpcs_run. cbn.
    rewrite !get_requests_app, get_requests_probe_events. cbn.
    rewrite app_nil_r. reflexivity. }
  assert (Hpost : post_requests (trace refreshed) = post_requests (trace w)).
  { unfold refreshed. rewrite check_available_rpcs_run. cbn.
    rewrite !post_requests_app, post_requests_probe_events. cbn.
    rewrite !app_nil_r. reflexivity. }
  split; [exact Hget|]. split; [exact Hpost|]. split; [|split].
  - destruct (is_empty (_available_rpcs (self refreshed))).
    + exists []. cbn. rewrite app_nil_r. split; reflexivity.
    + destruct (request_loop_trace (_available_rpcs (self refreshed))
                  (envelope method params) timeout refreshed)
        as (k & tail & Htrace & _ & Hgets).
      exists tail. split; assumption.
  - reflexivity.
  - intros Hstill. rewrite Hstill. reflexivity.
Qed.

(** C4, amended.  The world after the freshness check is [w1] and its list
    [rpcs].  While the attempts fail with an exception the [except] clause
    names ([ClientResponseError], [ClientConnectorError],
    [ServerDisconnectedError], [ConnectionError] or an instance of
    [RPCTimeoutError]), each failure is logged and the loop goes on with the
    next address.  When every attempt fails that way, the call returns [None]
    after one POST and one error record per address, and [json_rpc] raises
    [RpcNotAvailableError].  An attempt that raises any other exception, such
    as the [asyncio.TimeoutError] of a request whose timeout expired, is not
    logged, and the exception leaves [json_rpc] as it is. *)
Theorem request_loop_transport_failures method params timeout (w : world) :
  let w1 := (freshness_check w).2 in
  let rpcs := _available_rpcs (self w1) in
  let j := envelope method params in
  (forall failed rest,
      rpcs = failed ++ rest ->
      (forall i, i < length failed -> post_fails_caught (post_reply net (posts w + i))) ->
      request_loop rpcs j timeout w1 =
      request_loop rest j timeout (after_failures net j timeout failed w1)) /\
  ((forall i, i < length rpcs -> post_fails_caught (post_reply net (posts w + i))) ->
   (rpcs <> [] ->
    call_rpc_request method params timeout w =
    (Ok JNull, after_failures net j timeout rpcs w1)) /\
   exists msg, (json_rpc method params timeout w).1 = Raise (RpcNotAvailableError msg)) /\
  (forall n rpc_addr e,
      rpcs !! n = Some rpc_addr ->
      (forall i, i < n -> post_fails_caught (post_reply net (posts w + i))) ->
      post_outcome (post_reply net (posts w + n)) = Raise e ->
      ~ in_except_clause e ->
      json_rpc method params timeout w =
      (Raise e,
       {| self := self w1; gets := gets w1; posts := S (posts w + n); ticks := ticks w1;
          trace := (trace w1 ++ failed_attempts net j timeout (posts w) (take n rpcs)) ++
                   [HttpPost rpc_addr j timeout] |})).
Proof.
  cbv zeta. destruct (freshness_check_posts w) as [Hposts _].
  set (w1 := (freshness_check w).2) in *.
  assert (Hloop : forall failed rest,
             (forall i, i < length failed ->
                        post_fails_caught (post_reply net (posts w + i))) ->
             request_loop (failed ++ rest) (envelope method params) timeout w1 =
             request_loop rest (envelope method params) timeout
               (after_failures net (envelope method params) timeout failed w1)).
  { intros failed rest Hfail. apply request_loop_failures.
    rewrite Hposts. intros i Hi. apply post_fails_caught_transport, Hfail. exact Hi. }
  split; [|split].
  - intros failed rest -> Hfail. apply Hloop. exact Hfail.
  - intros Hall.
    assert (Hcall : _available_rpcs (self w1) <> [] ->
                    call_rpc_request method params timeout w =
                    (Ok JNull,
                     after_failures net (envelope method params) timeout
                       (_available_rpcs (self w1)) w1)).
    { intros Hne. rewrite call_rpc_request_run. cbv zeta. fold w1.
      destruct (_available_rpcs (self w1)) as [ | a rpcs ] eqn:Hrpcs; [congruence|].
      cbn [is_empty].
      rewrite <- (app_nil_r (a :: rpcs)) at 1.
      rewrite Hloop by exact Hall. reflexivity. }
    split; [exact Hcall|].
    unfold json_rpc. unfold mbind, M_bind.
    destruct (_available_rpcs (self w1)) as [ | a rpcs ] eqn:Hrpcs.
    + rewrite call_rpc_request_run. cbv zeta. fold w1. rewrite Hrpcs. cbn.
      eexists. reflexivity.
    + rewrite Hcall by discriminate. cbn. eexists. reflexivity.
  - intros n rpc_addr e Ha Hfail He Hnot.
    assert (Hcatch : request_loop_catches issubclass e = false).
    { destruct (request_loop_catches issubclass e) eqn:Hc; [|reflexivity].
      exfalso. apply Hnot, in_except_clause_catches. exact Hc. }
    assert (Hn : n < length (_available_rpcs (self w1))) by (eapply lookup_lt_Some; exact Ha).
    assert (Hlen : length (take n (_available_rpcs (self w1))) = n)
      by (rewrite length_take; lia).
    unfold json_rpc. unfold mbind, M_bind.
    rewrite call_rpc_request_run. cbv zeta. fold w1.
    destruct (_available_rpcs (self w1)) as [ | a0 rpcs0 ] eqn:Hrpcs; [discriminate Ha|].
    cbn [is_empty].
    rewrite <- (take_drop_middle _ _ _ Ha) at 1.
    rewrite request_loop_uncaught with (e := e).
    + rewrite Hlen, Hposts. reflexivity.
    + rewrite Hlen, Hposts. intros i Hi. apply post_fails_caught_transport, Hfail. exact Hi.
    + rewrite Hlen, Hposts. exact He.
    + exact Hcatch.
Qed.

(** C10.  When the value [call_rpc_request] returns is false ([None], or an
    empty body such as the object with no entries), [json_rpc] raises
    [RpcNotAvailableError]; so it does when an endpoint answers with a
    successful status and the empty JSON object.  [json_rpc] returns a value
    only when the body is a mapping that is not empty and has no ["error"]
    entry, and the value is its ["result"] entry. *)
Theorem json_rpc_content_guard method params timeout (w : world) :
  let call := call_rpc_request method params timeout w in
  let out := json_rpc method params timeout w in
  (forall content,
      call.1 = Ok content -> truthy content = false ->
      out = (Raise (RpcNotAvailableError "RPC not available"), call.2)) /\
  (_available_rpcs (self w) <> [] ->
   forall n,
     n < length (_available_rpcs (self w)) ->
     (forall i, i < n -> post_fails_transport (post_reply net (posts w + i))) ->
     post_reply net (posts w + n) = Responds {| status := 200; body := Ok (JObj []) |} ->
     out.1 = Raise (RpcNotAvailableError "RPC not available")) /\
  (forall v,
      out.1 = Ok v ->
      exists items,
        call.1 = Ok (JObj items) /\ items <> [] /\
        dict_get items "error" = None /\ dict_get items "result" = Some v).
Proof.
  cbv zeta. unfold json_rpc. unfold mbind, M_bind.
  split; [|split].
  - intros content Hcall Hfalse.
    destruct (call_rpc_request method params timeout w) as [r w1].
    cbn in Hcall. subst r. cbn [snd]. unfold lift, json_rpc_result.
    rewrite Hfalse. reflexivity.
  - intros Hne n Hn Hfail Hreply.
    destruct (lookup_lt_is_Some_2 _ n Hn) as [a Ha].
    rewrite (call_rpc_request_until_success method params timeout w n a (JObj []) Ha Hfail)
      by (unfold post_succeeds; rewrite Hreply; reflexivity).
    reflexivity.
  - intros v Hout.
    destruct (call_rpc_request method params timeout w) as [[content | e] w1];
      cbn in Hout |- *; [|discriminate Hout].
    unfold json_rpc_result in Hout.
    destruct (truthy content) eqn:Htruthy; cbn in Hout; [|discriminate Hout].
    unfold get_error_from_response in Hout.
    destruct content as [ | b | z | f | s | elems | items ];
      try discriminate Hout.
    + cbn in Hout. destruct (is_substring "error" s); cbn in Hout; discriminate Hout.
    + cbn in Hout. destruct (existsb (is_str "error") elems); cbn in Hout;
        discriminate Hout.
    + exists items. split; [reflexivity|].
      split; [destruct items; [discriminate Htruthy | discriminate]|].
      cbn in Hout. destruct (dict_get items "error") as [err|] eqn:Herr.
      * exfalso. rewrite bool_decide_eq_true_2 in Hout by eauto.
        cbn in Hout.
        destruct (get_method err "cause" (JObj [])) as [cause|]; cbn in Hout;
          [|discriminate Hout].
        destruct (get_method cause "name" (JStr "")) as [code|]; cbn in Hout;
          [|discriminate Hout].
        destruct (getitem err "data") as [data|]; cbn in Hout; [|discriminate Hout].
        destruct (provider_class code) as [cls|]; cbn in Hout; discriminate Hout.
      * split; [reflexivity|].
        rewrite bool_decide_eq_false_2 in Hout by (intros [? ?]; discriminate).
        cbn in Hout. destruct (dict_get items "result"); congruence.
Qed.

End Dispatch.

(** ** Broadcast with the polling fallback *)

Section SendTxAndWait.

Local Open Scope nat_scope.

Variable net : network.
Variable TIMEOUT_WAIT_RPC : Z.
Variable ERROR_CODE_TO_EXCEPTION : gmap string pyclass.
Variable issubclass : pyclass -> pyclass -> bool.
Variable TransactionResult : Type.
Variable TransactionResult_init : json -> result TransactionResult.

Local Notation json_rpc := (json_rpc net TIMEOUT_WAIT_RPC ERROR_CODE_TO_EXCEPTION issubclass).
Local Notation get_tx :=
  (get_tx net TIMEOUT_WAIT_RPC ERROR_CODE_TO_EXCEPTION issubclass TransactionResult
     TransactionResult_init).
Local Notation poll :=
  (poll net TIMEOUT_WAIT_RPC ERROR_CODE_TO_EXCEPTION issubclass TransactionResult
     TransactionResult_init).
Local Notation send_tx_and_wait :=
  (send_tx_and_wait net TIMEOUT_WAIT_RPC ERROR_CODE_TO_EXCEPTION issubclass
     TransactionResult TransactionResult_init).
Local Notation isinstance := (isinstance issubclass).

(** [polls_fail h r k w w']: from [w], [k] polls in a row sleep 3 seconds,
    call [get_tx h r] and see it raise, whatever the exception; they leave
    [w']. *)
Inductive polls_fail (trx_hash receiver_id : string) : nat -> world -> world -> Prop :=
| polls_fail_O w : polls_fail trx_hash receiver_id 0 w w
| polls_fail_S k w e w1 w2 :
    get_tx trx_hash receiver_id (with_event (Sleep 3) w) = (Raise e, w1) ->
    polls_fail trx_hash receiver_id k w1 w2 ->
    polls_fail trx_hash receiver_id (S k) w w2.

Lemma poll_S n trx_hash receiver_id w :
  poll (S n) trx_hash receiver_id w =
  match get_tx trx_hash receiver_id (with_event (Sleep 3) w) with
  | (Ok result, w1) => (Ok (Some result), w1)
  | (Raise e, w1) => poll n trx_hash receiver_id w1
  end.
Proof.
  cbn [poll]. unfold mbind at 1. unfold M_bind at 1. unfold emit at 1.
  unfold mbind at 1. unfold M_bind at 1. unfold try_ at 1.
  destruct (get_tx trx_hash receiver_id (with_event (Sleep 3) w)) as [[result | e] w1].
  - reflexivity.
  - destruct (isinstance e InternalError); reflexivity.
Qed.

Lemma poll_found trx_hash receiver_id k w w1 :
  polls_fail trx_hash receiver_id k w w1 ->
  forall n result w2,
    k < n ->
    get_tx trx_hash receiver_id (with_event (Sleep 3) w1) = (Ok result, w2) ->
    poll n trx_hash receiver_id w = (Ok (Some result), w2).
Proof.
  induction 1 as [ w | k w e w1 w2 Hraise Hfail IH ]; intros n result w3 Hk Hok.
  - destruct n as [ | n ]; [lia|]. rewrite poll_S, Hok. reflexivity.
  - destruct n as [ | n ]; [lia|]. rewrite poll_S, Hraise.
    apply IH; [lia | exact Hok].
Qed.

Lemma poll_exhausted trx_hash receiver_id n w w1 :
  polls_fail trx_hash receiver_id n w w1 ->
  poll n trx_hash receiver_id w = (Ok None, w1).
Proof.
  induction 1 as [ w | k w e w1 w2 Hraise Hfail IH ]; [reflexivity|].
  rewrite poll_S, Hraise. exact IH.
Qed.

(** The polls either fail [n] times in a row, or fail fewer times and then
    find a result. *)
Lemma polls_total trx_hash receiver_id n w :
  (exists w1, polls_fail trx_hash receiver_id n w w1) \/
  (exists k w1 result w2,
      k < n /\ polls_fail trx_hash receiver_id k w w1 /\
      get_tx trx_hash receiver_id (with_event (Sleep 3) w1) = (Ok result, w2)).
Proof.
  revert w. induction n as [ | n IH ]; intros w.
  - left. exists w. constructor.
  - destruct (get_tx trx_hash receiver_id (with_event (Sleep 3) w))
      as [[result | e] w1] eqn:Hget.
    + right. exists 0, w, result, w1. split; [lia|]. split; [constructor | exact Hget].
    + destruct (IH w1) as [(w2 & Hfail) | (k & w2 & result & w3 & Hk & Hfail & Hok)].
      * left. exists w2. econstructor; eassumption.
      * right. exists (S k), w2, result, w3. split; [lia|].
        split; [econstructor; eassumption | exact Hok].
Qed.

(** C6, amended.  The broadcast raised [e], an [RPCTimeoutError], in [w0],
    and both the hash and the receiver were supplied.  Then the coroutine
    polls at most [TIMEOUT_WAIT_RPC // 3] times, sleeping 3 seconds before
    each call of [get_tx]; every exception [get_tx] raises is swallowed, the
    [InternalError] classification and any other alike; the first poll that
    returns gives the value of the coroutine; and when every poll has failed
    the coroutine raises [e] itself.  One of the two cases always applies. *)
Theorem send_tx_and_wait_polls signed_tx timeout trx_hash receiver_id (w w0 : world) e :
  json_rpc "broadcast_tx_commit" (JArr [JStr signed_tx]) timeout w = (Raise e, w0) ->
  isinstance e RPCTimeoutError = true ->
  trx_hash <> "" -> receiver_id <> "" ->
  let out := send_tx_and_wait signed_tx timeout (Some trx_hash) (Some receiver_id) w in
  let n := Z.to_nat (TIMEOUT_WAIT_RPC / 3) in
  (forall k w1 result w2,
      k < n ->
      polls_fail trx_hash receiver_id k w0 w1 ->
      get_tx trx_hash receiver_id (with_event (Sleep 3) w1) = (Ok result, w2) ->
      out = (Ok (inr result), w2)) /\
  (forall w1, polls_fail trx_hash receiver_id n w0 w1 -> out = (Raise e, w1)) /\
  ((exists w1, polls_fail trx_hash receiver_id n w0 w1) \/
   (exists k w1 result w2,
       k < n /\ polls_fail trx_hash receiver_id k w0 w1 /\
       get_tx trx_hash receiver_id (with_event (Sleep 3) w1) = (Ok result, w2))).
Proof.
  intros Hbroadcast Htimeout Hhash Hreceiver. cbv zeta.
  assert (Hrun : send_tx_and_wait signed_tx timeout (Some trx_hash) (Some receiver_id) w =
                 match poll (Z.to_nat (TIMEOUT_WAIT_RPC / 3)) trx_hash receiver_id w0 with
                 | (Ok (Some result), w1) => (Ok (inr result), w1)
                 | (Ok None, w1) => (Raise e, w1)
                 | (Raise e', w1) => (Raise e', w1)
                 end).
  { unfold send_tx_and_wait.
    unfold mbind at 1. unfold M_bind at 1. unfold try_ at 1.
    rewrite Hbroadcast, Htimeout. unfold supplied.
    apply String.eqb_neq in Hhash, Hreceiver. rewrite Hhash, Hreceiver. cbn [negb andb].
    unfold mbind, M_bind, max_polls.
    change (default "" (Some trx_hash)) with trx_hash.
    change (default "" (Some receiver_id)) with receiver_id.
    destruct (poll _ trx_hash receiver_id w0) as [[[result | ] | e'] w1]; reflexivity. }
  rewrite Hrun. split; [|split].
  - intros k w1 result w2 Hk Hfail Hok.
    rewrite (poll_found _ _ _ _ _ Hfail _ _ _ Hk Hok). reflexivity.
  - intros w1 Hfail. rewrite (poll_exhausted _ _ _ _ _ Hfail). reflexivity.
  - apply polls_total.
Qed.

End SendTxAndWait.

(** ** The cooldown of the refresh *)

Section Cooldown.

Local Open Scope nat_scope.

Variable net : network.
Variable TIMEOUT_WAIT_RPC : Z.
Variable issubclass : pyclass -> pyclass -> bool.

Local Notation check_available_rpcs := (check_available_rpcs net TIMEOUT_WAIT_RPC).
Local Notation freshness_check := (freshness_check net TIMEOUT_WAIT_RPC).
Local Notation call_rpc_request := (call_rpc_request net TIMEOUT_WAIT_RPC issubclass).
Local Notation request_loop := (request_loop net issubclass).

(** What happens to a provider over time: a dispatch call, or the run of a
    refresh that is not awaited by a call (a task created earlier, or a call
    of [check_available_rpcs] by the user). *)
Inductive action : Type :=
| Dispatch (method : string) (params : json) (timeout : Z)
| BackgroundRefresh.

Definition step (a : action) (w : world) : world :=
  match a with
  | Dispatch method params timeout => (call_rpc_request method params timeout w).2
  | BackgroundRefresh => (check_available_rpcs w).2
  end.

(** The refreshes a trace starts from a dispatch call: a task created, or
    the warning that precedes the awaited refresh. *)
Fixpoint refreshes_started (tr : list event) : nat :=
  match tr with
  | [] => 0
  | CreateTask_check_available_rpcs :: tr' => S (refreshes_started tr')
  | Logged No_RPC_available_rechecking :: tr' => S (refreshes_started tr')
  | _ :: tr' => refreshes_started tr'
  end.

(** A refresh a dispatch call triggered: the stamp the call stored, and
    whether the call found the list empty. *)
Record trigger : Type := {
  stamp : Q;
  forced : bool
}.

(** The trigger of the call that led from [w] to [w'], if the call started a
    refresh. *)
Definition trigger_of (w w' : world) : option trigger :=
  if decide (refreshes_started (trace w') = refreshes_started (trace w)) then None
  else Some {| stamp := _last_rpc_addr_check (self w');
               forced := is_empty (_available_rpcs (self w)) |}.

(** The triggers of a run, in order. *)
Fixpoint triggers (acts : list action) (w : world) : list trigger :=
  match acts with
  | [] => []
  | a :: rest =>
      match a with
      | Dispatch _ _ _ => option_list (trigger_of w (step a w))
      | BackgroundRefresh => []
      end ++ triggers rest (step a w)
  end.

Definition initial_world (rpc_addr : rpc_addr_arg) : world :=
  {| self := JsonProvider_init rpc_addr; gets := 0; posts := 0; ticks := 0; trace := [] |}.

Lemma refreshes_started_app tr1 tr2 :
  refreshes_started (tr1 ++ tr2) = refreshes_started tr1 + refreshes_started tr2.
Proof.
  induction tr1 as [ | ev tr1 IH ]; [reflexivity|].
  destruct ev as [ | | r | | ]; cbn; try exact IH.
  - destruct r; cbn; rewrite ?IH; reflexivity.
  - rewrite IH. reflexivity.
Qed.

Lemma refreshes_started_probe_events available g addrs :
  refreshes_started (probe_events net TIMEOUT_WAIT_RPC available g addrs) = 0.
Proof.
  revert g. induction addrs as [ | a rest IH ]; intros g; [reflexivity|].
  cbn [probe_events refreshes_started]. rewrite refreshes_started_app, IH.
  unfold removal_log.
  destruct (get_reply net g) as [e | r]; cbn.
  - destruct (bool_decide (a ∈ available)); reflexivity.
  - destruct (status r =? 200)%Z.
    + destruct (body r ≫= syncing_of) as [syncing | e].
      * destruct (truthy syncing); [|reflexivity].
        destruct (bool_decide (a ∈ available)); reflexivity.
      * destruct (bool_decide (a ∈ available)); reflexivity.
    + destruct (bool_decide (a ∈ available)); reflexivity.
Qed.

Lemma request_loop_frame rpcs j timeout w :
  self (request_loop rpcs j timeout w).2 = self w /\
  ticks (request_loop rpcs j timeout w).2 = ticks w /\
  refreshes_started (trace (request_loop rpcs j timeout w).2) = refreshes_started (trace w).
Proof.
  revert w. induction rpcs as [ | a rest IH ]; intros w.
  - repeat split.
  - rewrite request_loop_cons. cbv zeta.
    destruct (post_outcome (post_reply net (posts w))) as [content | e].
    + cbn. rewrite refreshes_started_app. cbn. repeat split. lia.
    + destruct (request_loop_catches issubclass e).
      * match goal with |- context [request_loop rest j timeout ?w'] =>
          destruct (IH w') as (Hself & Hticks & Hstarted) end.
        rewrite Hself, Hticks, Hstarted. cbn.
        rewrite !refreshes_started_app. cbn. repeat split. lia.
      * cbn. rewrite refreshes_started_app. cbn. repeat split. lia.
Qed.

(** What one dispatch call does to the stamp, the clock and the count of
    refreshes started, by the three cases of the freshness check. *)
Lemma dispatch_step method params timeout w :
  let w' := step (Dispatch method params timeout) w in
  let t := clock net (ticks w) in
  if refresh_due (self w) t then
    _last_rpc_addr_check (self w') = clock net (S (ticks w)) /\
    S (S (ticks w)) <= ticks w' /\
    refreshes_started (trace w') = S (refreshes_started (trace w))
  else
    _last_rpc_addr_check (self w') = _last_rpc_addr_check (self w) /\
    ticks w' = S (ticks w) /\
    refreshes_started (trace w') = refreshes_started (trace w).
Proof.
  cbv zeta. unfold step. rewrite call_rpc_request_run. cbv zeta.
  rewrite freshness_check_run.
  destruct (refresh_due (self w) (clock net (ticks w))).
  - destruct (is_empty (_available_rpcs (self w))).
    + rewrite check_available_rpcs_run. cbn [snd self _available_rpcs].
      match goal with |- context [if is_empty ?l then _ else _] => destruct (is_empty l) end.
      * cbn. rewrite !refreshes_started_app, refreshes_started_probe_events. cbn.
        repeat split; lia.
      * match goal with |- context [request_loop ?l ?j ?t ?w'] =>
          destruct (request_loop_frame l j t w') as (Hself & Hticks & Hstarted) end.
        rewrite Hself, Hticks, Hstarted. cbn.
        rewrite !refreshes_started_app, refreshes_started_probe_events. cbn.
        repeat split; lia.
    + cbn [snd]. 
      match goal with |- context [if is_empty ?l then _ else _] => destruct (is_empty l) end.
      * cbn. rewrite refreshes_started_app. cbn. repeat split; lia.
      * match goal with |- context [request_loop ?l ?j ?t ?w'] =>
          destruct (request_loop_frame l j t w') as (Hself & Hticks & Hstarted) end.
        rewrite Hself, Hticks, Hstarted. cbn.
        rewrite refreshes_started_app. cbn. repeat split; lia.
  - cbn [snd].
    match goal with |- context [if is_empty ?l then _ else _] => destruct (is_empty l) end.
    + cbn. repeat split.
    + match goal with |- context [request_loop ?l ?j ?t ?w'] =>
        destruct (request_loop_frame l j t w') as (Hself & Hticks & Hstarted) end.
      rewrite Hself, Hticks, Hstarted. cbn. repeat split.
Qed.

Lemma refresh_step w :
  let w' := step BackgroundRefresh w in
  _last_rpc_addr_check (self w') = _last_rpc_addr_check (self w) /\
  ticks w <= ticks w'.
Proof.
  cbv zeta. unfold step. rewrite check_available_rpcs_run. cbn. split; [reflexivity | lia].
Qed.

Lemma trigger_of_dispatch method params timeout w :
  trigger_of w (step (Dispatch method params timeout) w) =
  if refresh_due (self w) (clock net (ticks w)) then
    Some {| stamp := clock net (S (ticks w)); forced := is_empty (_available_rpcs (self w)) |}
  else None.
Proof.
  pose proof (dispatch_step method params timeout w) as Hstep. cbv zeta in Hstep.
  unfold trigger_of.
  destruct (refresh_due (self w) (clock net (ticks w))).
  - destruct Hstep as (Hlast & _ & Hstarted). rewrite Hstarted, Hlast.
    destruct (decide _) as [Heq | _]; [lia | reflexivity].
  - destruct Hstep as (_ & _ & Hstarted). rewrite Hstarted.
    destruct (decide _) as [_ | Hne]; [reflexivity | congruence].
Qed.

(** The stamps in [earlier] are behind the stamp of the provider and behind
    every reading of the clock still to come. *)
Definition settled (earlier : list Q) (w : world) : Prop :=
  forall s, s ∈ earlier ->
    (s <= _last_rpc_addr_check (self w))%Q /\
    forall m, ticks w <= m -> (s <= clock net m)%Q.

(** Every trigger that was not forced by an empty list comes more than 30
    seconds after each stamp before it. *)
Fixpoint spaced (earlier : list Q) (ts : list trigger) : Prop :=
  match ts with
  | [] => True
  | t :: rest =>
      (forced t = false -> forall s, s ∈ earlier -> (s + 30 < stamp t)%Q) /\
      spaced (stamp t :: earlier) rest
  end.

Hypothesis clock_monotone : forall m n, m <= n -> (clock net m <= clock net n)%Q.

Lemma triggers_spaced acts :
  forall w earlier, settled earlier w -> spaced earlier (triggers acts w).
Proof.
  induction acts as [ | a acts IH ]; intros w earlier Hsettled; [exact I|].
  cbn [triggers]. destruct a as [method params timeout | ].
  - rewrite trigger_of_dispatch.
    pose proof (dispatch_step method params timeout w) as Hstep. cbv zeta in Hstep.
    destruct (refresh_due (self w) (clock net (ticks w))) eqn:Hdue.
    + destruct Hstep as (Hlast & Hticks & _). cbn [option_list app spaced stamp forced].
      split.
      * intros Hforced s Hs. unfold refresh_due in Hdue. cbn [forced] in Hforced.
        rewrite Hforced, orb_false_r in Hdue. apply Qltb_lt in Hdue.
        destruct (Hsettled s Hs) as [Hle _].
        pose proof (clock_monotone (ticks w) (S (ticks w)) ltac:(lia)).
        cbn [stamp]. lra.
      * apply IH. intros s Hs. rewrite Hlast. apply elem_of_cons in Hs as [-> | Hs].
        -- cbn [stamp]. split; [lra|]. intros m Hm. apply clock_monotone. lia.
        -- destruct (Hsettled s Hs) as [_ Hfuture].
           split; [apply Hfuture; lia|]. intros m Hm. apply Hfuture. lia.
    + destruct Hstep as (Hlast & Hticks & _). cbn [option_list app].
      apply IH. intros s Hs. rewrite Hlast.
      destruct (Hsettled s Hs) as [Hle Hfuture].
      split; [exact Hle|]. intros m Hm. apply Hfuture. lia.
  - cbn [app]. apply IH. intros s Hs.
    destruct (refresh_step w) as [Hlast Hticks]. rewrite Hlast.
    destruct (Hsettled s Hs) as [Hle Hfuture].
    split; [exact Hle|]. intros m Hm. apply Hfuture. lia.
Qed.

Lemma spaced_lookup ts :
  forall earlier, spaced earlier ts ->
  forall j tj, ts !! j = Some tj -> forced tj = false ->
    (forall s, s ∈ earlier -> (s + 30 < stamp tj)%Q) /\
    (forall i ti, i < j -> ts !! i = Some ti -> (stamp ti + 30 < stamp tj)%Q).
Proof.
  induction ts as [ | t ts IH ]; intros earlier Hspaced j tj Hj Hforced; [discriminate Hj|].
  destruct Hspaced as [Hhead Hrest]. destruct j as [ | j ].
  - injection Hj as ->. split; [apply Hhead; exact Hforced|]. intros i ti Hi. lia.
  - cbn in Hj. destruct (IH _ Hrest j tj Hj Hforced) as [Hearlier Hbefore]. split.
    + intros s Hs. apply Hearlier. apply elem_of_cons. right. exact Hs.
    + intros [ | i ] ti Hi Hti.
      * injection Hti as ->. apply Hearlier. apply elem_of_cons. left. reflexivity.
      * apply (Hbefore i ti); [lia | exact Hti].
Qed.

(** C7.  The readings of the clock never decrease.  Over any sequence of
    dispatch calls on a new provider, with refreshes running in between, a
    trigger that was not forced by an empty list stores a stamp more than 30
    seconds after the stamp of every earlier trigger.  A call triggers a
    refresh exactly when the stamp is more than 30 seconds old or the list is
    empty; and a call that finds the list empty triggers it whatever the
    stamp, and has probed every candidate by the time it ends. *)
Theorem refresh_cooldown (rpc_addr : rpc_addr_arg) (acts : list action) :
  let ts := triggers acts (initial_world rpc_addr) in
  (forall i j ti tj,
      i < j -> ts !! i = Some ti -> ts !! j = Some tj -> forced tj = false ->
      (stamp ti + 30 < stamp tj)%Q) /\
  (forall w method params timeout,
      trigger_of w (step (Dispatch method params timeout) w) =
      if Qltb (_last_rpc_addr_check (self w)) (clock net (ticks w) - 30) ||
         is_empty (_available_rpcs (self w))
      then Some {| stamp := clock net (S (ticks w));
                   forced := is_empty (_available_rpcs (self w)) |}
      else None) /\
  (forall w method params timeout,
      _available_rpcs (self w) = [] ->
      trigger_of w (step (Dispatch method params timeout) w) =
        Some {| stamp := clock net (S (ticks w)); forced := true |} /\
      get_requests (trace (step (Dispatch method params timeout) w)) =
        get_requests (trace w) ++ (status_url <$> _rpc_addresses (self w))).
Proof.
  cbv zeta. split; [|split].
  - intros i j ti tj Hij Hi Hj Hforced.
    assert (Hspaced : spaced [] (triggers acts (initial_world rpc_addr))).
    { apply triggers_spaced. intros s Hs. inversion Hs. }
    destruct (spaced_lookup _ _ Hspaced j tj Hj Hforced) as [_ Hbefore].
    apply (Hbefore i ti Hij Hi).
  - intros w method params timeout. apply trigger_of_dispatch.
  - intros w method params timeout Hempty. split.
    + rewrite trigger_of_dispatch. unfold refresh_due. rewrite Hempty. cbn [is_empty].
      rewrite orb_true_r. reflexivity.
    + unfold step. apply call_rpc_request_empty_gets. exact Hempty.
Qed.

End Cooldown.

(** * [models.py]: the logs of a transaction result *)

Module Models.

(** A list object is known by its identity; the store gives the lines each
    list object holds at the moment. *)
Definition ref : Type := positive.
Notation store := (gmap ref (list string)).

(** A [ReceiptOutcome]: the attribute [logs] is the list object found in the
    decoded response, the other attributes are kept as decoded. *)
Record ReceiptOutcome : Type := {
  logs : ref;
  metadata : json;
  receipt_ids : json;
  status : json;
  tokens_burnt : json;
  gas_burnt : json
}.

Section TransactionResult.

(** The class [TransactionData] of the attribute [transaction]. *)
Variable TransactionData : Type.

Record TransactionResult : Type := {
  receipt_outcome : list ReceiptOutcome;
  transaction_outcome : ReceiptOutcome;
  transaction_status : json;
  transaction : TransactionData
}.

(** The lines of a list object. *)
Definition lines (h : store) (l : ref) : list string := default [] (h !! l).

(** [l.extend(other)]: the lines of [other] are read, then appended to the
    list object [l] itself. *)
Definition extend (l other : ref) (h : store) : store :=
  <[l := lines h l ++ lines h other]> h.

(** The property [logs] of [TransactionResult], lines 285-290: the object
    it returns, and the store it leaves. *)
Definition TransactionResult_logs (self : TransactionResult) (h : store) : ref * store :=
  let logs := logs (transaction_outcome self) in
  (logs, foldl (fun h ro => extend logs (Models.logs ro) h) h (receipt_outcome self)).

(** What a reader of the property sees: the lines of the returned object. *)
Definition read_logs (self : TransactionResult) (h : store) : list string * store :=
  let (l, h') := TransactionResult_logs self h in (lines h' l, h').

(** The logs of the transaction outcome followed by the logs of the receipt
    outcomes, as the store [h] has them. *)
Definition all_logs (self : TransactionResult) (h : store) : list string :=
  lines h (logs (transaction_outcome self)) ++
  concat ((fun ro => lines h (logs ro)) <$> receipt_outcome self).

Lemma lines_extend_eq l other h : lines (extend l other h) l = lines h l ++ lines h other.
Proof. unfold lines, extend. rewrite lookup_insert_eq. reflexivity. Qed.

Lemma lines_extend_ne l other l' h : l <> l' -> lines (extend l other h) l' = lines h l'.
Proof. intros Hne. unfold lines, extend. rewrite lookup_insert_ne by exact Hne. reflexivity. Qed.

Lemma foldl_extend l ros h :
  Forall (fun ro => logs ro <> l) ros ->
  lines (foldl (fun h ro => extend l (logs ro) h) h ros) l =
    lines h l ++ concat ((fun ro => lines h (logs ro)) <$> ros) /\
  forall l', l' <> l ->
    lines (foldl (fun h ro => extend l (logs ro) h) h ros) l' = lines h l'.
Proof.
  revert h. induction ros as [ | ro ros IH ]; intros h Hfresh.
  - cbn. rewrite app_nil_r. split; reflexivity.
  - apply Forall_cons in Hfresh as [Hro Hfresh]. cbn [foldl fmap list_fmap concat].
    destruct (IH (extend l (logs ro) h) Hfresh) as [Hl Hother]. split.
    + rewrite Hl, lines_extend_eq, <- app_assoc. do 2 f_equal.
      f_equal. apply list_fmap_ext. intros i ro' Hi.
      apply lines_extend_ne.
      apply list_elem_of_lookup_2 in Hi.
      rewrite Forall_forall in Hfresh. intros Heq. apply (Hfresh ro' Hi). congruence.
    + intros l' Hne. rewrite Hother by exact Hne.
      apply lines_extend_ne. congruence.
Qed.

(** On a result whose receipt outcomes hold list objects other than the one
    of the transaction outcome (as in a decoded response), the first read
    returns the concatenation; but the lines are appended to the list object
    of the transaction outcome, so a second read returns the logs of the
    receipts twice. *)
Lemma read_logs_first (self : TransactionResult) (h : store) :
  Forall (fun ro => logs ro <> logs (transaction_outcome self)) (receipt_outcome self) ->
  (read_logs self h).1 = all_logs self h /\
  lines (read_logs self h).2 (logs (transaction_outcome self)) = all_logs self h.
Proof.
  intros Hfresh. unfold read_logs, TransactionResult_logs, all_logs. cbn [fst snd].
  destruct (foldl_extend _ _ h Hfresh) as [Hl _]. rewrite Hl. split; reflexivity.
Qed.

End TransactionResult.

(** A decoded result: the transaction outcome logged ["a"], its one receipt
    outcome logged ["b"]. *)
Definition outcome (l : ref) : ReceiptOutcome :=
  {| logs := l; metadata := JNull; receipt_ids := JArr []; status := JObj [];
     tokens_burnt := JStr "0"; gas_burnt := JInt 0 |}.

Definition tx_result : TransactionResult unit :=
  {| receipt_outcome := [outcome 2%positive]; transaction_outcome := outcome 1%positive;
     transaction_status := JObj []; transaction := tt |}.

Definition tx_store : store := <[1%positive := ["a"]]> (<[2%positive := ["b"]]> ∅).

(** C9 on the code.  The first read of [logs] returns ["a"; "b"] and leaves
    these two lines in [transaction_outcome.logs], which held ["a"] alone; the
    second read returns ["a"; "b"; "b"]. *)
Theorem logs_read_mutates_transaction_outcome :
  let first := read_logs unit tx_result tx_store in
  let second := read_logs unit tx_result first.2 in
  lines tx_store (logs (transaction_outcome unit tx_result)) = ["a"] /\
  first.1 = ["a"; "b"] /\
  lines first.2 (logs (transaction_outcome unit tx_result)) = ["a"; "b"] /\
  second.1 = ["a"; "b"; "b"] /\
  first.1 <> second.1.
Proof.
  cbv zeta. repeat split; try (vm_compute; reflexivity).
  vm_compute. discriminate.
Qed.

End Models.

(** * Coroutines interleaved

    The coroutines of one provider run on one event loop: a coroutine runs
    alone from one suspension point to the next, and the loop picks which
    coroutine goes on.  A segment below is what a coroutine does between
    two suspension points; the probes and the POST attempts are the
    suspension points of [check_available_rpcs] and [call_rpc_request]. *)

Section Interleaving.

Local Open Scope nat_scope.

Variable net : network.
Variable TIMEOUT_WAIT_RPC : Z.
Variable issubclass : pyclass -> pyclass -> bool.

(** A run of [check_available_rpcs]: in the loop, with the candidates still
    to probe and the local list [available_rpcs] under construction;
    returned; or left by an exception. *)
Inductive refresh_task : Type :=
| Probing (todo : list string) (available_rpcs : list (string * Q))
| Refreshed
| RefreshRaised (e : exn).

(** A run of [call_rpc_request]: called; awaiting its own refresh (line
    101); in the request loop, where [snapshot] is the list object the [for]
    statement iterates and [todo] what is left of it; or returned. *)
Inductive dispatch_task : Type :=
| Called (method : string) (params : json) (timeout : Z)
| Awaiting (method : string) (params : json) (timeout : Z) (r : refresh_task)
| Requesting (snapshot todo : list string) (j : json) (timeout : Z)
| Returned (r : result json).

Inductive task : Type :=
| RefreshTask (r : refresh_task)
| DispatchTask (d : dispatch_task).

(** One segment of a refresh: a probe, which touches the local list only;
    or, the loop over, the assignment of lines 87-89.  The last component is
    the list assigned to [_available_rpcs], if the segment assigns one. *)
Definition refresh_segment (r : refresh_task) (w : world)
  : option (refresh_task * world * option (list string)) :=
  match r with
  | Probing (rpc_addr :: todo) available_rpcs =>
      match probe net TIMEOUT_WAIT_RPC rpc_addr available_rpcs w with
      | (Ok available_rpcs', w') => Some (Probing todo available_rpcs', w', None)
      | (Raise e, w') => Some (RefreshRaised e, w', None)
      end
  | Probing [] available_rpcs =>
      Some (Refreshed, (set_available_rpcs (ranked available_rpcs) w).2,
            Some (ranked available_rpcs))
  | Refreshed => None
  | RefreshRaised _ => None
  end.

(** Lines 103-109: the guard, and the list object the loop will iterate. *)
Definition enter_loop (method : string) (params : json) (timeout : Z) (w : world)
  : dispatch_task :=
  if is_empty (_available_rpcs (self w)) then
    Returned (Raise (RpcNotAvailableError "No RPC available"))
  else Requesting (_available_rpcs (self w)) (_available_rpcs (self w))
         (envelope method params) timeout.

(** One segment of a dispatch call, with the tasks it creates and the list
    it assigns, if any. *)
Definition dispatch_segment (d : dispatch_task) (w : world)
  : option (dispatch_task * world * list task * option (list string)) :=
  match d with
  | Called method params timeout =>
      if refresh_due (self w) (clock net (ticks w)) then
        if is_empty (_available_rpcs (self w)) then
          Some (Awaiting method params timeout (Probing (_rpc_addresses (self w)) []),
                stamped net (Logged No_RPC_available_rechecking) w, [], None)
        else
          let w1 := stamped net CreateTask_check_available_rpcs w in
          Some (enter_loop method params timeout w1, w1,
                [RefreshTask (Probing (_rpc_addresses (self w)) [])], None)
      else
        Some (enter_loop method params timeout (ticked w), ticked w, [], None)
  | Awaiting method params timeout r =>
      match refresh_segment r w with
      | Some (Refreshed, w', assigned) =>
          Some (enter_loop method params timeout w', w', [], assigned)
      | Some (RefreshRaised e, w', assigned) => Some (Returned (Raise e), w', [], assigned)
      | Some (r', w', assigned) => Some (Awaiting method params timeout r', w', [], assigned)
      | None => None
      end
  | Requesting snapshot (rpc_addr :: todo) j timeout =>
      match post_try net rpc_addr j timeout w with
      | (Ok content, w') => Some (Returned (Ok content), w', [], None)
      | (Raise e, w') =>
          if request_loop_catches issubclass e then
            Some (Requesting snapshot todo j timeout,
                  with_event (Logged (Rpc_error e)) w', [], None)
          else Some (Returned (Raise e), w', [], None)
      end
  | Requesting snapshot [] j timeout => Some (Returned (Ok JNull), w, [], None)
  | Returned _ => None
  end.

Definition task_segment (t : task) (w : world)
  : option (task * world * list task * option (list string)) :=
  match t with
  | RefreshTask r =>
      match refresh_segment r w with
      | Some (r', w', assigned) => Some (RefreshTask r', w', [], assigned)
      | None => None
      end
  | DispatchTask d =>
      match dispatch_segment d w with
      | Some (d', w', created, assigned) => Some (DispatchTask d', w', created, assigned)
      | None => None
      end
  end.

(** The event loop: the world the coroutines share, the tasks, and the
    lists assigned to [_available_rpcs] so far, the latest first. *)
Record system : Type := {
  shared : world;
  pool : list task;
  assigned : list (list string)
}.

Inductive sys_step : system -> system -> Prop :=
| step_segment s i t t' w' created a :
    pool s !! i = Some t ->
    task_segment t (shared s) = Some (t', w', created, a) ->
    sys_step s {| shared := w'; pool := <[i := t']> (pool s) ++ created;
                  assigned := option_list a ++ assigned s |}
| step_call s method params timeout :
    sys_step s {| shared := shared s;
                  pool := pool s ++ [DispatchTask (Called method params timeout)];
                  assigned := assigned s |}
| step_check s :
    sys_step s {| shared := shared s;
                  pool := pool s ++
                          [RefreshTask (Probing (_rpc_addresses (self (shared s))) [])];
                  assigned := assigned s |}.

Definition boot (w0 : world) : system := {| shared := w0; pool := []; assigned := [] |}.

(** The scheduler as a function: the task at position [i] runs its next
    segment, if it has one. *)
Definition run_task (i : nat) (s : system) : system :=
  match pool s !! i with
  | Some t =>
      match task_segment t (shared s) with
      | Some (t', w', created, a) =>
          {| shared := w'; pool := <[i := t']> (pool s) ++ created;
             assigned := option_list a ++ assigned s |}
      | None => s
      end
  | None => s
  end.

Definition schedule (order : list nat) (s : system) : system :=
  foldl (fun s i => run_task i s) s order.

Lemma run_task_steps i s : rtc sys_step s (run_task i s).
Proof.
  unfold run_task. destruct (pool s !! i) as [t|] eqn:Hi; [|reflexivity].
  destruct (task_segment t (shared s)) as [[[[t' w'] created] a]|] eqn:Hseg; [|reflexivity].
  apply rtc_once. econstructor; eassumption.
Qed.

Lemma schedule_steps order s : rtc sys_step s (schedule order s).
Proof.
  revert s. induction order as [ | i order IH ]; intros s; [reflexivity|].
  cbn. etrans; [apply run_task_steps | apply IH].
Qed.

(** What a segment does to the attribute [_available_rpcs]: it holds the
    list the segment assigned, or is unchanged. *)
Lemma refresh_segment_available r w r' w' a :
  refresh_segment r w = Some (r', w', a) ->
  _available_rpcs (self w') = default (_available_rpcs (self w)) a /\
  (forall l, a = Some l ->
     exists available_rpcs, r = Probing [] available_rpcs /\ l = ranked available_rpcs).
Proof.
  destruct r as [[ | rpc_addr todo] available_rpcs | | e]; cbn; [| |discriminate|discriminate].
  - intros [= <- <- <-]. cbn. split; [reflexivity|].
    intros l [= <-]. eauto.
  - rewrite probe_run.
    destruct (accepted (get_reply net (gets w))); intros [= <- <- <-]; cbn;
      (split; [reflexivity | discriminate]).
Qed.

Lemma enter_loop_snapshot method params timeout w snapshot todo j timeout' :
  enter_loop method params timeout w = Requesting snapshot todo j timeout' ->
  snapshot = _available_rpcs (self w) /\ todo = snapshot.
Proof.
  unfold enter_loop. destruct (is_empty (_available_rpcs (self w))); [discriminate|].
  intros [= <- <- _ _]. split; reflexivity.
Qed.

Lemma dispatch_segment_available d w d' w' created a :
  dispatch_segment d w = Some (d', w', created, a) ->
  _available_rpcs (self w') = default (_available_rpcs (self w)) a /\
  (forall l, a = Some l ->
     exists method params timeout available_rpcs,
       d = Awaiting method params timeout (Probing [] available_rpcs) /\
       l = ranked available_rpcs) /\
  (forall t, t ∈ created -> exists r, t = RefreshTask r) /\
  (forall snapshot todo j timeout,
     d' = Requesting snapshot todo j timeout ->
     (snapshot = _available_rpcs (self w') /\ todo = snapshot) \/
     (exists rpc_addr, d = Requesting snapshot (rpc_addr :: todo) j timeout)).
Proof.
  destruct d as [ method params timeout | method params timeout r
                | snapshot [ | rpc_addr todo] j timeout | r ]; cbn; [| | | |discriminate].
  - destruct (refresh_due (self w) (clock net (ticks w))).
    + destruct (is_empty (_available_rpcs (self w))) eqn:Hempty.
      * intros [= <- <- <- <-]. cbn. split; [reflexivity|]. split; [discriminate|].
        split; [intros t Ht; inversion Ht | discriminate].
      * intros [= <- <- <- <-]. cbn. split; [reflexivity|]. split; [discriminate|]. split.
        -- intros t Ht. apply list_elem_of_singleton in Ht as ->. eauto.
        -- intros snapshot todo j timeout' Hloop. left.
           apply enter_loop_snapshot in Hloop. exact Hloop.
    + intros [= <- <- <- <-]. cbn. split; [reflexivity|]. split; [discriminate|]. split.
      * intros t Ht. inversion Ht.
      * intros snapshot todo j timeout' Hloop. left.
        apply enter_loop_snapshot in Hloop. exact Hloop.
  - destruct (refresh_segment r w) as [[[r' w''] a']|] eqn:Hseg; [|discriminate].
    destruct (refresh_segment_available _ _ _ _ _ Hseg) as [Havail Hassign].
    destruct r' as [todo available_rpcs | | e]; intros [= <- <- <- <-].
    + split; [exact Havail|]. split.
      * intros l ->. destruct (Hassign l eq_refl) as (acc & -> & ->). eauto 10.
      * split; [intros t Ht; inversion Ht | discriminate].
    + split; [exact Havail|]. split.
      * intros l ->. destruct (Hassign l eq_refl) as (acc & -> & ->). eauto 10.
      * split; [intros t Ht; inversion Ht|].
        intros snapshot todo j timeout' Hloop. left.
        apply enter_loop_snapshot in Hloop. exact Hloop.
    + split; [exact Havail|]. split.
      * intros l ->. destruct (Hassign l eq_refl) as (acc & -> & ->). eauto 10.
      * split; [intros t Ht; inversion Ht | discriminate].
  - intros [= <- <- <- <-]. cbn. split; [reflexivity|]. split; [discriminate|].
    split; [intros t Ht; inversion Ht | discriminate].
  - rewrite post_try_run.
    destruct (post_outcome (post_reply net (posts w))) as [content | e].
    + intros [= <- <- <- <-]. cbn. split; [reflexivity|]. split; [discriminate|].
      split; [intros t Ht; inversion Ht | discriminate].
    + destruct (request_loop_catches issubclass e); intros [= <- <- <- <-]; cbn;
        (split; [reflexivity|]); (split; [discriminate|]);
        (split; [intros t Ht; inversion Ht|]); [|discriminate].
      intros snapshot' todo' j' timeout' [= <- <- <- <-]. right. eauto.
Qed.

(** The lists [_available_rpcs] has held: the one of the initial world and
    the ones assigned since. *)
Definition whole_snapshots (w0 : world) (s : system) : list (list string) :=
  assigned s ++ [_available_rpcs (self w0)].

(** The attribute holds the latest whole snapshot, and every request loop
    iterates a whole snapshot, of which it has a suffix left. *)
Definition consistent (w0 : world) (s : system) : Prop :=
  head (whole_snapshots w0 s) = Some (_available_rpcs (self (shared s))) /\
  forall i snapshot todo j timeout,
    pool s !! i = Some (DispatchTask (Requesting snapshot todo j timeout)) ->
    snapshot ∈ whole_snapshots w0 s /\ todo `suffix_of` snapshot.

Lemma head_whole_snapshots w0 s a w' :
  head (whole_snapshots w0 s) = Some (_available_rpcs (self (shared s))) ->
  _available_rpcs (self w') = default (_available_rpcs (self (shared s))) a ->
  head (option_list a ++ whole_snapshots w0 s) = Some (_available_rpcs (self w')).
Proof.
  intros Hhead ->. destruct a as [l|]; cbn; [reflexivity | exact Hhead].
Qed.

Lemma consistent_step w0 s s' : consistent w0 s -> sys_step s s' -> consistent w0 s'.
Proof.
  intros [Hhead Htasks] Hstep.
  destruct Hstep as [ s i t t' w' created a Hi Hseg | s method params timeout | s ].
  - unfold consistent, whole_snapshots. cbn [shared pool assigned].
    assert (Hfacts :
      _available_rpcs (self w') = default (_available_rpcs (self (shared s))) a /\
      (forall t0, t0 ∈ created -> exists r, t0 = RefreshTask r) /\
      (forall snapshot todo j timeout,
         t' = DispatchTask (Requesting snapshot todo j timeout) ->
         (snapshot = _available_rpcs (self w') /\ todo = snapshot) \/
         (exists rpc_addr,
            t = DispatchTask (Requesting snapshot (rpc_addr :: todo) j timeout)))).
    { destruct t as [r | d]; cbn in Hseg.
      - destruct (refresh_segment r (shared s)) as [[[r' w''] a']|] eqn:Hr; [|discriminate].
        injection Hseg as <- <- <- <-.
        destruct (refresh_segment_available _ _ _ _ _ Hr) as [Havail _].
        split; [exact Havail|]. split; [intros t0 Ht0; inversion Ht0 | discriminate].
      - destruct (dispatch_segment d (shared s)) as [[[[d' w''] created'] a']|] eqn:Hd;
          [|discriminate].
        injection Hseg as <- <- <- <-.
        destruct (dispatch_segment_available _ _ _ _ _ _ Hd)
          as (Havail & _ & Hcreated & Hloop).
        split; [exact Havail|]. split; [exact Hcreated|].
        intros snapshot todo j timeout [= ->].
        destruct (Hloop _ _ _ _ eq_refl) as [Hnew | (rpc_addr & ->)]; [left | right]; eauto. }
    destruct Hfacts as (Havail & Hcreated & Hloop).
    rewrite <- app_assoc.
    pose proof (head_whole_snapshots w0 s a w' Hhead Havail) as Hhead'.
    split; [exact Hhead'|].
    intros k snapshot todo j timeout Hk.
    apply lookup_app_Some in Hk as [Hk | [_ Hk]].
    + destruct (decide (k = i)) as [-> | Hne].
      * apply list_lookup_insert_Some in Hk as [(_ & Heq & _) | (Hne & _)]; [|congruence].
        destruct (Hloop _ _ _ _ Heq) as [[-> ->] | (rpc_addr & ->)].
        -- split; [|reflexivity]. eapply head_Some_elem_of. exact Hhead'.
        -- destruct (Htasks _ _ _ _ _ Hi) as [Hin Hsuffix]. split.
           ++ apply elem_of_app. right. exact Hin.
           ++ etrans; [|exact Hsuffix]. apply suffix_cons_r. reflexivity.
      * rewrite list_lookup_insert_ne in Hk by congruence.
        destruct (Htasks _ _ _ _ _ Hk) as [Hin Hsuffix]. split; [|exact Hsuffix].
        apply elem_of_app. right. exact Hin.
    + apply list_elem_of_lookup_2 in Hk. destruct (Hcreated _ Hk) as [r Hr]. discriminate Hr.
  - split; [exact Hhead|]. cbn [pool]. intros k snapshot todo j timeout' Hk.
    apply lookup_app_Some in Hk as [Hk | [_ Hk]]; [exact (Htasks _ _ _ _ _ Hk)|].
    apply list_elem_of_lookup_2, list_elem_of_singleton in Hk. discriminate Hk.
  - split; [exact Hhead|]. cbn [pool]. intros k snapshot todo j timeout' Hk.
    apply lookup_app_Some in Hk as [Hk | [_ Hk]]; [exact (Htasks _ _ _ _ _ Hk)|].
    apply list_elem_of_lookup_2, list_elem_of_singleton in Hk. discriminate Hk.
Qed.

Lemma consistent_reachable w0 s : rtc sys_step (boot w0) s -> consistent w0 s.
Proof.
  intros Hrun.
  refine (rtc_ind_r (consistent w0) (boot w0) _ _ s Hrun).
  - split; [reflexivity|]. intros i snapshot todo j timeout Hi. discriminate Hi.
  - intros s1 s2 _ Hstep IH. eapply consistent_step; eassumption.
Qed.

(** C8.  In every state the coroutines of a provider can reach, whatever
    the interleaving: [_available_rpcs] holds the latest whole snapshot (the
    initial list, or the list a refresh assigned last); the list a request
    loop iterates is a whole snapshot, and the loop has a suffix of that same
    list left, whatever was assigned since; and a step assigns a list only
    from a refresh whose loop is over, the list being the ranking of its
    local list. *)
Theorem snapshot_replaced_atomically (w0 : world) (s : system) :
  rtc sys_step (boot w0) s ->
  head (whole_snapshots w0 s) = Some (_available_rpcs (self (shared s))) /\
  (forall i snapshot todo j timeout,
      pool s !! i = Some (DispatchTask (Requesting snapshot todo j timeout)) ->
      snapshot ∈ whole_snapshots w0 s /\ todo `suffix_of` snapshot) /\
  (forall s',
      sys_step s s' ->
      assigned s' = assigned s \/
      exists i available_rpcs,
        assigned s' = ranked available_rpcs :: assigned s /\
        _available_rpcs (self (shared s')) = ranked available_rpcs /\
        (pool s !! i = Some (RefreshTask (Probing [] available_rpcs)) \/
         exists method params timeout,
           pool s !! i =
           Some (DispatchTask (Awaiting method params timeout (Probing [] available_rpcs))))).
Proof.
  intros Hrun. destruct (consistent_reachable w0 s Hrun) as [Hhead Htasks].
  split; [exact Hhead|]. split; [exact Htasks|].
  intros s' Hstep.
  destruct Hstep as [ s i t t' w' created a Hi Hseg | s method params timeout | s ];
    [|left; reflexivity | left; reflexivity].
  destruct a as [l|]; [|left; reflexivity]. right. cbn [assigned shared option_list app].
  destruct t as [r | d]; cbn in Hseg.
  - destruct (refresh_segment r (shared s)) as [[[r' w''] a']|] eqn:Hr; [|discriminate].
    injection Hseg as <- <- <- ->.
    destruct (refresh_segment_available _ _ _ _ _ Hr) as [Havail Hassign].
    destruct (Hassign l eq_refl) as (acc & -> & ->).
    exists i, acc. split; [reflexivity|]. split; [exact Havail|]. left. exact Hi.
  - destruct (dispatch_segment d (shared s)) as [[[[d' w''] created'] a']|] eqn:Hd;
      [|discriminate].
    injection Hseg as <- <- <- ->.
    destruct (dispatch_segment_available _ _ _ _ _ _ Hd) as (Havail & Hassign & _).
    destruct (Hassign l eq_refl) as (method & params & timeout & acc & -> & ->).
    exists i, acc. split; [reflexivity|]. split; [exact Havail|]. right. eauto.
Qed.

(** A dispatch call whose segments run one after the other, with no
    other coroutine in between, is the coroutine [call_rpc_request]. *)
Fixpoint run_alone (fuel : nat) (d : dispatch_task) (w : world) : dispatch_task * world :=
  match fuel with
  | O => (d, w)
  | S fuel' =>
      match dispatch_segment d w with
      | Some (d', w', _, _) => run_alone fuel' d' w'
      | None => (d, w)
      end
  end.

Lemma run_alone_returned fuel r w : run_alone fuel (Returned r) w = (Returned r, w).
Proof. destruct fuel; reflexivity. Qed.

Lemma run_alone_loop snapshot todo j timeout :
  forall fuel w,
    length todo < fuel ->
    run_alone fuel (Requesting snapshot todo j timeout) w =
    (Returned (request_loop net issubclass todo j timeout w).1,
     (request_loop net issubclass todo j timeout w).2).
Proof.
  induction todo as [ | rpc_addr todo IH ]; intros fuel w Hfuel;
    (destruct fuel as [ | fuel ]; [cbn in Hfuel; lia|]).
  - cbn. apply run_alone_returned.
  - cbn [run_alone dispatch_segment]. rewrite request_loop_cons. cbv zeta.
    rewrite post_try_run.
    destruct (post_outcome (post_reply net (posts w))) as [content | e].
    + apply run_alone_returned.
    + destruct (request_loop_catches issubclass e).
      * apply IH. cbn in Hfuel. lia.
      * apply run_alone_returned.
Qed.

Lemma run_alone_enter_loop method params timeout w fuel :
  length (_available_rpcs (self w)) < fuel ->
  run_alone fuel (enter_loop method params timeout w) w =
  if is_empty (_available_rpcs (self w)) then
    (Returned (Raise (RpcNotAvailableError "No RPC available")), w)
  else
    (Returned (request_loop net issubclass (_available_rpcs (self w))
                 (envelope method params) timeout w).1,
     (request_loop net issubclass (_available_rpcs (self w))
        (envelope method params) timeout w).2).
Proof.
  intros Hfuel. unfold enter_loop.
  destruct (is_empty (_available_rpcs (self w))).
  - apply run_alone_returned.
  - apply run_alone_loop. exact Hfuel.
Qed.

Lemma run_alone_S fuel d w :
  run_alone (S fuel) d w =
  match dispatch_segment d w with
  | Some (d', w', _, _) => run_alone fuel d' w'
  | None => (d, w)
  end.
Proof. reflexivity. Qed.

Lemma probe_all_cons_bind {B : Type} rpc_addr todo available_rpcs
    (k : list (string * Q) -> M B) w :
  (probe_all net TIMEOUT_WAIT_RPC (rpc_addr :: todo) available_rpcs ≫= k) w =
  match probe net TIMEOUT_WAIT_RPC rpc_addr available_rpcs w with
  | (Ok available_rpcs', w') =>
      (probe_all net TIMEOUT_WAIT_RPC todo available_rpcs' ≫= k) w'
  | (Raise e, w') => (Raise e, w')
  end.
Proof.
  cbn [probe_all]. unfold mbind, M_bind.
  destruct (probe net TIMEOUT_WAIT_RPC rpc_addr available_rpcs w) as [[acc | e] w'];
    reflexivity.
Qed.

Lemma run_alone_await method params timeout todo :
  forall available_rpcs w fuel,
    run_alone (S (length todo) + fuel)
      (Awaiting method params timeout (Probing todo available_rpcs)) w =
    let w' := ((probe_all net TIMEOUT_WAIT_RPC todo available_rpcs ≫=
                fun l => set_available_rpcs (ranked l)) w).2 in
    run_alone fuel (enter_loop method params timeout w') w'.
Proof.
  induction todo as [ | rpc_addr todo IH ]; intros available_rpcs w fuel.
  - reflexivity.
  - change (S (length (rpc_addr :: todo)) + fuel) with (S (S (length todo) + fuel)).
    rewrite run_alone_S. cbn [dispatch_segment refresh_segment].
    rewrite probe_all_cons_bind.
    destruct (probe net TIMEOUT_WAIT_RPC rpc_addr available_rpcs w) as [[acc | e] w'] eqn:Hp.
    + apply IH.
    + rewrite probe_run in Hp. destruct (accepted (get_reply net (gets w))); discriminate Hp.
Qed.

Lemma run_alone_call method params timeout w :
  exists fuel,
    run_alone fuel (Called method params timeout) w =
    (Returned (call_rpc_request net TIMEOUT_WAIT_RPC issubclass method params timeout w).1,
     (call_rpc_request net TIMEOUT_WAIT_RPC issubclass method params timeout w).2).
Proof.
  rewrite call_rpc_request_run. cbv zeta. rewrite freshness_check_run.
  destruct (refresh_due (self w) (clock net (ticks w))) eqn:Hdue.
  - destruct (is_empty (_available_rpcs (self w))) eqn:Hempty.
    + set (w1 := stamped net (Logged No_RPC_available_rechecking) w).
      set (w2 := (check_available_rpcs net TIMEOUT_WAIT_RPC w1).2).
      exists (S (S (length (_rpc_addresses (self w))) + S (length (_available_rpcs (self w2))))).
      rewrite run_alone_S. cbn [dispatch_segment]. rewrite Hdue, Hempty.
      cbv beta iota. rewrite run_alone_await. cbv zeta.
      assert (Hw2 : ((probe_all net TIMEOUT_WAIT_RPC (_rpc_addresses (self w)) [] ≫=
                      fun l => set_available_rpcs (ranked l)) w1).2 = w2) by reflexivity.
      fold w1. rewrite Hw2.
      rewrite run_alone_enter_loop by lia.
      destruct (is_empty (_available_rpcs (self w2))); reflexivity.
    + set (w1 := stamped net CreateTask_check_available_rpcs w).
      exists (S (S (length (_available_rpcs (self w1))))).
      rewrite run_alone_S. cbn [dispatch_segment]. rewrite Hdue, Hempty.
      cbv beta iota zeta. fold w1. cbn [snd].
      rewrite run_alone_enter_loop by lia.
      destruct (is_empty (_available_rpcs (self w1))); reflexivity.
  - exists (S (S (length (_available_rpcs (self (ticked w)))))).
    rewrite run_alone_S. cbn [dispatch_segment]. rewrite Hdue. cbv beta iota. cbn [snd].
    rewrite run_alone_enter_loop by lia.
    destruct (is_empty (_available_rpcs (self (ticked w)))); reflexivity.
Qed.

End Interleaving.

(** * Scenarios *)

Local Open Scope nat_scope.

(** Classes compared by name. *)
Definition same_class : pyclass -> pyclass -> bool := String.eqb.

(** A provider with the ranked list ["C"; "B"] and a clock that stands
    still, so that no refresh is due. *)
Definition world_CB : world :=
  {| self := {| _rpc_addresses := ["A"; "B"; "C"];
                _available_rpcs := ["C"; "B"];
                _last_rpc_addr_check := 0%Q |};
     gets := 0; posts := 0; ticks := 0; trace := [] |}.

Definition answer (content : json) : reply :=
  Responds {| status := 200; body := Ok content |}.

(** The first POST meets a refused connection, the second one is answered. *)
Definition net_second_answers : network :=
  {| get_reply := fun _ => in_sync;
     post_reply := fun n => match n with
                            | O => Raises (ClientConnectorError "connection refused")
                            | _ => answer (JObj [("result", JStr "ok")])
                            end;
     clock := fun _ => 0%Q |}.

(** A provider with three endpoints, all of them in the list. *)
Definition world_ABC : world :=
  {| self := {| _rpc_addresses := ["A"; "B"; "C"];
                _available_rpcs := ["A"; "B"; "C"];
                _last_rpc_addr_check := 0%Q |};
     gets := 0; posts := 0; ticks := 0; trace := [] |}.

(** The first endpoint answers 503, the second one drops the connection,
    the third one answers. *)
Definition net_third_answers : network :=
  {| get_reply := fun _ => in_sync;
     post_reply := fun n => match n with
                            | O => Responds {| status := 503; body := Ok JNull |}
                            | S O => Raises (ServerDisconnectedError "Server disconnected")
                            | _ => answer (JObj [("result", JStr "ok")])
                            end;
     clock := fun _ => 0%Q |}.

Lemma call_rpc_request_first_success_witness :
  (call_rpc_request net_third_answers 10 same_class "query" JNull 10 world_ABC).1 =
    Ok (JObj [("result", JStr "ok")]) /\
  post_requests
    (trace (call_rpc_request net_third_answers 10 same_class "query" JNull 10 world_ABC).2) =
    ["A"; "B"; "C"].
Proof.
  assert (Hne : _available_rpcs (self world_ABC) <> []) by discriminate.
  destruct (call_rpc_request_first_success net_third_answers 10 same_class
              "query" JNull 10 world_ABC Hne) as (_ & Hsuccess & _).
  destruct (Hsuccess 2 (JObj [("result", JStr "ok")])) as (Hresult & Hposts & _).
  - cbn. lia.
  - intros i Hi. destruct i as [ | [ | i ] ]; [| |lia].
    + exists (ClientResponseError 503). split; [reflexivity | constructor].
    + exists (ServerDisconnectedError "Server disconnected").
      split; [reflexivity | constructor].
  - reflexivity.
  - split; [exact Hresult | exact Hposts].
Defined.

(** The request to the first endpoint runs into its timeout; the second
    endpoint would answer. *)
Definition request_timeout : exn := PyException "TimeoutError" "".

Definition net_first_times_out : network :=
  {| get_reply := fun _ => in_sync;
     post_reply := fun n => match n with
                            | O => Raises request_timeout
                            | _ => answer (JObj [("result", JStr "ok")])
                            end;
     clock := fun _ => 0%Q |}.

(** C1 as stated fails: the first endpoint fails with a timeout and the
    second one would succeed, yet the call raises the timeout error after its
    one POST and never asks the second endpoint. *)
Lemma call_rpc_request_timeout_ends_call :
  request_loop_catches same_class request_timeout = false /\
  post_succeeds (post_reply net_first_times_out 1) (JObj [("result", JStr "ok")]) /\
  (call_rpc_request net_first_times_out 10 same_class "query" JNull 10 world_ABC).1 =
    Raise request_timeout /\
  post_requests
    (trace (call_rpc_request net_first_times_out 10 same_class
              "query" JNull 10 world_ABC).2) = ["A"].
Proof. repeat split. Qed.

(** A provider that has lost every endpoint, on a network where the one
    candidate still refuses the connection. *)
Definition world_none : world :=
  {| self := {| _rpc_addresses := ["A"]; _available_rpcs := [];
                _last_rpc_addr_check := 0%Q |};
     gets := 0; posts := 0; ticks := 0; trace := [] |}.

Lemma call_rpc_request_empty_snapshot_witness :
  (call_rpc_request net_A_down 10 same_class "query" JNull 10 world_none).1 =
    Raise (RpcNotAvailableError "No RPC available") /\
  get_requests
    (trace (call_rpc_request net_A_down 10 same_class "query" JNull 10 world_none).2) =
    ["A/status"] /\
  post_requests
    (trace (call_rpc_request net_A_down 10 same_class "query" JNull 10 world_none).2) = [].
Proof.
  destruct (call_rpc_request_empty_snapshot net_A_down 10 same_class
              "query" JNull 10 world_none eq_refl)
    as (Hgets & Hposts & _ & _ & Hstill).
  rewrite (Hstill eq_refl). cbn [fst snd].
  split; [reflexivity|]. split; [exact Hgets | exact Hposts].
Defined.

(** The scenario of the specification: the cause [INVALID_TRANSACTION] with
    the body [{"InvalidTx": {"InvalidSignature": {}}}], and a table that maps
    both keys. *)
Definition action_errors : gmap string pyclass :=
  list_to_map [("InvalidTx", "InvalidTxError"); ("InvalidSignature", "InvalidSignature")].

Definition invalid_signature_body : json :=
  JObj [("InvalidTx", JObj [("InvalidSignature", JObj [])])].

Definition invalid_signature_error : list (string * json) :=
  [("cause", JObj [("name", JStr "INVALID_TRANSACTION")]);
   ("data", invalid_signature_body)].

Lemma get_error_from_response_classifies_witness :
  exists error,
    get_error_from_response action_errors (JObj [("error", JObj invalid_signature_error)]) =
      Ok (Some error) /\
    single_key_walk action_errors (JObj invalid_signature_error) invalid_signature_body
      (RpcError InvalidTransactionError invalid_signature_body (JObj invalid_signature_error))
      error /\
    forall error',
      single_key_walk action_errors (JObj invalid_signature_error) invalid_signature_body
        (RpcError InvalidTransactionError invalid_signature_body
           (JObj invalid_signature_error)) error' ->
      error' = error.
Proof.
  apply (get_error_from_response_classifies action_errors
           [("error", JObj invalid_signature_error)] invalid_signature_error
           invalid_signature_body (Some "INVALID_TRANSACTION")).
  - reflexivity.
  - reflexivity.
  - eapply name_present; reflexivity.
Defined.

(** C5 as stated fails: a response with an ["error"] that holds a code and
    a message only, as JSON-RPC allows, is not classified; the function
    raises [KeyError]. *)
Lemma get_error_from_response_needs_data :
  contains (JObj [("error", JObj [("code", JInt (-32700)); ("message", JStr "Parse error")])])
    "error" = Ok true /\
  forall table,
    get_error_from_response table
      (JObj [("error", JObj [("code", JInt (-32700)); ("message", JStr "Parse error")])]) =
    Raise (PyException "KeyError" "data").
Proof. split; [reflexivity|]. intros table. reflexivity. Qed.

Example invalid_signature_refined :
  get_error_from_response action_errors (JObj [("error", JObj invalid_signature_error)]) =
  Ok (Some (RpcError "InvalidSignature" (JObj []) (JObj invalid_signature_error))).
Proof. reflexivity. Qed.

Example invalid_signature_unmapped :
  get_error_from_response ∅ (JObj [("error", JObj invalid_signature_error)]) =
  Ok (Some (RpcError InvalidTransactionError invalid_signature_body
              (JObj invalid_signature_error))).
Proof. reflexivity. Qed.

(** The scenario of the specification: ["A"] is syncing, ["B"] answers in 50
    ms and ["C"] in 10 ms; the snapshot is ["C"; "B"]. *)
Definition syncing : reply :=
  Responds {| status := 200;
              body := Ok (JObj [("sync_info", JObj [("syncing", JBool true)])]) |}.

Definition net_ABC : network :=
  {| get_reply := fun n => match n with O => syncing | _ => in_sync end;
     post_reply := fun _ => Raises (ConnectionError "reset");
     clock := fun n => nth n [0; 1; 1.05; 2; 2.01]%Q 2.01%Q |}.

Example snapshot_C_B :
  _available_rpcs
    (self (check_available_rpcs net_ABC 10
             {| self := JsonProvider_init (AddrList ["A"; "B"; "C"]);
                gets := 0; posts := 0; ticks := 0; trace := [] |}).2) = ["C"; "B"].
Proof. reflexivity. Qed.

(** The broadcast times out on the server; the first lookup is answered
    with the cause [INVALID_TRANSACTION], the second one with the outcome of
    the transaction. *)
Definition rpc_error (cause : string) (data : json) : json :=
  JObj [("error", JObj [("cause", JObj [("name", JStr cause)]); ("data", data)])].

Definition tx_outcome : json := JObj [("status", JObj [("SuccessValue", JStr "")])].

Definition net_invalid_then_found : network :=
  {| get_reply := fun _ => in_sync;
     post_reply := fun n => match n with
                            | O => answer (rpc_error "TIMEOUT_ERROR" (JStr "timeout"))
                            | S O => answer (rpc_error "INVALID_TRANSACTION" (JStr "invalid"))
                            | _ => answer (JObj [("result", tx_outcome)])
                            end;
     clock := fun _ => 0%Q |}.

(** C6 as stated fails: the first poll raises [InvalidTransactionError],
    which is neither the [InternalError] classification nor an exception of
    the transport; it is swallowed all the same, and the coroutine returns
    what the second poll found. *)
Lemma send_tx_and_wait_swallows_classified_error :
  let broadcast :=
    json_rpc net_invalid_then_found 10 ∅ same_class
      "broadcast_tx_commit" (JArr [JStr "signed"]) 10 world_CB in
  let first_poll :=
    get_tx net_invalid_then_found 10 ∅ same_class json Ok "hash" "receiver.near"
      (with_event (Sleep 3) broadcast.2) in
  let invalid :=
    RpcError InvalidTransactionError (JStr "invalid")
      (JObj [("cause", JObj [("name", JStr "INVALID_TRANSACTION")]);
             ("data", JStr "invalid")]) in
  first_poll.1 = Raise invalid /\
  isinstance same_class invalid InternalError = false /\
  request_loop_catches same_class invalid = false /\
  (send_tx_and_wait net_invalid_then_found 10 ∅ same_class json Ok
     "signed" 10 (Some "hash") (Some "receiver.near") world_CB).1 = Ok (inr tx_outcome).
Proof. cbv zeta. repeat split; vm_compute; reflexivity. Qed.

(** The broadcast times out on the server and no lookup ever finds the
    transaction. *)
Definition net_never_found : network :=
  {| get_reply := fun _ => in_sync;
     post_reply := fun n => match n with
                            | O => answer (rpc_error "TIMEOUT_ERROR" (JStr "timeout"))
                            | _ => answer (rpc_error "UNKNOWN_TRANSACTION" (JStr "unknown"))
                            end;
     clock := fun _ => 0%Q |}.

Definition timeout_error : exn :=
  RpcError RPCTimeoutError (JStr "timeout")
    (JObj [("cause", JObj [("name", JStr "TIMEOUT_ERROR")]); ("data", JStr "timeout")]).

Lemma send_tx_and_wait_polls_witness :
  (send_tx_and_wait net_never_found 6 ∅ same_class json Ok
     "signed" 10 (Some "hash") (Some "receiver.near") world_CB).1 = Raise timeout_error.
Proof.
  set (w0 := (json_rpc net_never_found 6 ∅ same_class
                "broadcast_tx_commit" (JArr [JStr "signed"]) 10 world_CB).2).
  assert (Hbroadcast : json_rpc net_never_found 6 ∅ same_class
                         "broadcast_tx_commit" (JArr [JStr "signed"]) 10 world_CB =
                       (Raise timeout_error, w0)) by (vm_compute; reflexivity).
  destruct (send_tx_and_wait_polls net_never_found 6 ∅ same_class json Ok
              "signed" 10 "hash" "receiver.near" world_CB w0 timeout_error
              Hbroadcast eq_refl ltac:(discriminate) ltac:(discriminate))
    as (_ & Hexhausted & _).
  set (poll1 := get_tx net_never_found 6 ∅ same_class json Ok "hash" "receiver.near"
                  (with_event (Sleep 3) w0)).
  set (poll2 := get_tx net_never_found 6 ∅ same_class json Ok "hash" "receiver.near"
                  (with_event (Sleep 3) poll1.2)).
  assert (Hfail : polls_fail net_never_found 6 ∅ same_class json Ok
                    "hash" "receiver.near" 2 w0 poll2.2).
  { apply polls_fail_S
      with (e := RpcError InternalError (JStr "unknown")
                   (JObj [("cause", JObj [("name", JStr "UNKNOWN_TRANSACTION")]);
                          ("data", JStr "unknown")]))
           (w1 := poll1.2); [vm_compute; reflexivity|].
    apply polls_fail_S
      with (e := RpcError InternalError (JStr "unknown")
                   (JObj [("cause", JObj [("name", JStr "UNKNOWN_TRANSACTION")]);
                          ("data", JStr "unknown")]))
           (w1 := poll2.2); [vm_compute; reflexivity|].
    apply polls_fail_O. }
  rewrite (Hexhausted poll2.2 Hfail). reflexivity.
Defined.

(** A clock that advances by 40 seconds at each reading, and three calls
    in a row on a new provider with one endpoint: the first call comes within
    30 seconds of the initial stamp, the next two trigger a refresh each. *)
Definition net_slow_clock : network :=
  {| get_reply := fun _ => in_sync;
     post_reply := fun _ => answer (JObj [("result", JStr "ok")]);
     clock := fun n => inject_Z (40 * Z.of_nat n) |}.

Lemma net_slow_clock_monotone m n :
  m <= n -> (clock net_slow_clock m <= clock net_slow_clock n)%Q.
Proof. intros Hmn. cbn [clock net_slow_clock]. rewrite <- Zle_Qle. lia. Qed.

Definition three_calls : list action :=
  [Dispatch "query" JNull 10; Dispatch "query" JNull 10; Dispatch "query" JNull 10].

Lemma refresh_cooldown_witness :
  triggers net_slow_clock 10 same_class three_calls (initial_world (AddrStr "A")) =
    [ {| stamp := inject_Z 80; forced := false |};
      {| stamp := inject_Z 160; forced := false |} ] /\
  (inject_Z 80 + 30 < inject_Z 160)%Q.
Proof.
  assert (Hts : triggers net_slow_clock 10 same_class three_calls
                  (initial_world (AddrStr "A")) =
                [ {| stamp := inject_Z 80; forced := false |};
                  {| stamp := inject_Z 160; forced := false |} ])
    by (vm_compute; reflexivity).
  split; [exact Hts|].
  destruct (refresh_cooldown net_slow_clock 10 same_class net_slow_clock_monotone
              (AddrStr "A") three_calls) as [Hspaced _].
  apply (Hspaced 0 1 {| stamp := inject_Z 80; forced := false |}
           {| stamp := inject_Z 160; forced := false |}).
  - lia.
  - rewrite Hts. reflexivity.
  - rewrite Hts. reflexivity.
  - reflexivity.
Defined.

(** A call, by the stale stamp, creates a refresh task and starts its
    request loop on ["C"; "B"]; the refresh then runs to its end and assigns
    ["A"; "B"; "C"]; the loop of the call, after a first attempt on ["C"],
    still iterates ["C"; "B"] and has ["B"] left. *)
Definition net_all_in_sync : network :=
  {| get_reply := fun _ => in_sync;
     post_reply := fun _ => Raises (ClientConnectorError "connection refused");
     clock := fun n => inject_Z (40 * Z.of_nat n) |}.

Definition world_stale : world :=
  {| self := {| _rpc_addresses := ["A"; "B"; "C"];
                _available_rpcs := ["C"; "B"];
                _last_rpc_addr_check := (-100)%Q |};
     gets := 0; posts := 0; ticks := 0; trace := [] |}.

Definition refreshed_during_call : system :=
  schedule net_all_in_sync 10 same_class [0; 1; 1; 1; 1; 0]
    {| shared := world_stale;
       pool := [DispatchTask (Called "query" JNull 10)];
       assigned := [] |}.

Lemma snapshot_replaced_atomically_witness :
  _available_rpcs (self (shared refreshed_during_call)) = ["A"; "B"; "C"] /\
  pool refreshed_during_call !! 0 =
    Some (DispatchTask (Requesting ["C"; "B"] ["B"] (envelope "query" JNull) 10)) /\
  ["C"; "B"] ∈ whole_snapshots world_stale refreshed_during_call.
Proof.
  assert (Hrun : rtc (sys_step net_all_in_sync 10 same_class)
                   (boot world_stale) refreshed_during_call).
  { eapply rtc_l; [apply step_call with (method := "query") (params := JNull) (timeout := 10%Z)|].
    apply schedule_steps. }
  destruct (snapshot_replaced_atomically net_all_in_sync 10 same_class
              world_stale refreshed_during_call Hrun) as (_ & Hloops & _).
  assert (Hpool : pool refreshed_during_call !! 0 =
                  Some (DispatchTask (Requesting ["C"; "B"] ["B"] (envelope "query" JNull) 10)))
    by (vm_compute; reflexivity).
  split; [vm_compute; reflexivity|]. split; [exact Hpool|].
  exact (proj1 (Hloops 0 _ _ _ _ Hpool)).
Defined.

(** The three endpoints fail in three ways: a refused connection, a status
    500, a connection reset. *)
Definition net_three_failures : network :=
  {| get_reply := fun _ => in_sync;
     post_reply := fun n => match n with
                            | O => Raises (ClientConnectorError "connection refused")
                            | S O => Responds {| status := 500; body := Ok JNull |}
                            | _ => Raises (ConnectionError "connection reset")
                            end;
     clock := fun _ => 0%Q |}.

Lemma request_loop_transport_failures_witness :
  (call_rpc_request net_three_failures 10 same_class "query" JNull 10 world_ABC).1 =
    Ok JNull /\
  logged (trace (call_rpc_request net_three_failures 10 same_class
                   "query" JNull 10 world_ABC).2) =
    [Rpc_error (ClientConnectorError "connection refused");
     Rpc_error (ClientResponseError 500);
     Rpc_error (ConnectionError "connection reset")] /\
  exists msg,
    (json_rpc net_three_failures 10 ∅ same_class "query" JNull 10 world_ABC).1 =
      Raise (RpcNotAvailableError msg).
Proof.
  destruct (request_loop_transport_failures net_three_failures 10 ∅ same_class
              "query" JNull 10 world_ABC) as (_ & Hall & _).
  destruct Hall as [Hcall Hjson].
  - intros i _. destruct i as [ | [ | i ] ].
    + exists (ClientConnectorError "connection refused"). split; [reflexivity | constructor].
    + exists (ClientResponseError 500). split; [reflexivity | constructor].
    + exists (ConnectionError "connection reset"). split; [reflexivity | constructor].
  - rewrite (Hcall ltac:(discriminate)). split; [reflexivity|]. split; [reflexivity|].
    exact Hjson.
Defined.

(** C4 as stated fails: the request to the first endpoint runs into its
    timeout, a transport failure by the words of the claim; nothing is
    logged, no other endpoint is asked, and the caller of [json_rpc] sees the
    timeout error itself, not [RpcNotAvailableError]. *)
Lemma json_rpc_surfaces_timeout :
  (json_rpc net_first_times_out 10 ∅ same_class "query" JNull 10 world_ABC).1 =
    Raise request_timeout /\
  logged (trace (json_rpc net_first_times_out 10 ∅ same_class
                   "query" JNull 10 world_ABC).2) = [] /\
  post_requests (trace (json_rpc net_first_times_out 10 ∅ same_class
                          "query" JNull 10 world_ABC).2) = ["A"] /\
  forall msg, request_timeout <> RpcNotAvailableError msg.
Proof. repeat split. intros msg. discriminate. Qed.

(** An endpoint answers with a successful status and the empty object. *)
Definition net_empty_object : network :=
  {| get_reply := fun _ => in_sync;
     post_reply := fun _ => answer (JObj []);
     clock := fun _ => 0%Q |}.

Lemma json_rpc_content_guard_witness :
  (json_rpc net_empty_object 10 ∅ same_class "query" JNull 10 world_ABC).1 =
    Raise (RpcNotAvailableError "RPC not available").
Proof.
  destruct (json_rpc_content_guard net_empty_object 10 ∅ same_class
              "query" JNull 10 world_ABC) as (_ & Hempty & _).
  apply (Hempty ltac:(discriminate) 0).
  - cbn. lia.
  - intros i Hi. lia.
  - reflexivity.
Defined.

(** * Further properties of the dispatcher

    What the requests of a call carry, when a call gives up, and what the
    calls keep of the provider. *)

(** The POST requests of a trace with their payload and timeout, the GET
    requests with their timeout, and the seconds slept. *)
Fixpoint posts_of (tr : list event) : list (string * json * Z) :=
  match tr with
  | [] => []
  | HttpPost rpc_addr j timeout :: tr' => (rpc_addr, j, timeout) :: posts_of tr'
  | _ :: tr' => posts_of tr'
  end.

Fixpoint gets_of (tr : list event) : list (string * Z) :=
  match tr with
  | [] => []
  | HttpGet url timeout :: tr' => (url, timeout) :: gets_of tr'
  | _ :: tr' => gets_of tr'
  end.

Fixpoint slept (tr : list event) : Z :=
  match tr with
  | [] => 0%Z
  | Sleep seconds :: tr' => (seconds + slept tr')%Z
  | _ :: tr' => slept tr'
  end.

Lemma posts_of_app tr1 tr2 : posts_of (tr1 ++ tr2) = posts_of tr1 ++ posts_of tr2.
Proof.
  induction tr1 as [ | ev tr1 IH ]; simpl; [reflexivity|].
  destruct ev; simpl; rewrite IH; reflexivity.
Qed.

Lemma gets_of_app tr1 tr2 : gets_of (tr1 ++ tr2) = gets_of tr1 ++ gets_of tr2.
Proof.
  induction tr1 as [ | ev tr1 IH ]; simpl; [reflexivity|].
  destruct ev; simpl; rewrite IH; reflexivity.
Qed.

Lemma slept_app tr1 tr2 : slept (tr1 ++ tr2) = (slept tr1 + slept tr2)%Z.
Proof.
  induction tr1 as [ | ev tr1 IH ]; simpl; [reflexivity|].
  destruct ev; simpl; rewrite IH; lia.
Qed.

Section DispatchProperties.

Variable net : network.
Variable TIMEOUT_WAIT_RPC : Z.
Variable ERROR_CODE_TO_EXCEPTION : gmap string pyclass.
Variable issubclass : pyclass -> pyclass -> bool.

Local Notation check_available_rpcs := (check_available_rpcs net TIMEOUT_WAIT_RPC).
Local Notation freshness_check := (freshness_check net TIMEOUT_WAIT_RPC).
Local Notation request_loop := (request_loop net issubclass).
Local Notation call_rpc_request := (call_rpc_request net TIMEOUT_WAIT_RPC issubclass).
Local Notation json_rpc := (json_rpc net TIMEOUT_WAIT_RPC ERROR_CODE_TO_EXCEPTION issubclass).
Local Notation post_fails_transport := (post_fails_transport issubclass).
Local Notation probe_events := (probe_events net TIMEOUT_WAIT_RPC).

(** The events of the probes: one GET per address, no POST, no sleep. *)
Lemma probe_events_requests available g addrs :
  gets_of (probe_events available g addrs) =
    ((fun a => (status_url a, TIMEOUT_WAIT_RPC)) <$> addrs) /\
  posts_of (probe_events available g addrs) = [] /\
  slept (probe_events available g addrs) = 0%Z.
Proof.
  revert g. induction addrs as [ | a rest IH ]; intros g; [repeat split|].
  destruct (IH (S g)) as (Hg & Hp & Hs).
  cbn [probe_events gets_of posts_of slept fmap list_fmap].
  rewrite gets_of_app, posts_of_app, slept_app, Hg, Hp, Hs.
  unfold removal_log.
  destruct (rejection a (get_reply net g)); [|repeat split].
  destruct (bool_decide (a ∈ available)); repeat split.
Qed.

(** The request loop: the [k] POSTs it sends go to the first [k] addresses
    of the list, each with the payload and the timeout of the call; it reads
    [k] replies, sends no GET and never sleeps. *)
Lemma request_loop_requests rpcs j timeout w :
  exists k tail,
    k <= length rpcs /\
    trace (request_loop rpcs j timeout w).2 = trace w ++ tail /\
    posts_of tail = ((fun a => (a, j, timeout)) <$> take k rpcs) /\
    gets_of tail = [] /\ slept tail = 0%Z /\
    posts (request_loop rpcs j timeout w).2 = posts w + k /\
    gets (request_loop rpcs j timeout w).2 = gets w.
Proof.
  revert w. induction rpcs as [ | a rest IH ]; intros w.
  - exists 0, []. cbn. rewrite app_nil_r, Nat.add_0_r. repeat split; lia.
  - rewrite request_loop_cons. cbv zeta.
    destruct (post_outcome (post_reply net (posts w))) as [content | e].
    + exists 1, [HttpPost a j timeout]. cbn. rewrite take_0.
      repeat split; lia.
    + destruct (request_loop_catches issubclass e).
      * match goal with |- context [request_loop rest j timeout ?w'] =>
          destruct (IH w') as (k & tail & Hk & Htrace & Hposts & Hgets & Hslept & Hn & Hg) end.
        exists (S k), (HttpPost a j timeout :: Logged (Rpc_error e) :: tail).
        rewrite Htrace, Hn, Hg. cbn. rewrite <- !app_assoc, Hposts, Hgets, Hslept.
        repeat split; lia.
      * exists 1, [HttpPost a j timeout]. cbn. rewrite take_0.
        repeat split; lia.
Qed.

(** What the freshness check adds to the trace: no POST and no sleep. *)
Lemma freshness_check_requests w :
  exists tail,
    trace (freshness_check w).2 = trace w ++ tail /\
    posts_of tail = [] /\ slept tail = 0%Z /\
    (_available_rpcs (self w) <> [] -> gets_of tail = [] /\ gets (freshness_check w).2 = gets w).
Proof.
  rewrite freshness_check_run.
  destruct (refresh_due _ _).
  - destruct (_available_rpcs (self w)) as [ | a l ] eqn:Hl; cbn [is_empty].
    + rewrite check_available_rpcs_run. cbn [snd trace stamped self _available_rpcs gets].
      eexists. rewrite <- app_assoc. split; [reflexivity|].
      rewrite posts_of_app, slept_app.
      match goal with |- context [probe_events ?l ?g ?addrs] =>
        destruct (probe_events_requests l g addrs) as (_ & Hp & Hs) end.
      rewrite Hp, Hs. split; [reflexivity|]. split; [reflexivity|].
      intros Hne. congruence.
    + exists [CreateTask_check_available_rpcs]. repeat split.
  - exists []. cbn. rewrite app_nil_r. repeat split.
Qed.

(** The POSTs of a call. *)
Lemma call_rpc_request_posts method params timeout (w : world) :
  let out := call_rpc_request method params timeout w in
  exists k,
    k <= length (_available_rpcs (self out.2)) /\
    posts_of (trace out.2) =
      posts_of (trace w) ++
      ((fun a => (a, envelope method params, timeout)) <$>
         take k (_available_rpcs (self out.2))) /\
    posts out.2 = posts w + k.
Proof.
  cbv zeta. rewrite call_rpc_request_run. cbv zeta.
  destruct (freshness_check_requests w) as (tail & Htrace & Hposts & _ & _).
  destruct (freshness_check_posts net TIMEOUT_WAIT_RPC w) as [Hn _].
  set (w1 := (freshness_check w).2) in *.
  destruct (is_empty (_available_rpcs (self w1))) eqn:Hempty.
  - exists 0. cbn [snd]. rewrite Htrace, posts_of_app, Hposts, take_0, Hn. cbn.
    rewrite app_nil_r. repeat split; lia.
  - destruct (request_loop_requests (_available_rpcs (self w1)) (envelope method params)
                timeout w1) as (k & tail' & Hk & Htrace' & Hposts' & _ & _ & Hn' & _).
    destruct (request_loop_frame net issubclass (_available_rpcs (self w1))
                (envelope method params) timeout w1) as (Hself & _ & _).
    exists k. rewrite Hself, Htrace', Htrace, !posts_of_app, Hposts, Hposts', Hn', Hn.
    rewrite app_nil_r. repeat split; lia.
Qed.

(** X3.  An exception the loop does not catch ends the call at once.  When
    the attempts on the first [n] addresses fail with an exception of the
    [except] clause and the next attempt raises another exception [e], the
    call raises [e] after these [n + 1] POSTs; the addresses left in the list
    are not tried, and [json_rpc] raises [e] as well. *)
Theorem call_rpc_request_uncaught method params timeout (w : world) n rpc_addr e :
  _available_rpcs (self w) !! n = Some rpc_addr ->
  (forall i, i < n -> post_fails_transport (post_reply net (posts w + i))) ->
  post_outcome (post_reply net (posts w + n)) = Raise e ->
  request_loop_catches issubclass e = false ->
  let out := call_rpc_request method params timeout w in
  out.1 = Raise e /\
  posts out.2 = posts w + S n /\
  post_requests (trace out.2) =
    post_requests (trace w) ++ take (S n) (_available_rpcs (self w)) /\
  (json_rpc method params timeout w).1 = Raise e.
Proof.
  intros Ha Hfail He Hcatch. cbv zeta.
  assert (Hne : _available_rpcs (self w) <> []).
  { intros Hnil. rewrite Hnil in Ha. discriminate Ha. }
  assert (Hrun : call_rpc_request method params timeout w =
                 (Raise e,
                  let w1 := (freshness_check w).2 in
                  let j := envelope method params in
                  {| self := self w1; gets := gets w1; posts := S (posts w + n);
                     ticks := ticks w1;
                     trace := (trace w1 ++
                               failed_attempts net j timeout (posts w)
                                 (take n (_available_rpcs (self w)))) ++
                              [HttpPost rpc_addr j timeout] |})).
  { rewrite call_rpc_request_run. cbv zeta.
    pose proof (freshness_check_nonempty net TIMEOUT_WAIT_RPC w Hne) as Havail.
    destruct (freshness_check_posts net TIMEOUT_WAIT_RPC w) as [Hposts _].
    set (w1 := (freshness_check w).2) in *. rewrite Havail.
    assert (Hn : n < length (_available_rpcs (self w))) by (eapply lookup_lt_Some; exact Ha).
    assert (Hlen : length (take n (_available_rpcs (self w))) = n)
      by (rewrite length_take; lia).
    destruct (_available_rpcs (self w)) as [ | a0 rpcs0 ] eqn:Hrpcs; [congruence|].
    cbn [is_empty].
    rewrite <- (take_drop_middle _ _ _ Ha) at 1.
    rewrite request_loop_failures by (rewrite Hlen, Hposts; exact Hfail).
    rewrite request_loop_cons. cbv zeta. cbn [after_failures posts self gets ticks trace].
    rewrite Hlen, Hposts, He, Hcatch. reflexivity. }
  destruct (freshness_check_posts net TIMEOUT_WAIT_RPC w) as [_ Hreqs].
  split; [rewrite Hrun; reflexivity|]. split; [rewrite Hrun; cbn; lia|]. split.
  - rewrite Hrun. cbv zeta. cbn [snd trace].
    rewrite !post_requests_app, post_requests_failed_attempts, Hreqs.
    cbn [post_requests]. rewrite <- app_assoc. f_equal.
    rewrite (take_S_r _ _ _ Ha). reflexivity.
  - unfold json_rpc. unfold mbind, M_bind. rewrite Hrun. reflexivity.
Qed.

(** A response [get_error_from_response] builds an exception from is a
    mapping that is not empty. *)
Lemma get_error_from_response_truthy content error :
  get_error_from_response ERROR_CODE_TO_EXCEPTION content = Ok (Some error) ->
  truthy content = true.
Proof.
  unfold get_error_from_response.
  destruct content as [ | b | z | f | s | elems | [ | item items] ]; cbn; try discriminate.
  - destruct (is_substring "error" s); cbn; discriminate.
  - destruct (existsb (is_str "error") elems); cbn; discriminate.
  - reflexivity.
Qed.

(** X4.  An answer that holds an error is final.  When the attempts on the
    first [n] addresses fail with an exception of the [except] clause and the
    next endpoint answers with a body from which [get_error_from_response]
    builds [error], [json_rpc] raises [error] after these [n + 1] POSTs: the
    endpoints left in the list are not asked. *)
Theorem json_rpc_raises_rpc_error method params timeout (w : world) n rpc_addr content error :
  _available_rpcs (self w) !! n = Some rpc_addr ->
  (forall i, i < n -> post_fails_transport (post_reply net (posts w + i))) ->
  post_succeeds (post_reply net (posts w + n)) content ->
  get_error_from_response ERROR_CODE_TO_EXCEPTION content = Ok (Some error) ->
  let out := json_rpc method params timeout w in
  out.1 = Raise error /\
  posts out.2 = posts w + S n /\
  post_requests (trace out.2) =
    post_requests (trace w) ++ take (S n) (_available_rpcs (self w)).
Proof.
  intros Ha Hfail Hok Herror. cbv zeta.
  unfold json_rpc. unfold mbind, M_bind.
  rewrite (call_rpc_request_until_success net TIMEOUT_WAIT_RPC issubclass
             method params timeout w n rpc_addr content Ha Hfail Hok).
  unfold lift, json_rpc_result.
  rewrite (get_error_from_response_truthy _ _ Herror), Herror. cbn [negb fst snd posts trace].
  destruct (freshness_check_posts net TIMEOUT_WAIT_RPC w) as [_ Hreqs].
  split; [reflexivity|]. split; [lia|].
  rewrite !post_requests_app, post_requests_failed_attempts, Hreqs.
  cbn [post_requests]. rewrite <- app_assoc. f_equal.
  rewrite (take_S_r _ _ _ Ha). reflexivity.
Qed.

Lemma getitem_Ok v key x :
  getitem v key = Ok x <-> exists items, v = JObj items /\ dict_get items key = Some x.
Proof.
  split.
  - destruct v as [ | b | z | f | s | elems | items ]; cbn; try discriminate.
    destruct (dict_get items key) as [y|] eqn:Hy; [|discriminate].
    intros [= ->]. eauto.
  - intros (items & -> & Hx). cbn. rewrite Hx. reflexivity.
Qed.

Lemma get_method_Ok v key dflt x :
  get_method v key dflt = Ok x <->
  exists items, v = JObj items /\ x = default dflt (dict_get items key).
Proof.
  split.
  - destruct v as [ | b | z | f | s | elems | items ]; cbn; try discriminate.
    intros [= <-]. eauto.
  - intros (items & -> & ->). reflexivity.
Qed.

Lemma contains_true_getitem v key x :
  getitem v key = Ok x -> contains v key = Ok true.
Proof.
  intros H. apply getitem_Ok in H as (items & -> & Hx).
  eapply dict_get_contains. exact Hx.
Qed.

(** [get_error_from_response] returns an exception exactly on the responses
    of the wire format. *)
Lemma get_error_from_response_Some (content : json) (error : exn) :
  get_error_from_response ERROR_CODE_TO_EXCEPTION content = Ok (Some error) <->
  exists items error_items cause cls body,
    content = JObj items /\
    dict_get items "error" = Some (JObj error_items) /\
    default (JObj []) (dict_get error_items "cause") = JObj cause /\
    provider_class (default (JStr "") (dict_get cause "name")) = Ok cls /\
    dict_get error_items "data" = Some body /\
    error = refine_error ERROR_CODE_TO_EXCEPTION (JObj error_items) body
              (RpcError cls body (JObj error_items)).
Proof.
  split.
  - unfold get_error_from_response. intros H.
    destruct (contains content "error") as [[|]|e0] eqn:Hc; [| discriminate H..].
    rewrite result_bind_Ok in H.
    destruct (getitem content "error") as [ej|] eqn:Hej; [|discriminate H].
    rewrite result_bind_Ok in H.
    destruct (get_method ej "cause" (JObj [])) as [cause|] eqn:Hcause; [|discriminate H].
    rewrite result_bind_Ok in H.
    destruct (get_method cause "name" (JStr "")) as [code|] eqn:Hcode; [|discriminate H].
    rewrite result_bind_Ok in H.
    destruct (getitem ej "data") as [body|] eqn:Hbody; [|discriminate H].
    rewrite result_bind_Ok in H.
    destruct (provider_class code) as [cls|] eqn:Hcls; [|discriminate H].
    rewrite result_bind_Ok in H. injection H as <-.
    apply getitem_Ok in Hej as (items & -> & Herr).
    apply get_method_Ok in Hcause as (error_items & -> & ->).
    apply get_method_Ok in Hcode as (cause & Hcause & ->).
    apply getitem_Ok in Hbody as (error_items' & [= <-] & Hdata).
    exists items, error_items, cause, cls, body. repeat split; assumption.
  - intros (items & error_items & cause & cls & body & -> & Herr & Hcause & Hcls & Hdata & ->).
    unfold get_error_from_response.
    rewrite (dict_get_contains _ _ _ Herr), result_bind_Ok.
    rewrite (dict_get_getitem _ _ _ Herr), result_bind_Ok.
    change (get_method (JObj error_items) "cause" (JObj []))
      with (Ok (A := json) (default (JObj []) (dict_get error_items "cause"))).
    rewrite Hcause, result_bind_Ok.
    change (get_method (JObj cause) "name" (JStr ""))
      with (Ok (A := json) (default (JStr "") (dict_get cause "name"))).
    rewrite result_bind_Ok, (dict_get_getitem _ _ _ Hdata), result_bind_Ok.
    rewrite Hcls, result_bind_Ok. reflexivity.
Qed.

Lemma get_error_from_response_None (content : json) :
  get_error_from_response ERROR_CODE_TO_EXCEPTION content = Ok None <->
  contains content "error" = Ok false.
Proof.
  unfold get_error_from_response.
  destruct (contains content "error") as [[|]|e0] eqn:Hc.
  - rewrite result_bind_Ok. split; [|discriminate]. intros H.
    destruct (getitem content "error") as [ej|]; [|discriminate H].
    rewrite result_bind_Ok in H.
    destruct (get_method ej "cause" (JObj [])) as [cause|]; [|discriminate H].
    rewrite result_bind_Ok in H.
    destruct (get_method cause "name" (JStr "")) as [code|]; [|discriminate H].
    rewrite result_bind_Ok in H.
    destruct (getitem ej "data") as [body|]; [|discriminate H].
    rewrite result_bind_Ok in H.
    destruct (provider_class code) as [cls|]; discriminate H.
  - split; reflexivity.
  - split; discriminate.
Qed.

(** X5.  [get_error_from_response] builds an exception exactly from the
    responses of the wire format.  It returns an exception if and only if the
    response is a mapping whose ["error"] entry is a mapping with a ["data"]
    entry, the cause (the empty mapping when absent) is a mapping, and its
    name (the empty string when absent) is hashable; the exception is then
    the refinement of the provider-level class of the name.  It returns
    [None] if and only if the response has no ["error"]. *)
Theorem get_error_from_response_wire_format (content : json) :
  (forall error,
     get_error_from_response ERROR_CODE_TO_EXCEPTION content = Ok (Some error) <->
     exists items error_items cause cls body,
       content = JObj items /\
       dict_get items "error" = Some (JObj error_items) /\
       default (JObj []) (dict_get error_items "cause") = JObj cause /\
       provider_class (default (JStr "") (dict_get cause "name")) = Ok cls /\
       dict_get error_items "data" = Some body /\
       error = refine_error ERROR_CODE_TO_EXCEPTION (JObj error_items) body
                 (RpcError cls body (JObj error_items))) /\
  (get_error_from_response ERROR_CODE_TO_EXCEPTION content = Ok None <->
   contains content "error" = Ok false).
Proof.
  split.
  - intros error. apply get_error_from_response_Some.
  - apply get_error_from_response_None.
Qed.

(** X6.  What a malformed error costs.  On a mapping with an ["error"]
    entry, [get_error_from_response] raises instead of classifying:
    [AttributeError] when the entry or its cause is not a mapping, and
    [KeyError] when the entry has no ["data"]. *)
Theorem get_error_from_response_malformed (items : list (string * json)) (err : json) :
  dict_get items "error" = Some err ->
  ((forall error_items, err <> JObj error_items) ->
   get_error_from_response ERROR_CODE_TO_EXCEPTION (JObj items) =
     Raise (PyException "AttributeError" "get")) /\
  (forall error_items cause,
     err = JObj error_items ->
     dict_get error_items "cause" = Some cause ->
     (forall cause_items, cause <> JObj cause_items) ->
     get_error_from_response ERROR_CODE_TO_EXCEPTION (JObj items) =
       Raise (PyException "AttributeError" "get")) /\
  (forall error_items cause_items,
     err = JObj error_items ->
     default (JObj []) (dict_get error_items "cause") = JObj cause_items ->
     dict_get error_items "data" = None ->
     get_error_from_response ERROR_CODE_TO_EXCEPTION (JObj items) =
       Raise (PyException "KeyError" "data")).
Proof.
  intros Herr. unfold get_error_from_response.
  rewrite (dict_get_contains _ _ _ Herr), result_bind_Ok.
  rewrite (dict_get_getitem _ _ _ Herr), result_bind_Ok.
  split; [|split].
  - intros Hnot. destruct err as [ | b | z | f | s | elems | error_items ]; try reflexivity.
    exfalso. eapply Hnot. reflexivity.
  - intros error_items cause -> Hcause Hnot. cbn [get_method]. rewrite Hcause.
    rewrite result_bind_Ok.
    destruct cause as [ | b | z | f | s | elems | cause_items ]; try reflexivity.
    exfalso. eapply Hnot. reflexivity.
  - intros error_items cause_items -> Hcause Hdata. cbn [get_method]. rewrite Hcause.
    rewrite !result_bind_Ok. cbn [getitem]. rewrite Hdata. reflexivity.
Qed.

(** The loop of [get_error_from_response] keeps the envelope and takes the
    class from the table, if it changes it. *)
Lemma refine_error_shape error_json :
  forall body cls b,
    exists cls' b',
      refine_error ERROR_CODE_TO_EXCEPTION error_json body (RpcError cls b error_json) =
        RpcError cls' b' error_json /\
      (cls' = cls \/ exists key, ERROR_CODE_TO_EXCEPTION !! key = Some cls').
Proof.
  fix IH 1.
  intros body cls b.
  destruct body as [ | b0 | z | f | s | elems | items ]; try (exists cls, b; split; [reflexivity | left; reflexivity]).
  destruct items as [ | [key body'] rest ]; simpl.
  - exists cls, b. split; [reflexivity | left; reflexivity].
  - destruct (ERROR_CODE_TO_EXCEPTION !! key) as [c|] eqn:Hkey.
    + destruct (IH body' c body') as (cls' & b' & Heq & Hcls).
      exists cls', b'. split; [exact Heq|]. right.
      destruct Hcls as [-> | Hcls]; [exists key; exact Hkey | exact Hcls].
    + exists cls, b. split; [reflexivity | left; reflexivity].
Qed.

(** X7.  The exception [get_error_from_response] builds is an instance of a
    class of the provider table, of [InternalError] or of a class of the
    action table, and it carries the ["error"] entry of the response as its
    [error_json], whatever the depth the refinement reached. *)
Theorem get_error_from_response_keeps_envelope (content : json) (error : exn) :
  get_error_from_response ERROR_CODE_TO_EXCEPTION content = Ok (Some error) ->
  exists cls body error_json,
    error = RpcError cls body error_json /\
    getitem content "error" = Ok error_json /\
    (cls = InternalError \/
     (exists code, PROVIDER_CODE_TO_EXCEPTION !! code = Some cls) \/
     (exists key, ERROR_CODE_TO_EXCEPTION !! key = Some cls)).
Proof.
  intros H.
  apply get_error_from_response_Some in H
    as (items & error_items & cause & cls & body & -> & Herr & _ & Hcls & _ & ->).
  destruct (refine_error_shape (JObj error_items) body cls body) as (cls' & b' & -> & Hshape).
  exists cls', b', (JObj error_items). split; [reflexivity|].
  split; [apply dict_get_getitem; exact Herr|].
  destruct Hshape as [-> | Hkey]; [|right; right; exact Hkey].
  unfold provider_class in Hcls.
  destruct (default (JStr "") (dict_get cause "name")) as [ | b | z | f | s | elems | o ];
    try discriminate Hcls; try (injection Hcls as <-; left; reflexivity).
  injection Hcls as <-.
  destruct (PROVIDER_CODE_TO_EXCEPTION !! s) as [c|] eqn:Hs.
  - right. left. exists s. exact Hs.
  - left. reflexivity.
Qed.

(** A run of the provider: dispatch calls and refreshes, one after the
    other. *)
Definition run (acts : list action) (w : world) : world :=
  foldl (fun w a => step net TIMEOUT_WAIT_RPC issubclass a w) w acts.

Lemma accepted_candidates_sublist g addrs :
  accepted_candidates net g addrs `sublist_of` addrs.
Proof.
  revert g. induction addrs as [ | a rest IH ]; intros g; cbn; [constructor|].
  destruct (accepted (get_reply net g)); [apply sublist_skip | apply sublist_cons]; apply IH.
Qed.

Lemma ranked_measured_submseteq g t addrs :
  ranked (measured net g t addrs) ⊆+ addrs.
Proof.
  unfold ranked. rewrite sorted_perm, measured_fst.
  apply sublist_submseteq, accepted_candidates_sublist.
Qed.

(** A step leaves the candidates alone, and the list it leaves is the list
    it found or the ranking of the accepted candidates. *)
Lemma step_lists a w :
  _rpc_addresses (self (step net TIMEOUT_WAIT_RPC issubclass a w)) = _rpc_addresses (self w) /\
  (_available_rpcs (self (step net TIMEOUT_WAIT_RPC issubclass a w)) = _available_rpcs (self w) \/
   exists g t,
     _available_rpcs (self (step net TIMEOUT_WAIT_RPC issubclass a w)) =
       ranked (measured net g t (_rpc_addresses (self w)))).
Proof.
  destruct a as [method params timeout | ]; unfold step.
  - rewrite call_rpc_request_run. cbv zeta.
    assert (Hfresh :
      _rpc_addresses (self (freshness_check w).2) = _rpc_addresses (self w) /\
      (_available_rpcs (self (freshness_check w).2) = _available_rpcs (self w) \/
       exists g t, _available_rpcs (self (freshness_check w).2) =
                     ranked (measured net g t (_rpc_addresses (self w))))).
    { rewrite freshness_check_run. destruct (refresh_due _ _); [|split; [|left]; reflexivity].
      destruct (is_empty _); [|split; [|left]; reflexivity].
      rewrite check_available_rpcs_run. cbn. split; [reflexivity|]. right. eauto. }
    set (w1 := (freshness_check w).2) in *.
    destruct (is_empty (_available_rpcs (self w1))); [exact Hfresh|].
    destruct (request_loop_frame net issubclass (_available_rpcs (self w1))
                (envelope method params) timeout w1) as (Hself & _ & _).
    rewrite Hself. exact Hfresh.
  - rewrite check_available_rpcs_run. cbn. split; [reflexivity|]. right. eauto.
Qed.

Lemma run_lists acts :
  forall w,
    _available_rpcs (self w) ⊆+ _rpc_addresses (self w) ->
    _rpc_addresses (self (run acts w)) = _rpc_addresses (self w) /\
    _available_rpcs (self (run acts w)) ⊆+ _rpc_addresses (self w).
Proof.
  induction acts as [ | a acts IH ]; intros w Hw; [split; [reflexivity | exact Hw]|].
  cbn [run foldl]. destruct (step_lists a w) as [Hcand Havail].
  destruct (IH (step net TIMEOUT_WAIT_RPC issubclass a w)) as [Hcand' Havail'].
  - rewrite Hcand. destruct Havail as [-> | (g & t & ->)];
      [exact Hw | apply ranked_measured_submseteq].
  - unfold run in Hcand', Havail'. rewrite Hcand', Hcand. rewrite Hcand in Havail'.
    split; [reflexivity | exact Havail'].
Qed.

(** X8.  Over any sequence of dispatch calls and refreshes on a new provider,
    the candidate list stays the one the constructor stored, and the
    available list holds candidates only, each no more often than the
    candidate list holds it. *)
Theorem available_within_candidates (rpc_addr : rpc_addr_arg) (acts : list action) :
  let w := run acts (initial_world rpc_addr) in
  _rpc_addresses (self w) = _rpc_addresses (JsonProvider_init rpc_addr) /\
  _available_rpcs (self w) ⊆+ _rpc_addresses (self w) /\
  length (_available_rpcs (self w)) <= length (_rpc_addresses (self w)).
Proof.
  cbv zeta. destruct (run_lists acts (initial_world rpc_addr)) as [Hcand Havail].
  - destruct rpc_addr; reflexivity.
  - rewrite Hcand. split; [reflexivity|]. split; [exact Havail|].
    apply submseteq_length. exact Havail.
Qed.

(** X9.  A refresh sends one GET per candidate, in the order of the
    candidates, to the status page of each, with the timeout of the module;
    it sends no POST and never sleeps, and it leaves the candidates and the
    cooldown stamp as they are. *)
Theorem check_available_rpcs_requests (w : world) :
  let out := check_available_rpcs w in
  gets_of (trace out.2) =
    gets_of (trace w) ++
    ((fun a => ((a ++ "/status")%string, TIMEOUT_WAIT_RPC)) <$> _rpc_addresses (self w)) /\
  posts_of (trace out.2) = posts_of (trace w) /\
  slept (trace out.2) = slept (trace w) /\
  gets out.2 = gets w + length (_rpc_addresses (self w)) /\
  posts out.2 = posts w /\
  _rpc_addresses (self out.2) = _rpc_addresses (self w) /\
  _last_rpc_addr_check (self out.2) = _last_rpc_addr_check (self w).
Proof.
  cbv zeta. rewrite check_available_rpcs_run. cbn [snd self trace gets posts
    _rpc_addresses _last_rpc_addr_check].
  destruct (probe_events_requests (_available_rpcs (self w)) (gets w)
              (_rpc_addresses (self w))) as (Hg & Hp & Hs).
  rewrite gets_of_app, posts_of_app, slept_app, Hg, Hp, Hs, app_nil_r, Z.add_0_r.
  repeat split.
Qed.

End DispatchProperties.

(** ** A call among the other coroutines

    Between two segments of a call the event loop runs other coroutines, a
    refresh among them.  A run of a call is therefore a sequence of its
    segments in which each segment starts in a world of its own: whatever the
    others have made of the world the last segment left. *)

Section CallSegments.

Variable net : network.
Variable TIMEOUT_WAIT_RPC : Z.
Variable issubclass : pyclass -> pyclass -> bool.

(** The events a segment appended to the trace it found. *)
Definition appended (w w' : world) : list event := drop (length (trace w)) (trace w').

(** [call_run d events tasks d']: the call goes from the state [d] to the
    state [d']; [events] are the events of its own segments, in order, and
    [tasks] the tasks these segments created. *)
Inductive call_run : dispatch_task -> list event -> list task -> dispatch_task -> Prop :=
| call_run_here d : call_run d [] [] d
| call_run_segment d w d' w' created a events tasks d'' :
    dispatch_segment net TIMEOUT_WAIT_RPC issubclass d w = Some (d', w', created, a) ->
    call_run d' events tasks d'' ->
    call_run d (appended w w' ++ events) (created ++ tasks) d''.

Lemma appended_app w w' tail : trace w' = trace w ++ tail -> appended w w' = tail.
Proof. unfold appended. intros ->. apply drop_app_length. Qed.

Lemma appended_same w w' : trace w' = trace w -> appended w w' = [].
Proof. intros H. apply appended_app. rewrite app_nil_r. exact H. Qed.

(** One segment of the request loop: one POST, to the next address of the
    list the loop iterates, with the payload and the timeout of the call. *)
Lemma requesting_segment snapshot rpc_addr todo j timeout w d' w' created a :
  dispatch_segment net TIMEOUT_WAIT_RPC issubclass
    (Requesting snapshot (rpc_addr :: todo) j timeout) w = Some (d', w', created, a) ->
  created = [] /\ a = None /\
  posts_of (appended w w') = [(rpc_addr, j, timeout)] /\
  gets_of (appended w w') = [] /\
  ((exists r, d' = Returned r) \/ d' = Requesting snapshot todo j timeout).
Proof.
  cbn [dispatch_segment]. rewrite post_try_run.
  destruct (post_outcome (post_reply net (posts w))) as [content | e].
  - intros [= <- <- <- <-].
    rewrite (appended_app _ _ [HttpPost rpc_addr j timeout]) by reflexivity.
    repeat split. left. eauto.
  - destruct (request_loop_catches issubclass e); intros [= <- <- <- <-].
    + rewrite (appended_app _ _ [HttpPost rpc_addr j timeout; Logged (Rpc_error e)])
        by (cbn; rewrite <- app_assoc; reflexivity).
      repeat split. right. reflexivity.
    + rewrite (appended_app _ _ [HttpPost rpc_addr j timeout]) by reflexivity.
      repeat split. left. eauto.
Qed.

(** The segments of a call that is in its request loop: its POSTs go to
    the addresses the loop has left, in order, and it sends no GET and creates
    no task. *)
Lemma requesting_run d events tasks d' :
  call_run d events tasks d' ->
  (forall snapshot todo j timeout,
     d = Requesting snapshot todo j timeout ->
     tasks = [] /\ gets_of events = [] /\
     exists k, k <= length todo /\
       posts_of events = ((fun addr => (addr, j, timeout)) <$> take k todo) /\
       ((exists r, d' = Returned r) \/ d' = Requesting snapshot (drop k todo) j timeout)) /\
  (forall r, d = Returned r -> events = [] /\ tasks = [] /\ d' = Returned r).
Proof.
  induction 1 as [ d | d w d1 w1 created a events tasks d2 Hseg Hrun [IHreq IHret] ].
  - split.
    + intros snapshot todo j timeout ->. split; [reflexivity|]. split; [reflexivity|].
      exists 0. rewrite take_0, drop_0. repeat split; [lia | right; reflexivity].
    + intros r ->. repeat split.
  - split.
    + intros snapshot todo j timeout ->. destruct todo as [ | rpc_addr todo ].
      * cbn in Hseg. injection Hseg as <- <- <- <-.
        destruct (IHret _ eq_refl) as (-> & -> & ->).
        rewrite appended_same by reflexivity.
        split; [reflexivity|]. split; [reflexivity|].
        exists 0. repeat split; [cbn; lia | left; eauto].
      * destruct (requesting_segment _ _ _ _ _ _ _ _ _ _ Hseg)
          as (-> & -> & Hposts & Hgets & [[r ->] | ->]).
        -- destruct (IHret _ eq_refl) as (-> & -> & ->).
           rewrite (app_nil_r (appended w w1)).
           split; [reflexivity|]. split; [exact Hgets|].
           exists 1. rewrite Hposts. cbn [take fmap list_fmap].
           repeat split; [cbn; lia | left; eauto].
        -- destruct (IHreq _ _ _ _ eq_refl) as (-> & Hg & k & Hk & Hp & Hend).
           split; [reflexivity|]. split; [rewrite gets_of_app, Hgets, Hg; reflexivity|].
           exists (S k). rewrite posts_of_app, Hposts, Hp.
           repeat split; [cbn; lia | exact Hend].
    + intros r ->. discriminate Hseg.
Qed.

Lemma posts_of_removal_log available rpc_addr r :
  posts_of (removal_log available rpc_addr r) = [].
Proof.
  unfold removal_log. destruct (rejection rpc_addr r); [|reflexivity].
  destruct (bool_decide (rpc_addr ∈ available)); reflexivity.
Qed.

(** The segments of a call that awaits its own refresh: no POST until the
    refresh is over, and then the POSTs of a request loop. *)
Lemma awaiting_run d events tasks d' :
  call_run d events tasks d' ->
  forall method params timeout r,
    d = Awaiting method params timeout r ->
    exists snapshot k,
      k <= length snapshot /\
      posts_of events = ((fun addr => (addr, envelope method params, timeout)) <$>
                           take k snapshot).
Proof.
  induction 1 as [ d | d w d1 w1 created a events tasks d2 Hseg Hrun IH ];
    intros method params timeout r ->.
  - exists [], 0. split; [cbn; lia | reflexivity].
  - cbn [dispatch_segment] in Hseg.
    destruct r as [ [ | rpc_addr todo ] available_rpcs | | e ]; cbn [refresh_segment] in Hseg;
      [| |discriminate Hseg|discriminate Hseg].
    + injection Hseg as <- <- <- <-.
      rewrite appended_same by reflexivity. cbn [app].
      unfold enter_loop in Hrun.
      match type of Hrun with context [is_empty ?l] => destruct (is_empty l) end.
      * destruct (proj2 (requesting_run _ _ _ _ Hrun) _ eq_refl) as (-> & _ & _).
        exists [], 0. split; [cbn; lia | reflexivity].
      * destruct (proj1 (requesting_run _ _ _ _ Hrun) _ _ _ _ eq_refl)
          as (_ & _ & k & Hk & Hp & _).
        eexists _, k. split; [exact Hk | exact Hp].
    + rewrite probe_run in Hseg.
      destruct (accepted (get_reply net (gets w))); injection Hseg as <- <- <- <-.
      * rewrite (appended_app _ _ [HttpGet (status_url rpc_addr) TIMEOUT_WAIT_RPC])
          by reflexivity.
        destruct (IH _ _ _ _ eq_refl) as (snapshot & k & Hk & Hp).
        exists snapshot, k. split; [exact Hk|]. rewrite posts_of_app, Hp. reflexivity.
      * rewrite (appended_app _ _ (HttpGet (status_url rpc_addr) TIMEOUT_WAIT_RPC ::
                                   removal_log (_available_rpcs (self w)) rpc_addr
                                     (get_reply net (gets w)))) by reflexivity.
        destruct (IH _ _ _ _ eq_refl) as (snapshot & k & Hk & Hp).
        exists snapshot, k. split; [exact Hk|].
        rewrite posts_of_app, Hp. cbn [posts_of]. rewrite posts_of_removal_log. reflexivity.
Qed.

(** The segments a call runs under the event loop form such a run, whatever
    the scheduler lets the other tasks do in between. *)
Lemma sys_step_call_run s s' :
  rtc (sys_step net TIMEOUT_WAIT_RPC issubclass) s s' ->
  forall i d,
    pool s !! i = Some (DispatchTask d) ->
    exists events tasks d',
      pool s' !! i = Some (DispatchTask d') /\ call_run d events tasks d'.
Proof.
  induction 1 as [ s | s s1 s' Hstep _ IH ]; intros i d Hi.
  - exists [], [], d. split; [exact Hi | constructor].
  - assert (Hlen : i < length (pool s)) by (eapply lookup_lt_Some; exact Hi).
    destruct Hstep as [ s j t t' w' created a Hj Hseg | s method params timeout | s ].
    + destruct (decide (i = j)) as [-> | Hij].
      * rewrite Hi in Hj. injection Hj as <-. cbn [task_segment] in Hseg.
        destruct (dispatch_segment net TIMEOUT_WAIT_RPC issubclass d (shared s))
          as [[[[d1 w1] created1] a1]|] eqn:Hd; [|discriminate Hseg].
        injection Hseg as <- <- <- <-.
        destruct (IH j d1) as (events & tasks & d' & Hpool & Hrun).
        { cbn [pool]. rewrite lookup_app_l by (rewrite length_insert; exact Hlen).
          apply list_lookup_insert_eq. exact Hlen. }
        exists (appended (shared s) w1 ++ events), (created1 ++ tasks), d'.
        split; [exact Hpool | econstructor; eassumption].
      * apply IH. cbn [pool]. rewrite lookup_app_l by (rewrite length_insert; exact Hlen).
        rewrite list_lookup_insert_ne by congruence. exact Hi.
    + apply IH. cbn [pool]. rewrite lookup_app_l by exact Hlen. exact Hi.
    + apply IH. cbn [pool]. rewrite lookup_app_l by exact Hlen. exact Hi.
Qed.

(** X1.  A call that finds a list that is not empty never waits for a
    refresh.  Its first segment goes straight to the request loop on the list
    it found; when a refresh is due, that segment stores the stamp and creates
    the task of the refresh, and does no more about it.  Whatever the other
    coroutines, the refresh among them, do between the segments of the call,
    none of its segments sends a GET or creates a task, and the call is in its
    request loop on that same list until it returns. *)
Theorem call_creates_refresh_task method params timeout (w : world)
    d1 w1 created a events tasks d' :
  _available_rpcs (self w) <> [] ->
  dispatch_segment net TIMEOUT_WAIT_RPC issubclass (Called method params timeout) w =
    Some (d1, w1, created, a) ->
  call_run d1 events tasks d' ->
  let due := refresh_due (self w) (clock net (ticks w)) in
  d1 = Requesting (_available_rpcs (self w)) (_available_rpcs (self w))
         (envelope method params) timeout /\
  appended w w1 = (if due then [CreateTask_check_available_rpcs] else []) /\
  created = (if due then [RefreshTask (Probing (_rpc_addresses (self w)) [])] else []) /\
  _last_rpc_addr_check (self w1) =
    (if due then clock net (S (ticks w)) else _last_rpc_addr_check (self w)) /\
  a = None /\
  gets_of events = [] /\
  tasks = [] /\
  ((exists r, d' = Returned r) \/
   exists todo,
     d' = Requesting (_available_rpcs (self w)) todo (envelope method params) timeout).
Proof.
  intros Hne Hseg Hrun. cbv zeta. cbn [dispatch_segment] in Hseg.
  assert (Hempty : is_empty (_available_rpcs (self w)) = false)
    by (destruct (_available_rpcs (self w)); [congruence | reflexivity]).
  rewrite Hempty in Hseg.
  assert (Hloop : forall w2,
            _available_rpcs (self w2) = _available_rpcs (self w) ->
            enter_loop method params timeout w2 =
            Requesting (_available_rpcs (self w)) (_available_rpcs (self w))
              (envelope method params) timeout).
  { intros w2 Hw2. unfold enter_loop. rewrite Hw2, Hempty. reflexivity. }
  destruct (refresh_due (self w) (clock net (ticks w))).
  - rewrite Hloop in Hseg by reflexivity. injection Hseg as <- <- <- <-.
    destruct (proj1 (requesting_run _ _ _ _ Hrun) _ _ _ _ eq_refl)
      as (-> & Hgets & k & _ & _ & Hend).
    rewrite (appended_app _ _ [CreateTask_check_available_rpcs]) by reflexivity.
    repeat split; try assumption.
    destruct Hend as [Hend | Hend]; [left; exact Hend | right; eauto].
  - rewrite Hloop in Hseg by reflexivity. injection Hseg as <- <- <- <-.
    destruct (proj1 (requesting_run _ _ _ _ Hrun) _ _ _ _ eq_refl)
      as (-> & Hgets & k & _ & _ & Hend).
    rewrite appended_same by reflexivity.
    repeat split; try assumption.
    destruct Hend as [Hend | Hend]; [left; exact Hend | right; eauto].
Qed.

(** X2.  The POSTs of a call.  Whatever the other coroutines do between
    the segments of a call, the POSTs its own segments send go to the first
    addresses of one list, in the order of that list and one POST per address
    at most, and every one of them carries the envelope of the call and its
    timeout.  When the call finds a list that is not empty, the list is the
    one it found, also when a refresh assigns another list before the call
    returns. *)
Theorem call_posts_to_its_snapshot method params timeout (w : world)
    d1 w1 created a events tasks d' :
  dispatch_segment net TIMEOUT_WAIT_RPC issubclass (Called method params timeout) w =
    Some (d1, w1, created, a) ->
  call_run d1 events tasks d' ->
  exists snapshot k,
    k <= length snapshot /\
    posts_of (appended w w1 ++ events) =
      ((fun addr => (addr, envelope method params, timeout)) <$> take k snapshot) /\
    (_available_rpcs (self w) <> [] -> snapshot = _available_rpcs (self w)).
Proof.
  intros Hseg Hrun. cbn [dispatch_segment] in Hseg.
  assert (Hloop : forall w2 (ev : list event),
            _available_rpcs (self w2) = _available_rpcs (self w) ->
            d1 = enter_loop method params timeout w2 ->
            appended w w1 = ev -> posts_of ev = [] ->
            exists snapshot k,
              k <= length snapshot /\
              posts_of (appended w w1 ++ events) =
                ((fun addr => (addr, envelope method params, timeout)) <$> take k snapshot) /\
              (_available_rpcs (self w) <> [] -> snapshot = _available_rpcs (self w))).
  { intros w2 ev Hw2 Hd1 Hev Hnone. rewrite posts_of_app, Hev, Hnone. cbn [app].
    unfold enter_loop in Hd1. rewrite Hw2 in Hd1.
    destruct (_available_rpcs (self w)) as [ | a0 l ] eqn:Hl; cbn [is_empty] in Hd1;
      subst d1.
    - destruct (proj2 (requesting_run _ _ _ _ Hrun) _ eq_refl) as (-> & _ & _).
      exists [], 0. split; [cbn; lia|]. split; [reflexivity | congruence].
    - destruct (proj1 (requesting_run _ _ _ _ Hrun) _ _ _ _ eq_refl)
        as (_ & _ & k & Hk & Hp & _).
      exists (a0 :: l), k. split; [exact Hk|]. split; [exact Hp | reflexivity]. }
  destruct (refresh_due (self w) (clock net (ticks w))).
  - destruct (is_empty (_available_rpcs (self w))) eqn:Hempty.
    + injection Hseg as <- <- <- <-.
      destruct (awaiting_run _ _ _ _ Hrun _ _ _ _ eq_refl) as (snapshot & k & Hk & Hp).
      exists snapshot, k. split; [exact Hk|]. split.
      * rewrite (appended_app _ _ [Logged No_RPC_available_rechecking]) by reflexivity.
        exact Hp.
      * intros Hne. destruct (_available_rpcs (self w)); [congruence | discriminate Hempty].
    + injection Hseg as <- <- <- <-.
      apply (Hloop (stamped net CreateTask_check_available_rpcs w)
               [CreateTask_check_available_rpcs]); try reflexivity.
      apply appended_app. reflexivity.
  - injection Hseg as <- <- <- <-.
    apply (Hloop (ticked w) []); try reflexivity.
    apply appended_same. reflexivity.
Qed.

End CallSegments.

(** ** The ranking is stable *)

Section RankingStability.

Context {A : Type} (key : A -> Q).

(** The entries whose key equals [q]. *)
Definition tie (q : Q) (x : A) : bool := Qeq_bool (key x) q.

Lemma insert_sorted_tie q x l :
  List.filter (tie q) (insert_sorted key x l) = List.filter (tie q) (x :: l).
Proof.
  induction l as [ | y l IH ]; cbn [insert_sorted]; [reflexivity|].
  destruct (Qltb (key y) (key x)) eqn:Hlt; [|reflexivity].
  cbn [List.filter] in *. rewrite IH.
  destruct (tie q x) eqn:Hx; destruct (tie q y) eqn:Hy; try reflexivity.
  exfalso. apply Qltb_lt in Hlt. unfold tie in Hx, Hy.
  apply Qeq_bool_iff in Hx, Hy. lra.
Qed.

(** X10.  [sorted] never reorders entries of equal key: for every latency,
    the endpoints measured at that latency come out of the ranking in the
    order in which the probes appended them, which is the order of the
    candidates. *)
Theorem sorted_stable (q : Q) (l : list A) :
  List.filter (tie q) (sorted key l) = List.filter (tie q) l.
Proof.
  induction l as [ | x l IH ]; [reflexivity|].
  change (sorted key (x :: l)) with (insert_sorted key x (sorted key l)).
  rewrite insert_sorted_tie. cbn [List.filter]. rewrite IH. reflexivity.
Qed.

End RankingStability.

(** ** The fallback of [send_tx_and_wait] *)

Section FallbackProperties.

Variable net : network.
Variable TIMEOUT_WAIT_RPC : Z.
Variable ERROR_CODE_TO_EXCEPTION : gmap string pyclass.
Variable issubclass : pyclass -> pyclass -> bool.
Variable TransactionResult : Type.
Variable TransactionResult_init : json -> result TransactionResult.

Local Notation call_rpc_request := (call_rpc_request net TIMEOUT_WAIT_RPC issubclass).
Local Notation json_rpc := (json_rpc net TIMEOUT_WAIT_RPC ERROR_CODE_TO_EXCEPTION issubclass).
Local Notation get_tx :=
  (get_tx net TIMEOUT_WAIT_RPC ERROR_CODE_TO_EXCEPTION issubclass TransactionResult
     TransactionResult_init).
Local Notation poll :=
  (poll net TIMEOUT_WAIT_RPC ERROR_CODE_TO_EXCEPTION issubclass TransactionResult
     TransactionResult_init).
Local Notation send_tx_and_wait :=
  (send_tx_and_wait net TIMEOUT_WAIT_RPC ERROR_CODE_TO_EXCEPTION issubclass
     TransactionResult TransactionResult_init).
Local Notation isinstance := (isinstance issubclass).

(** [json_rpc] and [get_tx] leave the world [call_rpc_request] leaves. *)
Lemma json_rpc_world method params timeout w :
  (json_rpc method params timeout w).2 = (call_rpc_request method params timeout w).2.
Proof.
  unfold json_rpc. unfold mbind, M_bind.
  destruct (call_rpc_request method params timeout w) as [[content | e] w1]; reflexivity.
Qed.

Lemma get_tx_world tx_hash tx_recipient_id w :
  (get_tx tx_hash tx_recipient_id w).2 =
  (call_rpc_request "tx" (JArr [JStr tx_hash; JStr tx_recipient_id]) TIMEOUT_WAIT_RPC w).2.
Proof.
  unfold get_tx. unfold mbind at 1. unfold M_bind at 1.
  rewrite <- json_rpc_world.
  destruct (json_rpc "tx" _ TIMEOUT_WAIT_RPC w) as [[r | e] w1]; reflexivity.
Qed.

Lemma call_rpc_request_slept method params timeout w :
  slept (trace (call_rpc_request method params timeout w).2) = slept (trace w).
Proof.
  rewrite call_rpc_request_run. cbv zeta.
  destruct (freshness_check_requests net TIMEOUT_WAIT_RPC w) as (tail & Htrace & _ & Hs & _).
  set (w1 := (freshness_check net TIMEOUT_WAIT_RPC w).2) in *.
  destruct (is_empty (_available_rpcs (self w1))).
  - cbn [snd]. rewrite Htrace, slept_app, Hs. lia.
  - destruct (request_loop_requests net issubclass (_available_rpcs (self w1))
                (envelope method params) timeout w1) as (k & tail' & _ & Htrace' & _ & _ & Hs' & _).
    rewrite Htrace', Htrace, !slept_app, Hs, Hs'. lia.
Qed.

(** The polls sleep three seconds each, and there are no more than [n]. *)
Lemma poll_slept n trx_hash receiver_id :
  forall w,
    exists k, k <= n /\
      slept (trace (poll n trx_hash receiver_id w).2) = (slept (trace w) + 3 * Z.of_nat k)%Z.
Proof.
  induction n as [ | n IH ]; intros w.
  - exists 0. split; [lia|]. cbn. lia.
  - rewrite poll_S.
    pose proof (get_tx_world trx_hash receiver_id (with_event (Sleep 3) w)) as Hworld.
    pose proof (call_rpc_request_slept "tx" (JArr [JStr trx_hash; JStr receiver_id])
                  TIMEOUT_WAIT_RPC (with_event (Sleep 3) w)) as Hslept.
    rewrite <- Hworld in Hslept.
    assert (Hone : slept (trace (with_event (Sleep 3) w)) = (slept (trace w) + 3)%Z).
    { unfold with_event. cbn [trace]. rewrite slept_app. cbn. lia. }
    destruct (get_tx trx_hash receiver_id (with_event (Sleep 3) w)) as [[result | e] w1];
      cbn [snd] in Hslept.
    + exists 1. split; [lia|]. cbn [snd]. lia.
    + destruct (IH w1) as (k & Hk & Hs). exists (S k). split; [lia|]. rewrite Hs. lia.
Qed.

(** The coroutine by the cases of its [try] statement. *)
Lemma send_tx_and_wait_run signed_tx timeout trx_hash receiver_id (w : world) :
  send_tx_and_wait signed_tx timeout trx_hash receiver_id w =
  match json_rpc "broadcast_tx_commit" (JArr [JStr signed_tx]) timeout w with
  | (Ok r, w0) => (Ok (inl r), w0)
  | (Raise e, w0) =>
      if isinstance e RPCTimeoutError && (supplied receiver_id && supplied trx_hash) then
        match poll (Z.to_nat (TIMEOUT_WAIT_RPC / 3)) (default "" trx_hash)
                (default "" receiver_id) w0 with
        | (Ok (Some result), w1) => (Ok (inr result), w1)
        | (Ok None, w1) => (Raise e, w1)
        | (Raise e', w1) => (Raise e', w1)
        end
      else (Raise e, w0)
  end.
Proof.
  unfold send_tx_and_wait.
  unfold mbind at 1. unfold M_bind at 1. unfold try_ at 1.
  destruct (json_rpc "broadcast_tx_commit" (JArr [JStr signed_tx]) timeout w)
    as [[r | e] w0]; [reflexivity|].
  destruct (isinstance e RPCTimeoutError); [|reflexivity].
  destruct (supplied receiver_id && supplied trx_hash); [|reflexivity].
  cbn [andb]. unfold mbind, M_bind, max_polls.
  destruct (poll _ _ _ w0) as [[[result | ] | e'] w1]; reflexivity.
Qed.

(** X11.  The time [send_tx_and_wait] spends asleep.  The coroutine sleeps
    three seconds per poll and polls no more than [TIMEOUT_WAIT_RPC // 3]
    times, so it never sleeps longer than [TIMEOUT_WAIT_RPC] seconds in all
    (not at all when the constant is below 3); and it does not sleep when it
    returns the result of the broadcast. *)
Theorem send_tx_and_wait_sleeps signed_tx timeout trx_hash receiver_id (w : world) :
  let out := send_tx_and_wait signed_tx timeout trx_hash receiver_id w in
  (exists k, k <= Z.to_nat (TIMEOUT_WAIT_RPC / 3) /\
     slept (trace out.2) = (slept (trace w) + 3 * Z.of_nat k)%Z) /\
  (slept (trace w) <= slept (trace out.2) <= slept (trace w) + Z.max 0 TIMEOUT_WAIT_RPC)%Z /\
  (forall r, out.1 = Ok (inl r) -> slept (trace out.2) = slept (trace w)).
Proof.
  cbv zeta. rewrite send_tx_and_wait_run.
  pose proof (call_rpc_request_slept "broadcast_tx_commit" (JArr [JStr signed_tx]) timeout w)
    as Hbroadcast.
  rewrite <- json_rpc_world in Hbroadcast.
  destruct (json_rpc "broadcast_tx_commit" (JArr [JStr signed_tx]) timeout w)
    as [[r | e] w0]; cbn [snd] in Hbroadcast.
  - cbn [fst snd]. rewrite Hbroadcast.
    split; [exists 0; split; lia|]. split; [lia | reflexivity].
  - destruct (isinstance e RPCTimeoutError && (supplied receiver_id && supplied trx_hash)).
    + destruct (poll_slept (Z.to_nat (TIMEOUT_WAIT_RPC / 3)) (default "" trx_hash)
                  (default "" receiver_id) w0) as (k & Hk & Hs).
      assert (Hbound : (3 * Z.of_nat k <= Z.max 0 TIMEOUT_WAIT_RPC)%Z).
      { pose proof (Z.mul_div_le TIMEOUT_WAIT_RPC 3 ltac:(lia)).
        destruct (Z_lt_le_dec (TIMEOUT_WAIT_RPC / 3) 0); lia. }
      destruct (poll _ _ _ w0) as [[[result | ] | e'] w1]; cbn [fst snd] in *;
        (split; [exists k; split; [exact Hk | lia]|]); (split; [lia|]); discriminate.
    + cbn [fst snd]. rewrite Hbroadcast.
      split; [exists 0; split; lia|]. split; [lia | discriminate].
Qed.

(** X12.  The fallback needs a timeout, a hash and a receiver.  When the
    broadcast returns, when it raises anything but an [RPCTimeoutError], or
    when the hash or the receiver is missing or empty, [send_tx_and_wait]
    does what the broadcast does and nothing more: the same outcome in the
    same world, with no sleep and no lookup. *)
Theorem send_tx_and_wait_without_fallback signed_tx timeout trx_hash receiver_id (w : world) :
  let broadcast := json_rpc "broadcast_tx_commit" (JArr [JStr signed_tx]) timeout w in
  let out := send_tx_and_wait signed_tx timeout trx_hash receiver_id w in
  (forall r, broadcast.1 = Ok r -> out = (Ok (inl r), broadcast.2)) /\
  (forall e,
     broadcast.1 = Raise e ->
     isinstance e RPCTimeoutError = false \/
     supplied trx_hash = false \/ supplied receiver_id = false ->
     out = (Raise e, broadcast.2)).
Proof.
  cbv zeta. rewrite send_tx_and_wait_run.
  destruct (json_rpc "broadcast_tx_commit" (JArr [JStr signed_tx]) timeout w)
    as [[r | e] w0]; cbn [fst snd].
  - split; [|discriminate]. intros r' [= <-]. reflexivity.
  - split; [discriminate|]. intros e' [= <-] Hcase.
    assert (Hno : isinstance e RPCTimeoutError && (supplied receiver_id && supplied trx_hash)
                  = false).
    { destruct Hcase as [-> | [-> | ->]]; [reflexivity | |].
      - rewrite andb_false_r, andb_false_r. reflexivity.
      - rewrite andb_false_l, andb_false_r. reflexivity. }
    rewrite Hno. reflexivity.
Qed.

End FallbackProperties.

(** * [get_status] ([providers.py], lines 202-224)

    The coroutine asks the endpoints of the available list for their status
    page, in the order of the list, and returns the first page of a node that
    is in sync.  It shares the world of the other coroutines; the exceptions
    it hands to [logger.exception] are collected beside the world. *)

Section GetStatus.

Variable net : network.
Variable TIMEOUT_WAIT_RPC : Z.

(** [repr] of a list of strings, for the message of line 224. *)
Variable list_repr : list string -> string.

(** The body of the [try], lines 206-213: [Some data] when the coroutine
    returns [data], [None] when the iteration ends without a [return]. *)
Definition status_try (rpc_addr : string) : M (option json) :=
  r ← session_get net (rpc_addr ++ "/status")%string TIMEOUT_WAIT_RPC;
  if (status r =? 200)%Z then
    data ← response_json r;
    sync_info ← lift (getitem data "sync_info");
    syncing ← lift (getitem sync_info "syncing");
    if negb (truthy syncing) then mret (Some data) else mret None
  else mret None.

(** The first [except] clause, lines 214-219. *)
Definition get_status_catches (e : exn) : bool :=
  match e with
  | ClientResponseError _ => true
  | ClientConnectorError _ => true
  | ServerDisconnectedError _ => true
  | ConnectionError _ => true
  | RpcNotAvailableError _ => false
  | RpcError _ _ _ => false
  | PyException _ _ => false
  end.

(** The loop of lines 204-222; [exceptions] holds what [logger.exception]
    was called with so far. *)
Fixpoint get_status_loop (rpcs : list string) (w : world) (exceptions : list exn)
  : option json * world * list exn :=
  match rpcs with
  | [] => (None, w, exceptions)
  | rpc_addr :: rest =>
      match status_try rpc_addr w with
      | (Ok (Some data), w') => (Some data, w', exceptions)
      | (Ok None, w') => get_status_loop rest w' exceptions
      | (Raise e, w') =>
          if get_status_catches e then
            get_status_loop rest (with_event (Logged (Rpc_error e)) w') exceptions
          else get_status_loop rest w' (exceptions ++ [e])
      end
  end.

Definition get_status (w : world) : result json * world * list exn :=
  let '(found, w', exceptions) := get_status_loop (_available_rpcs (self w)) w [] in
  (match found with
   | Some data => Ok data
   | None =>
       Raise (RpcNotAvailableError
                ("RPC not available " ++ list_repr (_available_rpcs (self w')))%string)
   end, w', exceptions).

(** What one iteration makes of the reply to its GET. *)
Definition status_outcome (r : reply) : result (option json) :=
  match r with
  | Raises e => Raise e
  | Responds r =>
      if (status r =? 200)%Z then
        data ← body r;
        syncing ← syncing_of data;
        if negb (truthy syncing) then Ok (Some data) else Ok None
      else Ok None
  end.

Lemma status_try_run rpc_addr w :
  status_try rpc_addr w =
  (status_outcome (get_reply net (gets w)),
   {| self := self w; gets := S (gets w); posts := posts w; ticks := ticks w;
      trace := trace w ++ [HttpGet (status_url rpc_addr) TIMEOUT_WAIT_RPC] |}).
Proof.
  unfold status_try, status_outcome, syncing_of, status_url.
  unfold mbind at 1. unfold M_bind at 1. unfold session_get.
  destruct (get_reply net (gets w)) as [e | r]; [reflexivity|].
  destruct (status r =? 200)%Z; [|reflexivity].
  run_M. destruct (body r) as [data | e]; run_M; [|reflexivity].
  destruct (getitem data "sync_info") as [sync_info | e]; run_M; [|reflexivity].
  destruct (getitem sync_info "syncing") as [syncing | e]; run_M; [|reflexivity].
  destruct (truthy syncing); reflexivity.
Qed.

(** The page is returned exactly when the probe of a refresh would accept
    the endpoint. *)
Lemma status_outcome_accepted r :
  (accepted r = true ->
   exists rsp data, r = Responds rsp /\ body rsp = Ok data /\
                    status_outcome r = Ok (Some data)) /\
  (accepted r = false -> forall data, status_outcome r <> Ok (Some data)).
Proof.
  destruct r as [e | rsp]; cbn.
  - split; [discriminate|]. intros _ data. discriminate.
  - destruct (status rsp =? 200)%Z; cbn; [|split; [discriminate | intros _ data; discriminate]].
    destruct (body rsp) as [data | e] eqn:Hbody; cbn;
      [|split; [discriminate | intros _ data; discriminate]].
    destruct (syncing_of data) as [syncing | e]; cbn;
      [|split; [discriminate | intros _ data'; discriminate]].
    destruct (truthy syncing); cbn.
    + split; [discriminate | intros _ data'; discriminate].
    + split; [|discriminate]. intros _. exists rsp, data. repeat split. exact Hbody.
Qed.

(** While the endpoints are not accepted the loop goes on: it sends one GET
    per endpoint and nothing else, and leaves the provider as it is. *)
Lemma get_status_loop_skips rejected rest :
  forall w exceptions,
    (forall i, i < length rejected -> accepted (get_reply net (gets w + i)) = false) ->
    exists w' exceptions' tail,
      get_status_loop (rejected ++ rest) w exceptions = get_status_loop rest w' exceptions' /\
      self w' = self w /\ gets w' = gets w + length rejected /\ posts w' = posts w /\
      trace w' = trace w ++ tail /\
      gets_of tail = ((fun a => (status_url a, TIMEOUT_WAIT_RPC)) <$> rejected) /\
      posts_of tail = [] /\ slept tail = 0%Z.
Proof.
  induction rejected as [ | a rejected IH ]; intros w exceptions Hrej.
  - exists w, exceptions, []. cbn. rewrite app_nil_r, Nat.add_0_r. repeat split.
  - pose proof (Hrej 0 ltac:(cbn; lia)) as Hfirst. rewrite Nat.add_0_r in Hfirst.
    destruct (status_outcome_accepted (get_reply net (gets w))) as [_ Hnot].
    specialize (Hnot Hfirst).
    cbn [app get_status_loop]. rewrite status_try_run.
    set (w1 := {| self := self w; gets := S (gets w); posts := posts w; ticks := ticks w;
                  trace := trace w ++ [HttpGet (status_url a) TIMEOUT_WAIT_RPC] |}).
    assert (Hnext : forall w2 exceptions2 extra,
              self w2 = self w -> gets w2 = S (gets w) -> posts w2 = posts w ->
              trace w2 = trace w1 ++ extra ->
              gets_of extra = [] -> posts_of extra = [] -> slept extra = 0%Z ->
              exists w' exceptions' tail,
                get_status_loop (rejected ++ rest) w2 exceptions2 =
                  get_status_loop rest w' exceptions' /\
                self w' = self w /\ gets w' = gets w + length (a :: rejected) /\
                posts w' = posts w /\ trace w' = trace w ++ tail /\
                gets_of tail =
                  ((fun a => (status_url a, TIMEOUT_WAIT_RPC)) <$> a :: rejected) /\
                posts_of tail = [] /\ slept tail = 0%Z).
    { intros w2 exceptions2 extra Hself Hgets Hposts Htrace Hg Hp Hs.
      destruct (IH w2 exceptions2) as (w' & exceptions' & tail & Hloop & Hself' & Hgets' &
                                       Hposts' & Htrace' & Hg' & Hp' & Hs').
      - intros i Hi. rewrite Hgets. replace (S (gets w) + i) with (gets w + S i) by lia.
        apply Hrej. cbn. lia.
      - exists w', exceptions',
          (HttpGet (status_url a) TIMEOUT_WAIT_RPC :: extra ++ tail).
        split; [exact Hloop|]. split; [congruence|]. split; [cbn; lia|].
        split; [congruence|]. split.
        + rewrite Htrace', Htrace. unfold w1. cbn [trace]. rewrite <- !app_assoc. reflexivity.
        + cbn [gets_of posts_of slept fmap list_fmap].
          rewrite gets_of_app, posts_of_app, slept_app, Hg, Hp, Hs, Hg', Hp', Hs'.
          repeat split. }
    destruct (status_outcome (get_reply net (gets w))) as [[data | ] | e].
    + exfalso. apply (Hnot data). reflexivity.
    + apply (Hnext w1 exceptions []); try reflexivity. cbn. rewrite app_nil_r. reflexivity.
    + destruct (get_status_catches e).
      * apply (Hnext (with_event (Logged (Rpc_error e)) w1) exceptions [Logged (Rpc_error e)]);
          reflexivity.
      * apply (Hnext w1 (exceptions ++ [e]) []); try reflexivity.
        cbn. rewrite app_nil_r. reflexivity.
Qed.

(** X13.  [get_status] returns the first page of a node in sync.  When the
    endpoints before position [n] of the available list are not accepted
    (the request raised, the status is not 200, the body is not the expected
    JSON, or the node is syncing) and the endpoint at position [n] is, the
    coroutine returns the decoded body of that endpoint after one GET to each
    of these [n + 1] endpoints; it sends no POST and leaves the provider as
    it is. *)
Theorem get_status_first_in_sync (w : world) (n : nat) (rpc_addr : string) :
  _available_rpcs (self w) !! n = Some rpc_addr ->
  (forall i, i < n -> accepted (get_reply net (gets w + i)) = false) ->
  accepted (get_reply net (gets w + n)) = true ->
  let out := get_status w in
  exists rsp data,
    get_reply net (gets w + n) = Responds rsp /\ body rsp = Ok data /\
    out.1.1 = Ok data /\
    gets_of (trace out.1.2) =
      gets_of (trace w) ++
      ((fun a => (status_url a, TIMEOUT_WAIT_RPC)) <$> take (S n) (_available_rpcs (self w))) /\
    posts_of (trace out.1.2) = posts_of (trace w) /\
    self out.1.2 = self w.
Proof.
  intros Ha Hrej Hacc. cbv zeta.
  destruct (status_outcome_accepted (get_reply net (gets w + n))) as [Hyes _].
  destruct (Hyes Hacc) as (rsp & data & Hreply & Hbody & Hout).
  exists rsp, data. split; [exact Hreply|]. split; [exact Hbody|].
  assert (Hn : n < length (_available_rpcs (self w))) by (eapply lookup_lt_Some; exact Ha).
  assert (Hlen : length (take n (_available_rpcs (self w))) = n)
    by (rewrite length_take; lia).
  destruct (get_status_loop_skips (take n (_available_rpcs (self w)))
              (rpc_addr :: drop (S n) (_available_rpcs (self w))) w [])
    as (w' & exceptions' & tail & Hloop & Hself & Hgets & Hposts & Htrace & Hg & Hp & _).
  { rewrite Hlen. exact Hrej. }
  assert (Hrun : get_status w =
                 (Ok data,
                  {| self := self w'; gets := S (gets w'); posts := posts w';
                     ticks := ticks w';
                     trace := trace w' ++ [HttpGet (status_url rpc_addr) TIMEOUT_WAIT_RPC] |},
                  exceptions')).
  { unfold get_status. rewrite <- (take_drop_middle _ _ _ Ha) at 1.
    rewrite Hloop. cbn [get_status_loop]. rewrite status_try_run, Hgets, Hlen, Hout.
    reflexivity. }
  rewrite Hrun. cbn [fst snd trace self]. rewrite Htrace, <- app_assoc.
  rewrite !gets_of_app, !posts_of_app, Hg, Hp. cbn [gets_of posts_of].
  rewrite (take_S_r _ _ _ Ha), fmap_app, app_nil_r. repeat split. exact Hself.
Qed.

(** X14.  [get_status] fails with [RpcNotAvailableError] only.  When no
    endpoint of the available list is accepted (and so when the list is
    empty), the coroutine raises [RpcNotAvailableError], whatever each probe
    raised; it has sent one GET to each endpoint of the list, in order, no
    POST, and the provider is as it was: the endpoints that failed stay in
    the list. *)
Theorem get_status_none_in_sync (w : world) :
  (forall i, i < length (_available_rpcs (self w)) ->
             accepted (get_reply net (gets w + i)) = false) ->
  let out := get_status w in
  out.1.1 =
    Raise (RpcNotAvailableError
             ("RPC not available " ++ list_repr (_available_rpcs (self w)))%string) /\
  gets_of (trace out.1.2) =
    gets_of (trace w) ++
    ((fun a => (status_url a, TIMEOUT_WAIT_RPC)) <$> _available_rpcs (self w)) /\
  posts_of (trace out.1.2) = posts_of (trace w) /\
  self out.1.2 = self w.
Proof.
  intros Hrej. cbv zeta.
  destruct (get_status_loop_skips (_available_rpcs (self w)) [] w [] Hrej)
    as (w' & exceptions' & tail & Hloop & Hself & _ & _ & Htrace & Hg & Hp & _).
  rewrite app_nil_r in Hloop.
  assert (Hrun : get_status w =
                 (Raise (RpcNotAvailableError
                           ("RPC not available " ++ list_repr (_available_rpcs (self w)))%string),
                  w', exceptions')).
  { unfold get_status. rewrite Hloop. cbn [get_status_loop]. rewrite Hself. reflexivity. }
  rewrite Hrun. cbn [fst snd]. rewrite Htrace.
  rewrite gets_of_app, posts_of_app, Hg, Hp, app_nil_r. repeat split. exact Hself.
Qed.

End GetStatus.

(** * The query operations ([providers.py], lines 270-288 and 309-326)

    The arguments of an operation go into the request as they are: they
    are JSON values here. *)

Section Facade.

Variable net : network.
Variable TIMEOUT_WAIT_RPC : Z.
Variable ERROR_CODE_TO_EXCEPTION : gmap string pyclass.
Variable issubclass : pyclass -> pyclass -> bool.

(** [base64.b64encode(args).decode("utf8")]. *)
Variable b64encode : list Byte.byte -> string.

Local Notation call_rpc_request := (call_rpc_request net TIMEOUT_WAIT_RPC issubclass).
Local Notation json_rpc := (json_rpc net TIMEOUT_WAIT_RPC ERROR_CODE_TO_EXCEPTION issubclass).

(** The dict [body] of [view_call], lines 278-287. *)
Definition view_call_body (account_id method_name : json) (args : list Byte.byte)
    (finality block_id : json) : list (string * json) :=
  let body := [("request_type", JStr "call_function");
               ("account_id", account_id);
               ("method_name", method_name);
               ("args_base64", JStr (b64encode args))] in
  if truthy block_id then body ++ [("block_id", block_id)]
  else body ++ [("finality", finality)].

Definition view_call (account_id method_name : json) (args : list Byte.byte)
    (finality block_id : json) : M json :=
  json_rpc "query" (JObj (view_call_body account_id method_name args finality block_id))
    TIMEOUT_WAIT_RPC.

(** The dict [params] of [get_light_client_proof], lines 312-325. *)
Definition light_client_proof_params
    (outcome_type tx_or_receipt_id sender_or_receiver_id light_client_head : json)
  : list (string * json) :=
  if is_str "receipt" outcome_type then
    [("type", JStr "receipt");
     ("receipt_id", tx_or_receipt_id);
     ("receiver_id", sender_or_receiver_id);
     ("light_client_head", light_client_head)]
  else
    [("type", JStr "transaction");
     ("transaction_hash", tx_or_receipt_id);
     ("sender_id", sender_or_receiver_id);
     ("light_client_head", light_client_head)].

Definition get_light_client_proof
    (outcome_type tx_or_receipt_id sender_or_receiver_id light_client_head : json) : M json :=
  json_rpc "light_client_proof"
    (JObj (light_client_proof_params outcome_type tx_or_receipt_id sender_or_receiver_id
             light_client_head))
    TIMEOUT_WAIT_RPC.

(** The POSTs of [json_rpc] are those of [call_rpc_request]. *)
Lemma json_rpc_posts method params timeout (w : world) :
  let out := json_rpc method params timeout w in
  exists k,
    posts_of (trace out.2) =
      posts_of (trace w) ++
      ((fun a => (a, envelope method params, timeout)) <$>
         take k (_available_rpcs (self out.2))).
Proof.
  cbv zeta.
  destruct (call_rpc_request_posts net TIMEOUT_WAIT_RPC issubclass method params timeout w)
    as (k & _ & Hposts & _).
  exists k. unfold json_rpc. unfold mbind, M_bind.
  destruct (call_rpc_request method params timeout w) as [[content | e] w1]; exact Hposts.
Qed.

(** X15.  What [view_call] asks.  Every POST of the call carries the method
    ["query"] with a params object that names the block in one way only: by
    [block_id] when the argument is true, and by [finality] when it is
    [None], and also when it is [0], so that the block of height 0 cannot be
    asked for; in the first case the argument [finality] is ignored. *)
Theorem view_call_names_one_block account_id method_name args finality block_id (w : world) :
  let out := view_call account_id method_name args finality block_id w in
  exists k params,
    posts_of (trace out.2) =
      posts_of (trace w) ++
      ((fun a => (a, envelope "query" (JObj params), TIMEOUT_WAIT_RPC)) <$>
         take k (_available_rpcs (self out.2))) /\
    dict_get params "request_type" = Some (JStr "call_function") /\
    dict_get params "args_base64" = Some (JStr (b64encode args)) /\
    dict_get params "block_id" = (if truthy block_id then Some block_id else None) /\
    dict_get params "finality" = (if truthy block_id then None else Some finality) /\
    (block_id = JInt 0 \/ block_id = JNull -> dict_get params "finality" = Some finality).
Proof.
  cbv zeta. unfold view_call.
  destruct (json_rpc_posts "query"
              (JObj (view_call_body account_id method_name args finality block_id))
              TIMEOUT_WAIT_RPC w) as (k & Hposts).
  exists k, (view_call_body account_id method_name args finality block_id).
  split; [exact Hposts|]. unfold view_call_body.
  destruct (truthy block_id) eqn:Htruthy; cbn; repeat split.
  intros [-> | ->]; discriminate Htruthy.
Qed.

(** X16.  What [get_light_client_proof] asks.  The proof of a receipt is
    asked for only when [outcome_type] is the string ["receipt"]; with any
    other value the POSTs ask for the proof of a transaction, with the
    identifier as [transaction_hash] and the account as [sender_id]. *)
Theorem get_light_client_proof_type outcome_type id account head (w : world) :
  let out := get_light_client_proof outcome_type id account head w in
  exists k params,
    posts_of (trace out.2) =
      posts_of (trace w) ++
      ((fun a => (a, envelope "light_client_proof" (JObj params), TIMEOUT_WAIT_RPC)) <$>
         take k (_available_rpcs (self out.2))) /\
    (outcome_type = JStr "receipt" ->
     params = [("type", JStr "receipt"); ("receipt_id", id); ("receiver_id", account);
               ("light_client_head", head)]) /\
    (outcome_type <> JStr "receipt" ->
     params = [("type", JStr "transaction"); ("transaction_hash", id); ("sender_id", account);
               ("light_client_head", head)]).
Proof.
  cbv zeta. unfold get_light_client_proof.
  destruct (json_rpc_posts "light_client_proof"
              (JObj (light_client_proof_params outcome_type id account head))
              TIMEOUT_WAIT_RPC w) as (k & Hposts).
  exists k, (light_client_proof_params outcome_type id account head).
  split; [exact Hposts|]. unfold light_client_proof_params. split.
  - intros ->. reflexivity.
  - intros Hne. destruct outcome_type as [ | b | z | f | s | elems | items ]; try reflexivity.
    cbn [is_str]. destruct (String.eqb s "receipt") eqn:Hs; [|reflexivity].
    apply String.eqb_eq in Hs. congruence.
Qed.

End Facade.

(** * More of Python: methods of a dict and the binding of keyword arguments *)

(** [v.items()]: only a dict has the method. *)
Definition items_method (v : json) : result (list (string * json)) :=
  match v with
  | JObj items => Ok items
  | _ => Raise (PyException "AttributeError" "items")
  end.

(** [l[0]]. *)
Definition first_item {A : Type} (l : list A) : result A :=
  match l with
  | x :: _ => Ok x
  | [] => Raise (PyException "IndexError" "list index out of range")
  end.

(** * [models.py]: reading the logs again, and the error of an outcome *)

Module ModelsProperties.

Import Models.

Section Logs.

Variable TransactionData : Type.

Local Notation TransactionResult := (TransactionResult TransactionData).

(** The store after [n] reads of the property [logs]. *)
Definition after_reads (n : nat) (self : TransactionResult) (h : store) : store :=
  Nat.iter n (fun h => (read_logs TransactionData self h).2) h.

Lemma concat_replicate_comm {A : Type} (n : nat) (l : list A) :
  concat (replicate n l) ++ l = l ++ concat (replicate n l).
Proof.
  induction n as [ | n IH ]; cbn; [rewrite app_nil_r; reflexivity|].
  rewrite <- app_assoc, IH. reflexivity.
Qed.

(** After [n] reads the list object of the transaction outcome holds its
    own lines followed by [n] copies of the lines of the receipts; the other
    list objects are as they were. *)
Lemma after_reads_lines (self : TransactionResult) (h : store) (n : nat) :
  Forall (fun ro => logs ro <> logs (transaction_outcome TransactionData self))
    (receipt_outcome TransactionData self) ->
  lines (after_reads n self h) (logs (transaction_outcome TransactionData self)) =
    lines h (logs (transaction_outcome TransactionData self)) ++
    concat (replicate n (concat ((fun ro => lines h (logs ro)) <$>
                                   receipt_outcome TransactionData self))) /\
  forall l, l <> logs (transaction_outcome TransactionData self) ->
    lines (after_reads n self h) l = lines h l.
Proof.
  intros Hfresh. induction n as [ | n [IHown IHother] ].
  - cbn. rewrite app_nil_r. split; reflexivity.
  - change (after_reads (S n) self h)
      with ((read_logs TransactionData self (after_reads n self h)).2).
    unfold read_logs, TransactionResult_logs. cbn [snd].
    destruct (foldl_extend (logs (transaction_outcome TransactionData self))
                (receipt_outcome TransactionData self) (after_reads n self h) Hfresh)
      as [Hown Hother].
    split.
    + rewrite Hown, IHown, <- app_assoc. f_equal.
      replace ((fun ro => lines (after_reads n self h) (logs ro)) <$>
                 receipt_outcome TransactionData self)
        with ((fun ro => lines h (logs ro)) <$> receipt_outcome TransactionData self).
      * cbn [replicate concat]. apply concat_replicate_comm.
      * apply list_fmap_ext. intros i ro Hi. symmetry. apply IHother.
        apply list_elem_of_lookup_2 in Hi. rewrite Forall_forall in Hfresh.
        apply Hfresh. exact Hi.
    + intros l Hl. rewrite Hother by exact Hl. apply IHother. exact Hl.
Qed.

(** X17.  Every read of [logs] appends the logs of the receipts once more.
    On a result whose receipt outcomes hold list objects other than the one
    of the transaction outcome, the read that follows [n] earlier reads
    returns the lines of the transaction outcome followed by [n + 1] copies
    of the lines of the receipts: the list grows by the logs of the receipts
    at each read. *)
Theorem logs_grow_with_each_read (self : TransactionResult) (h : store) (n : nat) :
  Forall (fun ro => logs ro <> logs (transaction_outcome TransactionData self))
    (receipt_outcome TransactionData self) ->
  let own := lines h (logs (transaction_outcome TransactionData self)) in
  let receipts :=
    concat ((fun ro => lines h (logs ro)) <$> receipt_outcome TransactionData self) in
  (read_logs TransactionData self (after_reads n self h)).1 =
    own ++ concat (replicate (S n) receipts) /\
  length (read_logs TransactionData self (after_reads n self h)).1 =
    length own + S n * length receipts.
Proof.
  intros Hfresh. cbv zeta.
  destruct (after_reads_lines self h (S n) Hfresh) as [Hown _].
  assert (Hread : (read_logs TransactionData self (after_reads n self h)).1 =
                  lines (after_reads (S n) self h)
                    (logs (transaction_outcome TransactionData self))).
  { destruct (read_logs_first TransactionData self (after_reads n self h) Hfresh)
      as [Hfirst Hleft].
    rewrite Hfirst, <- Hleft. reflexivity. }
  rewrite Hread, Hown. split; [reflexivity|].
  rewrite length_app. f_equal.
  generalize (S n) as m. intros m. induction m as [ | m IH ]; [reflexivity|].
  cbn [replicate concat]. rewrite length_app, IH. lia.
Qed.

End Logs.

Section OutcomeError.

(** [parse_error] is imported from [sdk.py_near.exceptions.exceptions],
    which is not among the embedded files: the object it returns for an error
    type and its arguments, or the exception it raises. *)
Variable Error : Type.
Variable parse_error : string -> json -> result Error.

(** The property [error] of [ReceiptOutcome], lines 55-61; a property
    that ends without a [return] gives [None]. *)
Definition ReceiptOutcome_error (self : ReceiptOutcome) : result (option Error) :=
  has_failure ← contains (status self) "Failure";
  if has_failure : bool then
    failure ← getitem (status self) "Failure";
    action_error ← getitem failure "ActionError";
    kind ← getitem action_error "kind";
    items ← items_method kind;
    first ← first_item items;
    error ← parse_error first.1 first.2;
    mret (Some error)
  else mret None.

(** X18.  What [error] makes of the status of an outcome.  On a status
    without ["Failure"] the property is [None].  On a failure that is not an
    action error (an invalid transaction, say) the property raises
    [KeyError]; on an action error whose kind is not a mapping (a kind with
    no arguments is a plain string) it raises [AttributeError]; and on a kind
    that is a mapping it is what [parse_error] makes of the first entry. *)
Theorem ReceiptOutcome_error_cases (self : ReceiptOutcome) (items : list (string * json)) :
  status self = JObj items ->
  (dict_get items "Failure" = None -> ReceiptOutcome_error self = Ok None) /\
  (forall failure,
     dict_get items "Failure" = Some (JObj failure) ->
     dict_get failure "ActionError" = None ->
     ReceiptOutcome_error self = Raise (PyException "KeyError" "ActionError")) /\
  (forall failure action_error kind,
     dict_get items "Failure" = Some (JObj failure) ->
     dict_get failure "ActionError" = Some (JObj action_error) ->
     dict_get action_error "kind" = Some kind ->
     (forall entries, kind <> JObj entries) ->
     ReceiptOutcome_error self = Raise (PyException "AttributeError" "items")) /\
  (forall failure action_error error_type args rest,
     dict_get items "Failure" = Some (JObj failure) ->
     dict_get failure "ActionError" = Some (JObj action_error) ->
     dict_get action_error "kind" = Some (JObj ((error_type, args) :: rest)) ->
     ReceiptOutcome_error self =
       (error ← parse_error error_type args; mret (Some error))).
Proof.
  intros Hstatus. unfold ReceiptOutcome_error. rewrite Hstatus.
  split; [|split; [|split]].
  - intros Hnone. cbn [contains]. rewrite Hnone.
    rewrite bool_decide_eq_false_2 by (intros [? ?]; discriminate). reflexivity.
  - intros failure Hfailure Haction.
    rewrite (dict_get_contains _ _ _ Hfailure), result_bind_Ok.
    rewrite (dict_get_getitem _ _ _ Hfailure), result_bind_Ok.
    cbn [getitem]. rewrite Haction. reflexivity.
  - intros failure action_error kind Hfailure Haction Hkind Hnot.
    rewrite (dict_get_contains _ _ _ Hfailure), result_bind_Ok.
    rewrite (dict_get_getitem _ _ _ Hfailure), result_bind_Ok.
    rewrite (dict_get_getitem _ _ _ Haction), result_bind_Ok.
    rewrite (dict_get_getitem _ _ _ Hkind), result_bind_Ok.
    destruct kind as [ | b | z | f | s | elems | entries ]; try reflexivity.
    exfalso. eapply Hnot. reflexivity.
  - intros failure action_error error_type args rest Hfailure Haction Hkind.
    rewrite (dict_get_contains _ _ _ Hfailure), result_bind_Ok.
    rewrite (dict_get_getitem _ _ _ Hfailure), result_bind_Ok.
    rewrite (dict_get_getitem _ _ _ Haction), result_bind_Ok.
    rewrite (dict_get_getitem _ _ _ Hkind), result_bind_Ok.
    reflexivity.
Qed.

End OutcomeError.

End ModelsProperties.

(** * [models.py]: the objects built from a decoded response

    The constructors and the [build] methods take decoded JSON; the
    attributes of the objects hold the decoded values. *)

(** [**v] in a call: the items of the mapping [v]. *)
Definition mapping_of (v : json) : result (list (string * json)) :=
  match v with
  | JObj items => Ok items
  | _ => Raise (PyException "TypeError" "argument after ** must be a mapping")
  end.

(** The binding of the keyword arguments [kwargs] to a method with the
    parameters [required] (no default), [optional] (with a default) and, when
    [var_keyword], a last parameter that collects the other keywords.  The
    first parameter of the method is [self], which is bound already.  A
    keyword that fits no parameter is refused first, then a parameter left
    without a value. *)
Definition bind_kwargs (required optional : list string) (var_keyword : bool)
    (kwargs : list (string * json)) : result unit :=
  match List.find (fun k => bool_decide (k = "self") ||
                            negb var_keyword && negb (bool_decide (k ∈ required ++ optional)))
          kwargs.*1 with
  | Some k => Raise (PyException "TypeError" k)
  | None =>
      match List.find (fun k => negb (bool_decide (k ∈ kwargs.*1))) required with
      | Some k => Raise (PyException "TypeError" k)
      | None => Ok tt
      end
  end.

(** The value bound to the parameter [k], [None] when it is left to its
    default. *)
Definition argument (kwargs : list (string * json)) (k : string) : json :=
  default JNull (dict_get kwargs k).

(** [for x in v]: the elements of a list, the keys of a dict, the
    characters of a str. *)
Definition py_iter (v : json) : result (list json) :=
  match v with
  | JArr elems => Ok elems
  | JObj items => Ok (JStr <$> items.*1)
  | JStr s => Ok ((fun c => JStr (String c EmptyString)) <$> list_ascii_of_string s)
  | _ => Raise (PyException "TypeError" "object is not iterable")
  end.

Module Decoding.

(** [PublicKeyPermissionType], lines 76-78. *)
Inductive PublicKeyPermissionType : Type :=
| FULL_ACCESS
| FUNCTION_CALL.

(** [AccessKey], lines 306-326 (the second definition of the class, which
    is the one the module holds once it is loaded). *)
Module AccessKey.

Record t : Type := {
  permission_type : PublicKeyPermissionType;
  nonce : json;
  allowance : json;
  receiver_id : json;
  method_names : json
}.

Definition build (data : json) : result t :=
  permission ← getitem data "permission";
  if is_str "FullAccess" permission then
    nonce ← getitem data "nonce";
    mret {| permission_type := FULL_ACCESS; nonce := nonce; allowance := JNull;
            receiver_id := JNull; method_names := JNull |}
  else
    items ← items_method permission;
    first ← first_item items;
    nonce ← getitem data "nonce";
    permission_data ← mapping_of first.2;
    bind_kwargs [] ["allowance"; "receiver_id"; "method_names"] false permission_data;;
    mret {| permission_type := FUNCTION_CALL; nonce := nonce;
            allowance := argument permission_data "allowance";
            receiver_id := argument permission_data "receiver_id";
            method_names := argument permission_data "method_names" |}.

End AccessKey.

(** [ReceiptOutcome.__init__], lines 47-53; the attribute [executor_id] of
    the class body is never set. *)
Module ReceiptOutcome.

Record t : Type := {
  logs : json;
  metadata : json;
  receipt_ids : json;
  status : json;
  tokens_burnt : json;
  gas_burnt : json
}.

Definition init (data : json) : result t :=
  logs ← getitem data "outcome" ≫= (fun outcome => getitem outcome "logs");
  metadata ← getitem data "outcome" ≫= (fun outcome => getitem outcome "metadata");
  receipt_ids ← getitem data "outcome" ≫= (fun outcome => getitem outcome "receipt_ids");
  status ← getitem data "outcome" ≫= (fun outcome => getitem outcome "status");
  tokens_burnt ← getitem data "outcome" ≫= (fun outcome => getitem outcome "tokens_burnt");
  gas_burnt ← getitem data "outcome" ≫= (fun outcome => getitem outcome "gas_burnt");
  mret {| logs := logs; metadata := metadata; receipt_ids := receipt_ids; status := status;
          tokens_burnt := tokens_burnt; gas_burnt := gas_burnt |}.

End ReceiptOutcome.

(** [v[key]] with the value handed to [f]. *)
Definition getitem_with {B : Type} (f : json -> result B) (v : json) (key : string)
  : result B :=
  match v with
  | JObj items =>
      (fix go (items : list (string * json)) : result B :=
         match items with
         | [] => Raise (PyException "KeyError" key)
         | (k, x) :: rest => if String.eqb k key then f x else go rest
         end) items
  | _ => Raise (PyException "TypeError" key)
  end.

Lemma getitem_with_bind {B : Type} (f : json -> result B) v key :
  getitem_with f v key = getitem v key ≫= f.
Proof.
  destruct v as [ | b | z | fl | s | elems | items ]; try reflexivity.
  cbn [getitem_with getitem].
  induction items as [ | [k x] rest IH ]; [reflexivity|].
  cbn [dict_get]. destruct (String.eqb k key); [reflexivity | exact IH].
Qed.

(** [d.pop(key, None)], as the dict it leaves: a dict drops the key, a list
    takes one argument only, and nothing else has the method. *)
Definition pop_method (v : json) (key : string) : result json :=
  match v with
  | JObj items => Ok (JObj (List.filter (fun kv => negb (String.eqb kv.1 key)) items))
  | JArr _ => Raise (PyException "TypeError" "pop expected at most 1 argument, got 2")
  | _ => Raise (PyException "AttributeError" "pop")
  end.

(** [ReceiptAction] and [ReceiptDelegateAction], lines 104-120 and
    180-234. *)
Module ReceiptAction.

(** An attribute [delegate_action] holds [None] or whatever the keyword
    gave it ([inl]), or the object [ReceiptDelegateAction.build] made. *)
Inductive t : Type := Build_t {
  transactions_type : string;
  deposit : json;
  gas : json;
  method_name : json;
  args : json;
  beneficiary_id : json;
  public_key : json;
  access_key : option AccessKey.t;
  stake : json;
  signature : json;
  delegate_action : json + delegate
}
with delegate : Type := Build_delegate {
  actions : list t;
  sender_id : json;
  receiver_id : json;
  delegate_public_key : json;
  nonce : json;
  max_block_height : json
}.

(** [cls(transactions_type=ActionType.CREATE_ACCOUNT)]: every other field
    has its default. *)
Definition create_account : t :=
  {| transactions_type := "CreateAccount"; deposit := JNull; gas := JNull;
     method_name := JNull; args := JNull; beneficiary_id := JNull; public_key := JNull;
     access_key := None; stake := JNull; signature := JNull; delegate_action := inl JNull |}.

(** [build] on a str, lines 202-205: a str has no [items]. *)
Definition build_str (s : string) : result t :=
  if String.eqb s "CreateAccount" then Ok create_account
  else Raise (PyException "AttributeError" "items").

Section Build.

(** [base64.b64decode] and [json.loads] on bytes, of the standard library:
    the value, or the exception raised. *)
Variable b64decode : json -> result (list Byte.byte).
Variable json_loads : list Byte.byte -> result json.

(** The [except] clause of line 214. *)
Definition decode_error (e : exn) : bool :=
  match e with
  | PyException cls _ => String.eqb cls "UnicodeDecodeError" || String.eqb cls "JSONDecodeError"
  | _ => false
  end.

(** Lines 211-215. *)
Definition function_call_args (action_data : json) : result json :=
  match (raw ← getitem action_data "args"; bytes ← b64decode raw; json_loads bytes) with
  | Ok v => Ok v
  | Raise e => if decode_error e then Ok JNull else Raise e
  end.

(** The comprehension of line 115, with [build] for the actions that are
    not a str: the keys of a dict and the characters of a str are strs. *)
Definition build_each (build : json -> result t) (actions : json) : result (list t) :=
  match actions with
  | JArr elems => mapM build elems
  | JObj items => mapM build_str items.*1
  | JStr s => mapM (fun c => build_str (String c EmptyString)) (list_ascii_of_string s)
  | _ => Raise (PyException "TypeError" "object is not iterable")
  end.

(** [ReceiptDelegateAction.build], lines 113-120. *)
Definition delegate_build (build : json -> result t) (data : json) : result delegate :=
  actions ← getitem_with (build_each build) data "actions";
  without_actions ← pop_method data "actions";
  rest ← mapping_of without_actions;
  bind_kwargs ["sender_id"; "receiver_id"; "public_key"; "nonce"; "max_block_height"] []
    false rest;;
  mret {| actions := actions;
          sender_id := argument rest "sender_id";
          receiver_id := argument rest "receiver_id";
          delegate_public_key := argument rest "public_key";
          nonce := argument rest "nonce";
          max_block_height := argument rest "max_block_height" |}.

(** [ReceiptAction.build], lines 200-234. *)
Fixpoint build (data : json) : result t :=
  match data with
  | JStr s => build_str s
  | JObj [] => Raise (PyException "IndexError" "list index out of range")
  | JObj ((action_type, action_data) :: _) =>
      found ←
        (if String.eqb action_type "AddKey" then
           access_key ← getitem action_data "access_key" ≫= AccessKey.build;
           mret (Some access_key, JStr "")
         else if String.eqb action_type "FunctionCall" then
           args ← function_call_args action_data;
           mret (None, args)
         else mret (None, JStr ""));
      if String.eqb action_type "Delegate" then
        delegate_action ← getitem_with (delegate_build build) action_data "delegate_action";
        signature ← getitem action_data "signature";
        mret {| transactions_type := action_type; deposit := JNull; gas := JNull;
                method_name := JNull; args := JNull; beneficiary_id := JNull;
                public_key := JNull; access_key := None; stake := JNull;
                signature := signature; delegate_action := inr delegate_action |}
      else
        without_args ← pop_method action_data "args";
        without_access_key ← pop_method without_args "access_key";
        rest ← mapping_of without_access_key;
        bind_kwargs []
          ["deposit"; "gas"; "method_name"; "beneficiary_id"; "public_key"; "stake";
           "signature"; "delegate_action"] false rest;;
        mret {| transactions_type := action_type;
                deposit := argument rest "deposit";
                gas := argument rest "gas";
                method_name := argument rest "method_name";
                args := found.2;
                beneficiary_id := argument rest "beneficiary_id";
                public_key := argument rest "public_key";
                access_key := found.1;
                stake := argument rest "stake";
                signature := argument rest "signature";
                delegate_action := inl (argument rest "delegate_action") |}
  | _ => Raise (PyException "AttributeError" "items")
  end.

End Build.

End ReceiptAction.

(** [TransactionData.__init__], lines 246-263: the keywords that fit no
    parameter are collected and dropped. *)
Module TransactionData.

Record t : Type := {
  hash : json;
  public_key : json;
  receiver_id : json;
  signature : json;
  signer_id : json;
  nonce : json;
  actions : list ReceiptAction.t
}.

Section Init.

Variable b64decode : json -> result (list Byte.byte).
Variable json_loads : list Byte.byte -> result json.

Definition init (kwargs : list (string * json)) : result t :=
  bind_kwargs ["hash"; "public_key"; "receiver_id"; "signature"; "signer_id"; "nonce";
               "actions"] [] true kwargs;;
  elems ← py_iter (argument kwargs "actions");
  actions ← mapM (ReceiptAction.build b64decode json_loads) elems;
  mret {| hash := argument kwargs "hash";
          public_key := argument kwargs "public_key";
          receiver_id := argument kwargs "receiver_id";
          signature := argument kwargs "signature";
          signer_id := argument kwargs "signer_id";
          nonce := argument kwargs "nonce";
          actions := actions |}.

End Init.

End TransactionData.

(** [TransactionResult.__init__], lines 276-283, called as
    [TransactionResult] on the keywords of a decoded result. *)
Module TransactionResult.

Record t : Type := {
  receipt_outcome : list ReceiptOutcome.t;
  transaction_outcome : ReceiptOutcome.t;
  status : json;
  transaction : TransactionData.t
}.

Section Init.

Variable b64decode : json -> result (list Byte.byte).
Variable json_loads : list Byte.byte -> result json.

Definition init (decoded : json) : result t :=
  kwargs ← mapping_of decoded;
  bind_kwargs ["receipts_outcome"; "transaction_outcome"; "transaction"; "status"] []
    false kwargs;;
  transaction_kwargs ← mapping_of (argument kwargs "transaction");
  transaction ← TransactionData.init b64decode json_loads transaction_kwargs;
  transaction_outcome ← ReceiptOutcome.init (argument kwargs "transaction_outcome");
  receipts ← py_iter (argument kwargs "receipts_outcome");
  receipt_outcome ← mapM ReceiptOutcome.init receipts;
  mret {| receipt_outcome := receipt_outcome; transaction_outcome := transaction_outcome;
          status := argument kwargs "status"; transaction := transaction |}.

End Init.

End TransactionResult.

(** ** The binding of keywords *)

Lemma bind_kwargs_unexpected required optional kwargs k :
  k ∈ kwargs.*1 -> k ∉ required ++ optional ->
  exists arg, bind_kwargs required optional false kwargs = Raise (PyException "TypeError" arg).
Proof.
  intros Hin Hnot. unfold bind_kwargs.
  destruct (List.find _ kwargs.*1) as [k'|] eqn:Hfind; [eauto|].
  exfalso. apply list_elem_of_In in Hin. apply (find_none _ _ Hfind k) in Hin.
  rewrite (bool_decide_eq_false_2 (k ∈ required ++ optional)) in Hin by exact Hnot.
  cbn in Hin. rewrite orb_true_r in Hin. discriminate Hin.
Qed.

Lemma bind_kwargs_missing required optional var_keyword kwargs k :
  k ∈ required -> k ∉ kwargs.*1 ->
  exists arg,
    bind_kwargs required optional var_keyword kwargs = Raise (PyException "TypeError" arg).
Proof.
  intros Hin Hnot. unfold bind_kwargs.
  destruct (List.find _ kwargs.*1) as [k'|]; [eauto|].
  destruct (List.find _ required) as [k'|] eqn:Hfind; [eauto|].
  exfalso. apply list_elem_of_In in Hin. apply (find_none _ _ Hfind k) in Hin.
  rewrite bool_decide_eq_false_2 in Hin by exact Hnot. discriminate Hin.
Qed.

Lemma bind_kwargs_fits required optional kwargs :
  (forall k, k ∈ kwargs.*1 -> k <> "self" /\ k ∈ required ++ optional) ->
  (forall k, k ∈ required -> k ∈ kwargs.*1) ->
  bind_kwargs required optional false kwargs = Ok tt.
Proof.
  intros Hknown Hgiven. unfold bind_kwargs.
  destruct (List.find _ kwargs.*1) as [k|] eqn:Hfind.
  - exfalso. apply find_some in Hfind as [Hin Hbad].
    apply list_elem_of_In in Hin. destruct (Hknown k Hin) as [Hself Hk].
    rewrite bool_decide_eq_false_2 in Hbad by exact Hself.
    rewrite bool_decide_eq_true_2 in Hbad by exact Hk. discriminate Hbad.
  - destruct (List.find _ required) as [k|] eqn:Hfind'; [|reflexivity].
    exfalso. apply find_some in Hfind' as [Hin Hbad].
    apply list_elem_of_In in Hin.
    rewrite bool_decide_eq_true_2 in Hbad by (apply Hgiven; exact Hin). discriminate Hbad.
Qed.

(** ** Properties of the decoding *)

Definition access_key_fields : list string := ["allowance"; "receiver_id"; "method_names"].

(** X19.  What [AccessKey.build] makes of a permission.  The string
    ["FullAccess"] gives a full-access key with no allowance, receiver or
    method names.  A mapping gives a function-call key whatever the name of
    its first entry is: the fields are read from the value of that entry,
    which may hold [allowance], [receiver_id] and [method_names] only; any
    other key there makes the call raise [TypeError]. *)
Theorem AccessKey_build_permission (items : list (string * json)) (n : json) :
  dict_get items "nonce" = Some n ->
  (dict_get items "permission" = Some (JStr "FullAccess") ->
   AccessKey.build (JObj items) =
     Ok {| AccessKey.permission_type := FULL_ACCESS; AccessKey.nonce := n;
           AccessKey.allowance := JNull; AccessKey.receiver_id := JNull;
           AccessKey.method_names := JNull |}) /\
  (forall name permission_data rest,
     dict_get items "permission" = Some (JObj ((name, JObj permission_data) :: rest)) ->
     (forall k, k ∈ permission_data.*1 -> k ∈ access_key_fields) ->
     AccessKey.build (JObj items) =
       Ok {| AccessKey.permission_type := FUNCTION_CALL; AccessKey.nonce := n;
             AccessKey.allowance := argument permission_data "allowance";
             AccessKey.receiver_id := argument permission_data "receiver_id";
             AccessKey.method_names := argument permission_data "method_names" |}) /\
  (forall name permission_data rest k,
     dict_get items "permission" = Some (JObj ((name, JObj permission_data) :: rest)) ->
     k ∈ permission_data.*1 -> k ∉ access_key_fields ->
     exists arg, AccessKey.build (JObj items) = Raise (PyException "TypeError" arg)).
Proof.
  intros Hnonce. unfold AccessKey.build. split; [|split].
  - intros Hperm.
    rewrite (dict_get_getitem _ _ _ Hperm), result_bind_Ok. cbn [is_str String.eqb].
    rewrite (dict_get_getitem _ _ _ Hnonce), result_bind_Ok. reflexivity.
  - intros name permission_data rest Hperm Hkeys.
    rewrite (dict_get_getitem _ _ _ Hperm), result_bind_Ok. cbn [is_str items_method].
    rewrite !result_bind_Ok. cbn [first_item]. rewrite result_bind_Ok.
    rewrite (dict_get_getitem _ _ _ Hnonce), result_bind_Ok. cbn [snd mapping_of].
    rewrite result_bind_Ok.
    rewrite bind_kwargs_fits; [reflexivity | | intros k Hk; apply elem_of_nil in Hk; destruct Hk].
    intros k Hk. specialize (Hkeys k Hk). split; [|exact Hkeys].
    intros ->. apply list_elem_of_In in Hkeys. cbn in Hkeys. intuition discriminate.
  - intros name permission_data rest k Hperm Hk Hnot.
    rewrite (dict_get_getitem _ _ _ Hperm), result_bind_Ok. cbn [is_str items_method].
    rewrite !result_bind_Ok. cbn [first_item]. rewrite result_bind_Ok.
    rewrite (dict_get_getitem _ _ _ Hnonce), result_bind_Ok. cbn [snd mapping_of].
    rewrite result_bind_Ok.
    destruct (bind_kwargs_unexpected [] access_key_fields permission_data k Hk Hnot)
      as [arg Harg].
    exists arg. unfold access_key_fields in Harg. rewrite Harg. reflexivity.
Qed.

Lemma dict_get_filter_ne items key k :
  k <> key ->
  dict_get (List.filter (fun kv : string * json => negb (String.eqb kv.1 key)) items) k =
  dict_get items k.
Proof.
  intros Hne. induction items as [ | [k' v] items IH ]; [reflexivity|].
  cbn [List.filter fst]. destruct (String.eqb_spec k' key) as [-> | Hk']; cbn [negb dict_get].
  - rewrite IH. destruct (String.eqb_spec key k) as [<- | _]; [congruence | reflexivity].
  - rewrite IH. reflexivity.
Qed.

Lemma elem_of_filter_keys items key k :
  k ∈ (List.filter (fun kv : string * json => negb (String.eqb kv.1 key)) items).*1 <->
  k ∈ items.*1 /\ k <> key.
Proof.
  induction items as [ | [k' v] items IH ]; cbn [List.filter fst fmap list_fmap].
  - split; [intros H; inversion H | intros [H _]; inversion H].
  - destruct (String.eqb_spec k' key) as [-> | Hk']; cbn [negb fmap list_fmap fst].
    + rewrite IH, elem_of_cons. split; [tauto|]. intros [[-> | H] Hne]; [congruence | tauto].
    + rewrite !elem_of_cons, IH. split; [|tauto]. intros [-> | H]; tauto.
Qed.

(** The fields of a [ReceiptAction] that a keyword can set, and the dict
    the keywords come from: the data of the action with ["args"] and
    ["access_key"] popped. *)
Definition action_fields : list string :=
  ["deposit"; "gas"; "method_name"; "beneficiary_id"; "public_key"; "stake"; "signature";
   "delegate_action"].

Definition popped (fields : list (string * json)) : list (string * json) :=
  List.filter (fun kv => negb (String.eqb kv.1 "access_key"))
    (List.filter (fun kv => negb (String.eqb kv.1 "args")) fields).

(** The action a keyword call builds from the fields. *)
Definition action_of (action_type : string) (access_key : option AccessKey.t) (args : json)
    (fields : list (string * json)) : ReceiptAction.t :=
  {| ReceiptAction.transactions_type := action_type;
     ReceiptAction.deposit := argument fields "deposit";
     ReceiptAction.gas := argument fields "gas";
     ReceiptAction.method_name := argument fields "method_name";
     ReceiptAction.args := args;
     ReceiptAction.beneficiary_id := argument fields "beneficiary_id";
     ReceiptAction.public_key := argument fields "public_key";
     ReceiptAction.access_key := access_key;
     ReceiptAction.stake := argument fields "stake";
     ReceiptAction.signature := argument fields "signature";
     ReceiptAction.delegate_action := inl (argument fields "delegate_action") |}.

Lemma argument_popped fields k :
  k <> "args" -> k <> "access_key" -> argument (popped fields) k = argument fields k.
Proof.
  intros Hargs Hkey. unfold argument, popped.
  rewrite !dict_get_filter_ne by assumption. reflexivity.
Qed.

Lemma action_of_popped action_type access_key args fields :
  action_of action_type access_key args (popped fields) =
  action_of action_type access_key args fields.
Proof. unfold action_of. rewrite !argument_popped by discriminate. reflexivity. Qed.

Section ReceiptActionProperties.

Variable b64decode : json -> result (list Byte.byte).
Variable json_loads : list Byte.byte -> result json.

Local Notation build := (ReceiptAction.build b64decode json_loads).

(** The keyword call of lines 229-234, once the access key and the args
    are known. *)
Definition keyword_call (action_type : string) (found : option AccessKey.t * json)
    (fields : list (string * json)) : result ReceiptAction.t :=
  bind_kwargs [] action_fields false (popped fields);;
  mret (action_of action_type found.1 found.2 fields).

Lemma build_action action_type fields rest :
  action_type <> "Delegate" ->
  build (JObj ((action_type, JObj fields) :: rest)) =
  found ←
    (if String.eqb action_type "AddKey" then
       access_key ← getitem (JObj fields) "access_key" ≫= AccessKey.build;
       mret (Some access_key, JStr "")
     else if String.eqb action_type "FunctionCall" then
       args ← ReceiptAction.function_call_args b64decode json_loads (JObj fields);
       mret (None, args)
     else mret (None, JStr ""));
  keyword_call action_type found fields.
Proof.
  intros Hne. cbn [ReceiptAction.build].
  destruct (String.eqb_spec action_type "Delegate") as [-> | _]; [congruence|].
  match goal with |- (?m ≫= _) = _ => destruct m as [found | e] end; [|reflexivity].
  rewrite !result_bind_Ok. unfold keyword_call.
  cbn [pop_method]. rewrite result_bind_Ok.
  cbn [pop_method]. rewrite result_bind_Ok.
  cbn [mapping_of]. rewrite result_bind_Ok.
  fold (popped fields). fold action_fields.
  destruct (bind_kwargs [] action_fields false (popped fields)) as [[] | e]; [|reflexivity].
  rewrite !result_bind_Ok. unfold mret, result_ret. f_equal.
  rewrite <- (action_of_popped action_type found.1 found.2 fields). reflexivity.
Qed.

(** X20.  The fields of an action come from its data as keywords.  For an
    action that is not an [AddKey], a [FunctionCall] or a [Delegate], [build]
    returns the action of that type with the entries of the data as its
    fields and the empty string as its [args], provided every key of the data
    is a field of [ReceiptAction]; one key that is not a field (the [code] of
    a [DeployContract] action, say) makes [build] raise [TypeError]. *)
Theorem ReceiptAction_build_keywords (action_type : string)
    (fields rest : list (string * json)) :
  action_type ∉ ["AddKey"; "FunctionCall"; "Delegate"] ->
  ((forall k, k ∈ fields.*1 -> k ∈ "args" :: "access_key" :: action_fields) ->
   build (JObj ((action_type, JObj fields) :: rest)) =
     Ok (action_of action_type None (JStr "") fields)) /\
  (forall k,
     k ∈ fields.*1 -> k ∉ "args" :: "access_key" :: action_fields ->
     exists arg,
       build (JObj ((action_type, JObj fields) :: rest)) = Raise (PyException "TypeError" arg)).
Proof.
  intros Htype.
  assert (Hdelegate : action_type <> "Delegate")
    by (intros ->; apply Htype; apply list_elem_of_In; cbn; tauto).
  assert (Haddkey : String.eqb action_type "AddKey" = false).
  { apply String.eqb_neq. intros ->. apply Htype. apply list_elem_of_In. cbn. tauto. }
  assert (Hcall : String.eqb action_type "FunctionCall" = false).
  { apply String.eqb_neq. intros ->. apply Htype. apply list_elem_of_In. cbn. tauto. }
  rewrite build_action by exact Hdelegate. rewrite Haddkey, Hcall.
  unfold mret at 1. unfold result_ret. rewrite result_bind_Ok. unfold keyword_call.
  split.
  - intros Hkeys. rewrite bind_kwargs_fits; [reflexivity | | intros k Hk; apply elem_of_nil in Hk; destruct Hk].
    intros k Hk. unfold popped in Hk.
    apply elem_of_filter_keys in Hk as [Hk Hkey].
    apply elem_of_filter_keys in Hk as [Hk Hargs].
    specialize (Hkeys k Hk).
    apply elem_of_cons in Hkeys as [-> | Hkeys]; [congruence|].
    apply elem_of_cons in Hkeys as [-> | Hkeys]; [congruence|].
    split; [|exact Hkeys]. intros ->.
    apply list_elem_of_In in Hkeys. cbn in Hkeys. intuition discriminate.
  - intros k Hk Hnot.
    destruct (bind_kwargs_unexpected [] action_fields (popped fields) k) as [arg Harg].
    + unfold popped. apply elem_of_filter_keys. split.
      * apply elem_of_filter_keys. split; [exact Hk|]. intros ->. apply Hnot.
        apply list_elem_of_In. cbn. tauto.
      * intros ->. apply Hnot. apply list_elem_of_In. cbn. tauto.
    + intros Hin. apply Hnot. apply elem_of_cons. right. apply elem_of_cons. right.
      exact Hin.
    + exists arg. rewrite Harg. reflexivity.
Qed.

(** X21.  The args of a function call.  [build] decodes the ["args"] of a
    [FunctionCall] from base64 and then from JSON.  When the decoding raises
    [UnicodeDecodeError] or [JSONDecodeError] the action is built all the
    same, with [None] for its [args]; any other exception of the decoding (a
    wrong padding of the base64, say) leaves [build]. *)
Theorem ReceiptAction_build_function_call (fields rest : list (string * json)) (raw : json) :
  dict_get fields "args" = Some raw ->
  (forall k, k ∈ fields.*1 -> k ∈ "args" :: "access_key" :: action_fields) ->
  build (JObj (("FunctionCall", JObj fields) :: rest)) =
  match b64decode raw ≫= json_loads with
  | Ok v => Ok (action_of "FunctionCall" None v fields)
  | Raise e =>
      if ReceiptAction.decode_error e then Ok (action_of "FunctionCall" None JNull fields)
      else Raise e
  end.
Proof.
  intros Hargs Hkeys. rewrite build_action by discriminate.
  cbn [String.eqb Ascii.eqb Bool.eqb]. unfold ReceiptAction.function_call_args.
  rewrite (dict_get_getitem _ _ _ Hargs), result_bind_Ok.
  assert (Hcall : forall found,
            keyword_call "FunctionCall" found fields =
            Ok (action_of "FunctionCall" found.1 found.2 fields)).
  { intros found. unfold keyword_call.
    rewrite bind_kwargs_fits; [reflexivity | | intros k Hk; apply elem_of_nil in Hk; destruct Hk].
    intros k Hk. unfold popped in Hk.
    apply elem_of_filter_keys in Hk as [Hk Hkey].
    apply elem_of_filter_keys in Hk as [Hk Hne].
    specialize (Hkeys k Hk).
    apply elem_of_cons in Hkeys as [-> | Hkeys]; [congruence|].
    apply elem_of_cons in Hkeys as [-> | Hkeys]; [congruence|].
    split; [|exact Hkeys]. intros ->.
    apply list_elem_of_In in Hkeys. cbn in Hkeys. intuition discriminate. }
  destruct (b64decode raw) as [bytes | e]; [rewrite !result_bind_Ok|].
  - destruct (json_loads bytes) as [v | e].
    + rewrite !result_bind_Ok. apply Hcall.
    + destruct (ReceiptAction.decode_error e); [|reflexivity].
      rewrite !result_bind_Ok. apply Hcall.
  - cbn [mbind result_bind]. destruct (ReceiptAction.decode_error e); [|reflexivity].
    rewrite !result_bind_Ok. apply Hcall.
Qed.

Definition delegate_fields : list string :=
  ["sender_id"; "receiver_id"; "public_key"; "nonce"; "max_block_height"].

(** X24.  A delegate action is built from its own actions.  For a
    [Delegate] whose [delegate_action] is a mapping with a list of actions
    and the five other fields of [ReceiptDelegateAction], no more and no
    less, [build] builds each action of the list with [build] itself, in
    order, and fails with the first one that fails; the action it returns
    holds the delegate action and the signature, and nothing else of the
    data of the [Delegate]. *)
Theorem ReceiptAction_build_delegate (fields rest delegate_data : list (string * json))
    (signature : json) (elems : list json) :
  dict_get fields "delegate_action" = Some (JObj delegate_data) ->
  dict_get fields "signature" = Some signature ->
  dict_get delegate_data "actions" = Some (JArr elems) ->
  (forall k, k ∈ delegate_data.*1 <-> k ∈ "actions" :: delegate_fields) ->
  build (JObj (("Delegate", JObj fields) :: rest)) =
  (actions ← mapM build elems;
   mret {| ReceiptAction.transactions_type := "Delegate";
           ReceiptAction.deposit := JNull; ReceiptAction.gas := JNull;
           ReceiptAction.method_name := JNull; ReceiptAction.args := JNull;
           ReceiptAction.beneficiary_id := JNull; ReceiptAction.public_key := JNull;
           ReceiptAction.access_key := None; ReceiptAction.stake := JNull;
           ReceiptAction.signature := signature;
           ReceiptAction.delegate_action :=
             inr {| ReceiptAction.actions := actions;
                    ReceiptAction.sender_id := argument delegate_data "sender_id";
                    ReceiptAction.receiver_id := argument delegate_data "receiver_id";
                    ReceiptAction.delegate_public_key := argument delegate_data "public_key";
                    ReceiptAction.nonce := argument delegate_data "nonce";
                    ReceiptAction.max_block_height :=
                      argument delegate_data "max_block_height" |} |}).
Proof.
  intros Hdelegate Hsignature Hactions Hkeys.
  cbn [ReceiptAction.build].
  change (String.eqb "Delegate" "AddKey") with false.
  change (String.eqb "Delegate" "FunctionCall") with false.
  change (String.eqb "Delegate" "Delegate") with true.
  cbv iota. unfold mret at 1. unfold result_ret at 1. rewrite result_bind_Ok.
  rewrite getitem_with_bind, (dict_get_getitem _ _ _ Hdelegate), result_bind_Ok.
  unfold ReceiptAction.delegate_build.
  rewrite getitem_with_bind, (dict_get_getitem _ _ _ Hactions), result_bind_Ok.
  cbn [ReceiptAction.build_each].
  destruct (mapM build elems) as [actions | e]; [|reflexivity].
  rewrite !result_bind_Ok. cbn [pop_method]. rewrite result_bind_Ok.
  cbn [mapping_of]. rewrite result_bind_Ok.
  rewrite bind_kwargs_fits.
  - rewrite !result_bind_Ok, (dict_get_getitem _ _ _ Hsignature), result_bind_Ok.
    unfold argument. rewrite !dict_get_filter_ne by discriminate. reflexivity.
  - intros k Hk. apply elem_of_filter_keys in Hk as [Hk Hne].
    apply Hkeys in Hk. apply elem_of_cons in Hk as [-> | Hk]; [congruence|].
    rewrite app_nil_r. split; [|exact Hk]. intros ->.
    apply list_elem_of_In in Hk. cbn in Hk. intuition discriminate.
  - intros k Hk. apply elem_of_filter_keys. split.
    + apply Hkeys. apply elem_of_cons. right. exact Hk.
    + intros ->. apply list_elem_of_In in Hk. cbn in Hk. intuition discriminate.
Qed.

End ReceiptActionProperties.

Lemma bind_kwargs_Ok required optional kwargs :
  bind_kwargs required optional false kwargs = Ok tt ->
  (forall k, k ∈ kwargs.*1 -> k ∈ required ++ optional) /\
  (forall k, k ∈ required -> k ∈ kwargs.*1).
Proof.
  unfold bind_kwargs.
  destruct (List.find _ kwargs.*1) as [k|] eqn:Hfind; [discriminate|].
  destruct (List.find _ required) as [k|] eqn:Hfind'; [discriminate|]. intros _. split.
  - intros k Hk. apply list_elem_of_In in Hk. apply (find_none _ _ Hfind k) in Hk.
    apply orb_false_elim in Hk as [_ Hk]. cbn [negb andb] in Hk.
    apply negb_false_iff, bool_decide_eq_true in Hk. exact Hk.
  - intros k Hk. apply list_elem_of_In in Hk. apply (find_none _ _ Hfind' k) in Hk.
    apply negb_false_iff, bool_decide_eq_true in Hk. exact Hk.
Qed.

Lemma mapM_Ok {A B : Type} (f : A -> result B) (l : list A) (l' : list B) :
  mapM f l = Ok l' -> Forall2 (fun x y => f x = Ok y) l l'.
Proof.
  revert l'. induction l as [ | x l IH ]; intros l' H.
  - injection H as <-. constructor.
  - cbn in H. destruct (f x) as [y | e] eqn:Hy; [|discriminate H].
    cbn in H. destruct (mapM f l) as [k | e]; [|discriminate H].
    cbn in H. injection H as <-. constructor; [exact Hy | apply IH; reflexivity].
Qed.

Lemma bind_kwargs_collects required optional kwargs :
  "self" ∉ kwargs.*1 ->
  (forall k, k ∈ required -> k ∈ kwargs.*1) ->
  bind_kwargs required optional true kwargs = Ok tt.
Proof.
  intros Hself Hgiven. unfold bind_kwargs.
  destruct (List.find _ kwargs.*1) as [k|] eqn:Hfind.
  - exfalso. apply find_some in Hfind as [Hin Hbad].
    apply list_elem_of_In in Hin. cbn [negb andb] in Hbad. rewrite orb_false_r in Hbad.
    apply bool_decide_eq_true in Hbad. subst k. exact (Hself Hin).
  - destruct (List.find _ required) as [k|] eqn:Hfind'; [|reflexivity].
    exfalso. apply find_some in Hfind' as [Hin Hbad].
    apply list_elem_of_In in Hin.
    rewrite bool_decide_eq_true_2 in Hbad by (apply Hgiven; exact Hin). discriminate Hbad.
Qed.

Section TransactionResultProperties.

Variable b64decode : json -> result (list Byte.byte).
Variable json_loads : list Byte.byte -> result json.

Local Notation init := (TransactionResult.init b64decode json_loads).

Definition result_keys : list string :=
  ["receipts_outcome"; "transaction_outcome"; "transaction"; "status"].

Lemma init_unexpected kwargs k :
  k ∈ kwargs.*1 -> k ∉ result_keys ->
  exists arg, init (JObj kwargs) = Raise (PyException "TypeError" arg).
Proof.
  intros Hk Hnot. unfold TransactionResult.init. cbn [mapping_of]. rewrite result_bind_Ok.
  destruct (bind_kwargs_unexpected result_keys [] kwargs k Hk) as [arg Harg].
  - rewrite app_nil_r. exact Hnot.
  - exists arg. unfold result_keys in Harg. rewrite Harg. reflexivity.
Qed.

(** X22.  [TransactionResult] takes the four entries of a result and no
    other.  Called on the keywords of a decoded result, the constructor
    raises [TypeError] when the result has a key that is not one of
    [receipts_outcome], [transaction_outcome], [transaction] and [status],
    and when one of the four is missing.  When it returns, the result has
    exactly these keys, the status is kept as decoded, and the receipt
    outcomes are those of the entries of [receipts_outcome], one for one and
    in order. *)
Theorem TransactionResult_init_keywords (kwargs : list (string * json)) :
  (forall k, k ∈ kwargs.*1 -> k ∉ result_keys ->
     exists arg, init (JObj kwargs) = Raise (PyException "TypeError" arg)) /\
  (forall k, k ∈ result_keys -> k ∉ kwargs.*1 ->
     exists arg, init (JObj kwargs) = Raise (PyException "TypeError" arg)) /\
  (forall t,
     init (JObj kwargs) = Ok t ->
     (forall k, k ∈ kwargs.*1 <-> k ∈ result_keys) /\
     TransactionResult.status t = argument kwargs "status" /\
     ReceiptOutcome.init (argument kwargs "transaction_outcome") =
       Ok (TransactionResult.transaction_outcome t) /\
     exists receipts,
       py_iter (argument kwargs "receipts_outcome") = Ok receipts /\
       Forall2 (fun ro outcome => ReceiptOutcome.init ro = Ok outcome)
         receipts (TransactionResult.receipt_outcome t)).
Proof.
  split; [exact (init_unexpected kwargs)|]. split.
  - intros k Hk Hnot. unfold TransactionResult.init. cbn [mapping_of].
    rewrite result_bind_Ok.
    destruct (bind_kwargs_missing result_keys [] false kwargs k Hk Hnot) as [arg Harg].
    exists arg. unfold result_keys in Harg. rewrite Harg. reflexivity.
  - intros t. unfold TransactionResult.init. cbn [mapping_of]. rewrite result_bind_Ok.
    fold result_keys.
    destruct (bind_kwargs result_keys [] false kwargs) as [[] | e] eqn:Hbind; [|discriminate].
    rewrite result_bind_Ok.
    destruct (mapping_of (argument kwargs "transaction")) as [tk | e]; [|discriminate].
    rewrite result_bind_Ok.
    destruct (TransactionData.init b64decode json_loads tk) as [td | e]; [|discriminate].
    rewrite result_bind_Ok.
    destruct (ReceiptOutcome.init (argument kwargs "transaction_outcome")) as [o | e];
      [|discriminate].
    rewrite result_bind_Ok.
    destruct (py_iter (argument kwargs "receipts_outcome")) as [receipts | e]; [|discriminate].
    rewrite result_bind_Ok.
    destruct (mapM ReceiptOutcome.init receipts) as [outcomes | e] eqn:Hmap; [|discriminate].
    rewrite result_bind_Ok. intros [= <-]. cbn.
    apply bind_kwargs_Ok in Hbind as [Hknown Hgiven]. rewrite app_nil_r in Hknown.
    split; [intros k; split; [apply Hknown | apply Hgiven]|].
    split; [reflexivity|]. split; [reflexivity|].
    exists receipts. split; [reflexivity|]. apply mapM_Ok. exact Hmap.
Qed.

Definition transaction_keys : list string :=
  ["hash"; "public_key"; "receiver_id"; "signature"; "signer_id"; "nonce"; "actions"].

(** X25.  [TransactionData] needs seven entries and drops the others.
    The constructor raises [TypeError] when one of [hash], [public_key],
    [receiver_id], [signature], [signer_id], [nonce] and [actions] is
    missing.  When the seven are there it accepts any further entry and
    drops it; with a list of actions it builds each one with
    [ReceiptAction.build], in order, and fails with the first one that
    fails. *)
Theorem TransactionData_init_keywords (kwargs : list (string * json)) :
  (forall k, k ∈ transaction_keys -> k ∉ kwargs.*1 ->
     exists arg,
       TransactionData.init b64decode json_loads kwargs = Raise (PyException "TypeError" arg)) /\
  (forall elems,
     "self" ∉ kwargs.*1 ->
     (forall k, k ∈ transaction_keys -> k ∈ kwargs.*1) ->
     dict_get kwargs "actions" = Some (JArr elems) ->
     TransactionData.init b64decode json_loads kwargs =
     (actions ← mapM (ReceiptAction.build b64decode json_loads) elems;
      mret {| TransactionData.hash := argument kwargs "hash";
              TransactionData.public_key := argument kwargs "public_key";
              TransactionData.receiver_id := argument kwargs "receiver_id";
              TransactionData.signature := argument kwargs "signature";
              TransactionData.signer_id := argument kwargs "signer_id";
              TransactionData.nonce := argument kwargs "nonce";
              TransactionData.actions := actions |})).
Proof.
  split.
  - intros k Hk Hnot. unfold TransactionData.init.
    destruct (bind_kwargs_missing transaction_keys [] true kwargs k Hk Hnot) as [arg Harg].
    exists arg. unfold transaction_keys in Harg. rewrite Harg. reflexivity.
  - intros elems Hself Hgiven Hactions. unfold TransactionData.init.
    fold transaction_keys. rewrite bind_kwargs_collects by assumption.
    rewrite result_bind_Ok.
    replace (argument kwargs "actions") with (JArr elems)
      by (unfold argument; rewrite Hactions; reflexivity).
    reflexivity.
Qed.

End TransactionResultProperties.

End Decoding.

(** * [get_tx] with the constructor of [models.py] *)

Section GetTxDecoding.

Variable net : network.
Variable TIMEOUT_WAIT_RPC : Z.
Variable ERROR_CODE_TO_EXCEPTION : gmap string pyclass.
Variable issubclass : pyclass -> pyclass -> bool.
Variable b64decode : json -> result (list Byte.byte).
Variable json_loads : list Byte.byte -> result json.

Local Notation json_rpc := (json_rpc net TIMEOUT_WAIT_RPC ERROR_CODE_TO_EXCEPTION issubclass).
Local Notation get_tx :=
  (get_tx net TIMEOUT_WAIT_RPC ERROR_CODE_TO_EXCEPTION issubclass Decoding.TransactionResult.t
     (Decoding.TransactionResult.init b64decode json_loads)).

(** X23.  [get_tx] fails on a result with one more entry.  When the node
    answers the lookup with a result that holds a key other than the four the
    constructor of [TransactionResult] takes, [get_tx] raises [TypeError],
    although the request succeeded; the exception is raised after the
    requests, in the world [json_rpc] leaves. *)
Theorem get_tx_refuses_unknown_key (tx_hash tx_recipient_id : string) (w : world)
    (kwargs : list (string * json)) (k : string) :
  (json_rpc "tx" (JArr [JStr tx_hash; JStr tx_recipient_id]) TIMEOUT_WAIT_RPC w).1 =
    Ok (JObj kwargs) ->
  k ∈ kwargs.*1 ->
  k ∉ Decoding.result_keys ->
  exists arg,
    get_tx tx_hash tx_recipient_id w =
    (Raise (PyException "TypeError" arg),
     (json_rpc "tx" (JArr [JStr tx_hash; JStr tx_recipient_id]) TIMEOUT_WAIT_RPC w).2).
Proof.
  intros Hresult Hk Hnot.
  destruct (Decoding.init_unexpected b64decode json_loads kwargs k Hk Hnot) as [arg Harg].
  exists arg. unfold get_tx. unfold mbind at 1. unfold M_bind at 1.
  destruct (json_rpc "tx" (JArr [JStr tx_hash; JStr tx_recipient_id]) TIMEOUT_WAIT_RPC w)
    as [[r | e] w1]; cbn [fst snd] in *; [|discriminate Hresult].
  injection Hresult as ->. unfold lift. rewrite Harg. reflexivity.
Qed.

End GetTxDecoding.

(** * Scenarios for the further properties *)

(** The first endpoint refuses the connection, the second one answers with
    a page that is not JSON, the third one would answer. *)
Definition not_json : exn := PyException "JSONDecodeError" "Expecting value".

Definition net_second_not_json : network :=
  {| get_reply := fun _ => in_sync;
     post_reply := fun n => match n with
                            | O => Raises (ClientConnectorError "connection refused")
                            | S O => Responds {| status := 200; body := Raise not_json |}
                            | _ => answer (JObj [("result", JStr "ok")])
                            end;
     clock := fun _ => 0%Q |}.

Lemma call_rpc_request_uncaught_witness :
  (call_rpc_request net_second_not_json 10 same_class "query" JNull 10 world_ABC).1 =
    Raise not_json /\
  post_requests
    (trace (call_rpc_request net_second_not_json 10 same_class
              "query" JNull 10 world_ABC).2) = ["A"; "B"] /\
  (json_rpc net_second_not_json 10 ∅ same_class "query" JNull 10 world_ABC).1 =
    Raise not_json.
Proof.
  destruct (call_rpc_request_uncaught net_second_not_json 10 ∅ same_class
              "query" JNull 10 world_ABC 1 "B" not_json) as (Hraise & _ & Hposts & Hjson).
  - reflexivity.
  - intros i Hi. assert (i = 0) as -> by lia.
    exists (ClientConnectorError "connection refused"). split; reflexivity.
  - reflexivity.
  - reflexivity.
  - split; [exact Hraise|]. split; [exact Hposts | exact Hjson].
Defined.

(** The first endpoint refuses the connection, the second one answers that
    the signature of the transaction is invalid. *)
Definition net_second_rejects : network :=
  {| get_reply := fun _ => in_sync;
     post_reply := fun n => match n with
                            | O => Raises (ClientConnectorError "connection refused")
                            | _ => answer (JObj [("error", JObj invalid_signature_error)])
                            end;
     clock := fun _ => 0%Q |}.

Lemma json_rpc_raises_rpc_error_witness :
  (json_rpc net_second_rejects 10 action_errors same_class
     "broadcast_tx_commit" JNull 10 world_ABC).1 =
    Raise (RpcError "InvalidSignature" (JObj []) (JObj invalid_signature_error)) /\
  post_requests
    (trace (json_rpc net_second_rejects 10 action_errors same_class
              "broadcast_tx_commit" JNull 10 world_ABC).2) = ["A"; "B"].
Proof.
  destruct (json_rpc_raises_rpc_error net_second_rejects 10 action_errors same_class
              "broadcast_tx_commit" JNull 10 world_ABC 1 "B"
              (JObj [("error", JObj invalid_signature_error)])
              (RpcError "InvalidSignature" (JObj []) (JObj invalid_signature_error)))
    as (Hraise & _ & Hposts).
  - reflexivity.
  - intros i Hi. assert (i = 0) as -> by lia.
    exists (ClientConnectorError "connection refused"). split; reflexivity.
  - reflexivity.
  - reflexivity.
  - split; [exact Hraise | exact Hposts].
Defined.

(** An error that is a plain string, and an error with a message only. *)
Lemma get_error_from_response_malformed_witness :
  get_error_from_response ∅ (JObj [("error", JStr "boom")]) =
    Raise (PyException "AttributeError" "get") /\
  get_error_from_response ∅ (JObj [("error", JObj [("message", JStr "boom")])]) =
    Raise (PyException "KeyError" "data").
Proof.
  split.
  - apply (proj1 (get_error_from_response_malformed ∅ [("error", JStr "boom")]
                    (JStr "boom") eq_refl)).
    intros error_items. discriminate.
  - apply (proj2 (proj2 (get_error_from_response_malformed ∅
                           [("error", JObj [("message", JStr "boom")])]
                           (JObj [("message", JStr "boom")]) eq_refl))
             [("message", JStr "boom")] []); reflexivity.
Defined.

Lemma get_error_from_response_keeps_envelope_witness :
  exists cls body error_json,
    RpcError "InvalidSignature" (JObj []) (JObj invalid_signature_error) =
      RpcError cls body error_json /\
    getitem (JObj [("error", JObj invalid_signature_error)]) "error" = Ok error_json /\
    (cls = InternalError \/
     (exists code, PROVIDER_CODE_TO_EXCEPTION !! code = Some cls) \/
     (exists key, action_errors !! key = Some cls)).
Proof.
  apply (get_error_from_response_keeps_envelope action_errors
           (JObj [("error", JObj invalid_signature_error)])).
  reflexivity.
Defined.

(** [repr] of a list of strings, as Python writes it when no string holds a
    quote or a character to escape. *)
Definition plain_repr (l : list string) : string :=
  ("[" ++ String.concat ", " ((fun s => "'" ++ s ++ "'") <$> l) ++ "]")%string.

(** ["A"] is syncing and ["B"] is in sync. *)
Lemma get_status_first_in_sync_witness :
  (get_status net_ABC 10 plain_repr world_ABC).1.1 =
    Ok (JObj [("sync_info", JObj [("syncing", JBool false)])]) /\
  gets_of (trace (get_status net_ABC 10 plain_repr world_ABC).1.2) =
    [("A/status", 10%Z); ("B/status", 10%Z)].
Proof.
  destruct (get_status_first_in_sync net_ABC 10 plain_repr world_ABC 1 "B")
    as (rsp & data & Hreply & Hbody & Hout & Hgets & _).
  - reflexivity.
  - intros i Hi. assert (i = 0) as -> by lia. reflexivity.
  - reflexivity.
  - injection Hreply as <-. injection Hbody as <-.
    split; [exact Hout | exact Hgets].
Defined.

(** The only endpoint of the list refuses the connection. *)
Definition world_A : world :=
  {| self := {| _rpc_addresses := ["A"]; _available_rpcs := ["A"];
                _last_rpc_addr_check := 0%Q |};
     gets := 0; posts := 0; ticks := 0; trace := [] |}.

Lemma get_status_none_in_sync_witness :
  (get_status net_A_down 10 plain_repr world_A).1.1 =
    Raise (RpcNotAvailableError "RPC not available ['A']") /\
  _available_rpcs (self (get_status net_A_down 10 plain_repr world_A).1.2) = ["A"].
Proof.
  destruct (get_status_none_in_sync net_A_down 10 plain_repr world_A)
    as (Hraise & _ & _ & Hself).
  - intros i Hi. assert (i = 0) as -> by (cbn in Hi; lia). reflexivity.
  - split; [exact Hraise|]. rewrite Hself. reflexivity.
Defined.

(** No hash is given: the timeout of the broadcast is raised at once. *)
Lemma send_tx_and_wait_without_fallback_witness :
  send_tx_and_wait net_never_found 6 ∅ same_class json Ok
    "signed" 10 None (Some "receiver.near") world_CB =
  (Raise timeout_error,
   (json_rpc net_never_found 6 ∅ same_class
      "broadcast_tx_commit" (JArr [JStr "signed"]) 10 world_CB).2).
Proof.
  apply (proj2 (send_tx_and_wait_without_fallback net_never_found 6 ∅ same_class json Ok
                  "signed" 10 None (Some "receiver.near") world_CB)).
  - reflexivity.
  - right. left. reflexivity.
Defined.

(** With [TIMEOUT_WAIT_RPC = 6] the coroutine sleeps 6 seconds at most. *)
Lemma send_tx_and_wait_sleeps_witness :
  (slept (trace (send_tx_and_wait net_never_found 6 ∅ same_class json Ok
                   "signed" 10 (Some "hash") (Some "receiver.near") world_CB).2) <= 6)%Z.
Proof.
  destruct (send_tx_and_wait_sleeps net_never_found 6 ∅ same_class json Ok
              "signed" 10 (Some "hash") (Some "receiver.near") world_CB)
    as (_ & [_ Hbound] & _).
  exact Hbound.
Defined.

(** A view call at the block of height 0: the request names the finality. *)
Definition b64_of_empty_object (args : list Byte.byte) : string := "e30=".

Lemma view_call_names_one_block_witness :
  exists k params,
    posts_of (trace (view_call net_second_answers 10 ∅ same_class b64_of_empty_object
                       (JStr "token.near") (JStr "ft_metadata") [Byte.x7b; Byte.x7d]
                       (JStr "final") (JInt 0) world_CB).2) =
      ((fun a => (a, envelope "query" (JObj params), 10%Z)) <$> take k ["C"; "B"]) /\
    dict_get params "block_id" = None /\
    dict_get params "finality" = Some (JStr "final").
Proof.
  destruct (view_call_names_one_block net_second_answers 10 ∅ same_class b64_of_empty_object
              (JStr "token.near") (JStr "ft_metadata") [Byte.x7b; Byte.x7d]
              (JStr "final") (JInt 0) world_CB)
    as (k & params & Hposts & _ & _ & Hblock & _ & Hfinality).
  exists k, params. split; [|split; [exact Hblock | apply Hfinality; left; reflexivity]].
  rewrite Hposts. reflexivity.
Defined.

(** An outcome type that is not ["receipt"] asks for a transaction. *)
Lemma get_light_client_proof_type_witness :
  exists k,
    posts_of (trace (get_light_client_proof net_second_answers 10 ∅ same_class
                       (JStr "Receipt") (JStr "id") (JStr "alice.near") (JStr "head")
                       world_CB).2) =
      ((fun a => (a,
                  envelope "light_client_proof"
                    (JObj [("type", JStr "transaction"); ("transaction_hash", JStr "id");
                           ("sender_id", JStr "alice.near");
                           ("light_client_head", JStr "head")]),
                  10%Z)) <$> take k ["C"; "B"]).
Proof.
  destruct (get_light_client_proof_type net_second_answers 10 ∅ same_class
              (JStr "Receipt") (JStr "id") (JStr "alice.near") (JStr "head") world_CB)
    as (k & params & Hposts & _ & Hother).
  exists k. rewrite Hposts, (Hother ltac:(discriminate)). reflexivity.
Defined.

(** Three reads of the logs of [tx_result]. *)
Lemma logs_grow_with_each_read_witness :
  (Models.read_logs unit Models.tx_result
     (ModelsProperties.after_reads unit 2 Models.tx_result Models.tx_store)).1 =
  ["a"; "b"; "b"; "b"].
Proof.
  refine (proj1 (ModelsProperties.logs_grow_with_each_read unit Models.tx_result
                   Models.tx_store 2 _)).
  repeat constructor. discriminate.
Defined.

(** The status of a transaction that was invalid. *)
Definition invalid_tx_outcome : Models.ReceiptOutcome :=
  {| Models.logs := 1%positive; Models.metadata := JNull; Models.receipt_ids := JArr [];
     Models.status :=
       JObj [("Failure", JObj [("InvalidTxError", JObj [("InvalidNonce", JObj [])])])];
     Models.tokens_burnt := JStr "0"; Models.gas_burnt := JInt 0 |}.

Lemma ReceiptOutcome_error_cases_witness :
  ModelsProperties.ReceiptOutcome_error string (fun error_type args => Ok error_type)
    invalid_tx_outcome = Raise (PyException "KeyError" "ActionError").
Proof.
  refine (proj1 (proj2 (ModelsProperties.ReceiptOutcome_error_cases string
                          (fun error_type args => Ok error_type) invalid_tx_outcome
                          _ eq_refl))
            [("InvalidTxError", JObj [("InvalidNonce", JObj [])])] eq_refl eq_refl).
Defined.

(** A permission under a name the protocol does not have: the key built is
    a function-call key all the same. *)
Lemma AccessKey_build_permission_witness :
  Decoding.AccessKey.build
    (JObj [("nonce", JInt 7);
           ("permission", JObj [("Whatever", JObj [("receiver_id", JStr "app.near")])])]) =
  Ok {| Decoding.AccessKey.permission_type := Decoding.FUNCTION_CALL;
        Decoding.AccessKey.nonce := JInt 7;
        Decoding.AccessKey.allowance := JNull;
        Decoding.AccessKey.receiver_id := JStr "app.near";
        Decoding.AccessKey.method_names := JNull |}.
Proof.
  refine (proj1 (proj2 (Decoding.AccessKey_build_permission
                          [("nonce", JInt 7);
                           ("permission",
                            JObj [("Whatever", JObj [("receiver_id", JStr "app.near")])])]
                          (JInt 7) eq_refl))
            "Whatever" [("receiver_id", JStr "app.near")] [] eq_refl _).
  intros k Hk. apply list_elem_of_In in Hk. cbn in Hk. destruct Hk as [<- | []].
  apply list_elem_of_In. cbn. tauto.
Defined.

(** A decoder of base64 and a decoder of JSON that know one text each:
    ["e30="] is the base64 of the two bytes of an empty object. *)
Definition b64decode_braces (v : json) : result (list Byte.byte) :=
  match v with
  | JStr s => if String.eqb s "e30=" then Ok [Byte.x7b; Byte.x7d] else Ok []
  | _ => Raise (PyException "TypeError" "argument should be a bytes-like object or ASCII string")
  end.

Definition json_loads_braces (text : list Byte.byte) : result json :=
  match text with
  | [Byte.x7b; Byte.x7d] => Ok (JObj [])
  | _ => Raise (PyException "JSONDecodeError" "Expecting value")
  end.

(** The action of a transaction that deploys a contract. *)
Lemma ReceiptAction_build_keywords_witness :
  exists arg,
    Decoding.ReceiptAction.build b64decode_braces json_loads_braces
      (JObj [("DeployContract", JObj [("code", JStr "AGFzbQ==")])]) =
    Raise (PyException "TypeError" arg).
Proof.
  refine (proj2 (Decoding.ReceiptAction_build_keywords b64decode_braces json_loads_braces
                   "DeployContract" [("code", JStr "AGFzbQ==")] [] _) "code" _ _).
  - intros Hin. apply list_elem_of_In in Hin. cbn in Hin. intuition discriminate.
  - apply list_elem_of_In. cbn. tauto.
  - intros Hin. apply list_elem_of_In in Hin. cbn in Hin. intuition discriminate.
Defined.

(** A function call whose args are not JSON. *)
Lemma ReceiptAction_build_function_call_witness :
  exists action,
    Decoding.ReceiptAction.build b64decode_braces json_loads_braces
      (JObj [("FunctionCall",
              JObj [("method_name", JStr "ping"); ("args", JStr "AAAA");
                    ("gas", JInt 30); ("deposit", JStr "0")])]) = Ok action /\
    Decoding.ReceiptAction.args action = JNull /\
    Decoding.ReceiptAction.method_name action = JStr "ping".
Proof.
  eexists. split.
  - rewrite (Decoding.ReceiptAction_build_function_call b64decode_braces json_loads_braces
               [("method_name", JStr "ping"); ("args", JStr "AAAA");
                ("gas", JInt 30); ("deposit", JStr "0")] [] (JStr "AAAA") eq_refl).
    + reflexivity.
    + intros k Hk. apply list_elem_of_In in Hk. apply list_elem_of_In. cbn in *. tauto.
  - split; reflexivity.
Defined.

(** The result of a lookup as a node of today gives it: the four entries
    and the status of the execution. *)
Definition tx_result_json : list (string * json) :=
  [("final_execution_status", JStr "FINAL");
   ("receipts_outcome", JArr []);
   ("status", JObj [("SuccessValue", JStr "")]);
   ("transaction", JObj []);
   ("transaction_outcome", JObj [])].

Lemma TransactionResult_init_keywords_witness :
  exists arg,
    Decoding.TransactionResult.init b64decode_braces json_loads_braces (JObj tx_result_json) =
    Raise (PyException "TypeError" arg).
Proof.
  refine (proj1 (Decoding.TransactionResult_init_keywords b64decode_braces json_loads_braces
                   tx_result_json) "final_execution_status" _ _).
  - apply list_elem_of_In. cbn. tauto.
  - intros Hin. apply list_elem_of_In in Hin. cbn in Hin. intuition discriminate.
Defined.

Definition net_tx_found : network :=
  {| get_reply := fun _ => in_sync;
     post_reply := fun _ => answer (JObj [("result", JObj tx_result_json)]);
     clock := fun _ => 0%Q |}.

Lemma get_tx_refuses_unknown_key_witness :
  exists arg,
    (get_tx net_tx_found 10 ∅ same_class Decoding.TransactionResult.t
       (Decoding.TransactionResult.init b64decode_braces json_loads_braces)
       "hash" "receiver.near" world_CB).1 = Raise (PyException "TypeError" arg).
Proof.
  destruct (get_tx_refuses_unknown_key net_tx_found 10 ∅ same_class
              b64decode_braces json_loads_braces "hash" "receiver.near" world_CB
              tx_result_json "final_execution_status") as [arg Harg].
  - reflexivity.
  - apply list_elem_of_In. cbn. tauto.
  - intros Hin. apply list_elem_of_In in Hin. cbn in Hin. intuition discriminate.
  - exists arg. rewrite Harg. reflexivity.
Defined.

(** A delegate action that creates an account. *)
Definition delegate_json : list (string * json) :=
  [("actions", JArr [JStr "CreateAccount"]);
   ("max_block_height", JInt 100);
   ("nonce", JInt 2);
   ("public_key", JStr "ed25519:key");
   ("receiver_id", JStr "bob.near");
   ("sender_id", JStr "alice.near")].

Lemma ReceiptAction_build_delegate_witness :
  exists action delegate,
    Decoding.ReceiptAction.build b64decode_braces json_loads_braces
      (JObj [("Delegate", JObj [("delegate_action", JObj delegate_json);
                                ("signature", JStr "ed25519:sig")])]) = Ok action /\
    Decoding.ReceiptAction.delegate_action action = inr delegate /\
    Decoding.ReceiptAction.actions delegate = [Decoding.ReceiptAction.create_account] /\
    Decoding.ReceiptAction.sender_id delegate = JStr "alice.near".
Proof.
  eexists _, _. split.
  - rewrite (Decoding.ReceiptAction_build_delegate b64decode_braces json_loads_braces
               [("delegate_action", JObj delegate_json); ("signature", JStr "ed25519:sig")]
               [] delegate_json (JStr "ed25519:sig") [JStr "CreateAccount"]
               eq_refl eq_refl eq_refl).
    + reflexivity.
    + intros k. rewrite !list_elem_of_In. cbn. tauto.
  - repeat split.
Defined.

(** A transaction with an entry the constructor has no parameter for. *)
Definition transaction_json : list (string * json) :=
  [("actions", JArr [JStr "CreateAccount"]);
   ("hash", JStr "9xT");
   ("nonce", JInt 5);
   ("priority_fee", JInt 0);
   ("public_key", JStr "ed25519:key");
   ("receiver_id", JStr "bob.near");
   ("signature", JStr "ed25519:sig");
   ("signer_id", JStr "alice.near")].

Lemma TransactionData_init_keywords_witness :
  exists transaction,
    Decoding.TransactionData.init b64decode_braces json_loads_braces transaction_json =
      Ok transaction /\
    Decoding.TransactionData.actions transaction = [Decoding.ReceiptAction.create_account] /\
    Decoding.TransactionData.hash transaction = JStr "9xT".
Proof.
  eexists. split.
  - rewrite (proj2 (Decoding.TransactionData_init_keywords b64decode_braces json_loads_braces
                      transaction_json) [JStr "CreateAccount"]).
    + reflexivity.
    + intros Hin. apply list_elem_of_In in Hin. cbn in Hin. intuition discriminate.
    + intros k. rewrite !list_elem_of_In. cbn. tauto.
    + reflexivity.
  - split; reflexivity.
Defined.

(** A call by a stale stamp, and the refresh it creates running between its
    segments.  The call finds ["C"; "B"]; its first segment creates the task
    of the refresh, which then probes the three candidates and assigns
    ["A"; "B"; "C"] before the call has sent a request. *)
Definition stale_call : system :=
  {| shared := world_stale;
     pool := [DispatchTask (Called "query" JNull 10)];
     assigned := [] |}.

Definition interleaved (order : list nat) : system :=
  schedule net_all_in_sync 10 same_class order stale_call.

(** The events of the request loop of the call in this run: each of its
    segments starts in the world the segments before it, of either task, have
    left. *)
Definition stale_call_events : list event :=
  appended (shared (interleaved [0; 1; 1; 1; 1])) (shared (interleaved [0; 1; 1; 1; 1; 0])) ++
  appended (shared (interleaved [0; 1; 1; 1; 1; 0]))
    (shared (interleaved [0; 1; 1; 1; 1; 0; 0])) ++
  appended (shared (interleaved [0; 1; 1; 1; 1; 0; 0]))
    (shared (interleaved [0; 1; 1; 1; 1; 0; 0; 0])) ++ [].

Lemma stale_call_run :
  call_run net_all_in_sync 10 same_class
    (Requesting ["C"; "B"] ["C"; "B"] (envelope "query" JNull) 10)
    stale_call_events []
    (Returned (Ok JNull)).
Proof.
  unfold stale_call_events.
  apply (call_run_segment net_all_in_sync 10 same_class
           (Requesting ["C"; "B"] ["C"; "B"] (envelope "query" JNull) 10)
           (shared (interleaved [0; 1; 1; 1; 1]))
           (Requesting ["C"; "B"] ["B"] (envelope "query" JNull) 10)
           (shared (interleaved [0; 1; 1; 1; 1; 0])) [] None _ [] _);
    [vm_compute; reflexivity|].
  apply (call_run_segment net_all_in_sync 10 same_class
           (Requesting ["C"; "B"] ["B"] (envelope "query" JNull) 10)
           (shared (interleaved [0; 1; 1; 1; 1; 0]))
           (Requesting ["C"; "B"] [] (envelope "query" JNull) 10)
           (shared (interleaved [0; 1; 1; 1; 1; 0; 0])) [] None _ [] _);
    [vm_compute; reflexivity|].
  apply (call_run_segment net_all_in_sync 10 same_class
           (Requesting ["C"; "B"] [] (envelope "query" JNull) 10)
           (shared (interleaved [0; 1; 1; 1; 1; 0; 0]))
           (Returned (Ok JNull))
           (shared (interleaved [0; 1; 1; 1; 1; 0; 0; 0])) [] None _ [] _);
    [vm_compute; reflexivity|].
  apply call_run_here.
Qed.

Lemma call_creates_refresh_task_witness :
  pool (interleaved [0; 1; 1; 1; 1; 0; 0; 0]) =
    [DispatchTask (Returned (Ok JNull)); RefreshTask Refreshed] /\
  gets_of (trace (shared (interleaved [0; 1; 1; 1; 1; 0; 0; 0]))) =
    [("A/status", 10%Z); ("B/status", 10%Z); ("C/status", 10%Z)] /\
  _available_rpcs (self (shared (interleaved [0; 1; 1; 1; 1; 0; 0; 0]))) = ["A"; "B"; "C"] /\
  pool (interleaved [0]) =
    [DispatchTask (Requesting ["C"; "B"] ["C"; "B"] (envelope "query" JNull) 10);
     RefreshTask (Probing ["A"; "B"; "C"] [])] /\
  appended world_stale (shared (interleaved [0])) = [CreateTask_check_available_rpcs] /\
  _last_rpc_addr_check (self (shared (interleaved [0]))) = clock net_all_in_sync 1 /\
  gets_of stale_call_events = [] /\
  posts_of stale_call_events =
    [("C", envelope "query" JNull, 10%Z); ("B", envelope "query" JNull, 10%Z)].
Proof.
  assert (Hfound : _available_rpcs (self world_stale) <> []) by discriminate.
  assert (Hseg : dispatch_segment net_all_in_sync 10 same_class
                   (Called "query" JNull 10) world_stale =
                 Some (Requesting ["C"; "B"] ["C"; "B"] (envelope "query" JNull) 10,
                       shared (interleaved [0]),
                       [RefreshTask (Probing ["A"; "B"; "C"] [])], None))
    by (vm_compute; reflexivity).
  destruct (call_creates_refresh_task net_all_in_sync 10 same_class "query" JNull 10
              world_stale _ _ _ _ _ _ _ Hfound Hseg stale_call_run)
    as (_ & Happended & _ & Hstamp & _ & Hgets & _ & _).
  split; [vm_compute; reflexivity|].
  split; [vm_compute; reflexivity|].
  split; [vm_compute; reflexivity|].
  split; [vm_compute; reflexivity|].
  split; [exact Happended|].
  split; [exact Hstamp|].
  split; [exact Hgets|].
  vm_compute; reflexivity.
Defined.

Lemma call_posts_to_its_snapshot_witness :
  _available_rpcs (self (shared (interleaved [0; 1; 1; 1; 1]))) = ["A"; "B"; "C"] /\
  posts_of (trace (shared (interleaved [0; 1; 1; 1; 1]))) = [] /\
  posts_of (appended world_stale (shared (interleaved [0])) ++ stale_call_events) =
    [("C", envelope "query" JNull, 10%Z); ("B", envelope "query" JNull, 10%Z)] /\
  exists k,
    k <= 2 /\
    posts_of (appended world_stale (shared (interleaved [0])) ++ stale_call_events) =
      ((fun addr => (addr, envelope "query" JNull, 10%Z)) <$> take k ["C"; "B"]).
Proof.
  assert (Hseg : dispatch_segment net_all_in_sync 10 same_class
                   (Called "query" JNull 10) world_stale =
                 Some (Requesting ["C"; "B"] ["C"; "B"] (envelope "query" JNull) 10,
                       shared (interleaved [0]),
                       [RefreshTask (Probing ["A"; "B"; "C"] [])], None))
    by (vm_compute; reflexivity).
  destruct (call_posts_to_its_snapshot net_all_in_sync 10 same_class "query" JNull 10
              world_stale _ _ _ _ _ _ _ Hseg stale_call_run)
    as (snapshot & k & Hk & Hposts & Hsnapshot).
  assert (Hfound : _available_rpcs (self world_stale) <> []) by discriminate.
  rewrite (Hsnapshot Hfound) in Hk, Hposts.
  split; [vm_compute; reflexivity|].
  split; [vm_compute; reflexivity|].
  split; [vm_compute; reflexivity|].
  exists k. split; [exact Hk | exact Hposts].
Defined.
